(** * Transcoding orchestration and delivery cache of the video-streaming backend

    A shallow embedding of

    - [backend/src/services/streaming.service.ts]   (module [Streaming]),
    - [backend/src/services/cache.service.ts]       (module [Cache]),
    - [backend/src/services/video-processing.service.ts] (module [Processing]),
    - [backend/src/services/aws-mediaconvert.service.ts]
      (modules [MediaConvert] and [JobProgress]),
    - [backend/src/services/video.service.ts]       (module [VideoService]),
    - [backend/src/controllers/streaming.controller.ts]
      (modules [Controller] and [StreamingController]),
    - [backend/src/utils/storage.ts]                (module [Storage]),

    over an explicit store made of the two relational tables the services
    touch ([videos], [video_variants]) and the Redis key space.  Every
    [async] method becomes a function in a state-and-exception monad: a
    rejected promise is [inl message], and the store is threaded through
    (a rejection does not roll the store back, as no method opens a
    transaction).

    Left out of the store: the wall-clock columns [created_at] and
    [updated_at], the generated primary key of [video_variants] (rows are
    identified by the pair [(video_id, quality)], which the schema declares
    unique).  The expiry of a Redis key is no part of a call: the TTL is
    stored with the entry, and an expiry is an event of its own
    ([Expired]) where a result is about what a cache can hold. *)

From Stdlib Require Import ZArith QArith Lia.
From stdpp Require Import base option list sorting strings pretty gmap.

Local Open Scope Z_scope.
Local Open Scope string_scope.

(** ** Text helpers *)

(** The line feed of the JavaScript template literals. *)
Definition nl : string := String (Ascii.ascii_of_nat 10) EmptyString.

(** [`${n}`] for an integral JavaScript number. *)
Definition num (n : Z) : string := pretty n.

(** JavaScript truthiness of a string: only the empty string is falsy. *)
Definition truthy (s : string) : bool :=
  match s with EmptyString => false | String _ _ => true end.

(** [if (x)] on what [redis.get] returned: [null] and the empty string
    are falsy. *)
Definition if_truthy (x : option string) : option string :=
  match x with
  | Some s => if truthy s then Some s else None
  | None => None
  end.

(** ** Data model *)

(** The [video_status] enumeration of the schema. *)
Inductive VideoStatus : Type :=
  | uploading | processing | ready | failed | deleted.

#[global] Instance VideoStatus_eq_dec : EqDecision VideoStatus.
Proof. solve_decision. Defined.

(** [VideoQuality] of [types/common.types.ts]: one rung of the table. *)
Record VideoQuality : Type := mkQuality {
  name : string;
  bitrate : Z;
  crf : Z;
  width : Z;
  height : Z
}.

(** A row of [videos], restricted to the columns the services write. *)
Record VideoRow : Type := mkVideo {
  status : VideoStatus;
  processing_job_id : option string;
  duration : option Z;
  thumbnail_url : option string
}.

(** A row of [video_variants] (one rendition). *)
Record VariantRow : Type := mkVariant {
  video_id : string;
  quality : string;
  v_bitrate : Z;
  resolution_width : Z;
  resolution_height : Z;
  file_path : string;
  file_size : option Z;
  hls_playlist_url : option string
}.

(** The object handed to [cacheProcessingStatus]; it is stored through
    [JSON.stringify], which is injective on these objects. *)
Record StatusInfo : Type := mkStatusInfo {
  st_status : string;
  st_progress : Z;
  st_jobId : option string;
  st_error : option string;
  st_message : option string
}.

(** What a Redis key holds: a plain text, or a serialised status object. *)
Inductive CacheValue : Type :=
  | CText (text : string)
  | CStatus (info : StatusInfo).

Record CacheEntry : Type := mkEntry {
  ttl : Z;
  payload : CacheValue
}.

Record Store : Type := mkStore {
  videos : gmap string VideoRow;
  video_variants : list VariantRow;
  redis : gmap string CacheEntry
}.

Definition with_videos (f : gmap string VideoRow → gmap string VideoRow)
    (s : Store) : Store :=
  mkStore (f (videos s)) (video_variants s) (redis s).

Definition with_variants (f : list VariantRow → list VariantRow)
    (s : Store) : Store :=
  mkStore (videos s) (f (video_variants s)) (redis s).

Definition with_redis (f : gmap string CacheEntry → gmap string CacheEntry)
    (s : Store) : Store :=
  mkStore (videos s) (video_variants s) (f (redis s)).

(** ** The monad of the services *)

Definition M (A : Type) : Type := Store → (string + A) * Store.

Definition ret {A} (a : A) : M A := fun s => (inr a, s).

Definition throw {A} (msg : string) : M A := fun s => (inl msg, s).

Definition bind {A B} (m : M A) (k : A → M B) : M B :=
  fun s =>
    match m s with
    | (inr a, s') => k a s'
    | (inl e, s') => (inl e, s')
    end.

(** [try { m } catch (error) { h error }] *)
Definition try_catch {A} (m : M A) (h : string → M A) : M A :=
  fun s =>
    match m s with
    | (inr a, s') => (inr a, s')
    | (inl e, s') => h e s'
    end.

Definition modify (f : Store → Store) : M unit := fun s => (inr tt, f s).

Definition gets {A} (f : Store → A) : M A := fun s => (inr (f s), s).

#[global] Instance M_ret : MRet M := @ret.
#[global] Instance M_bind : MBind M := fun A B k m => bind m k.

(** Lift a call that may reject. *)
Definition call (answer : option string) : M unit :=
  match answer with
  | Some e => throw e
  | None => mret tt
  end.

(** Run [body] on each element in turn; a rejection ends the loop. *)
Fixpoint for_each {A} (l : list A) (body : A → M unit) : M unit :=
  match l with
  | [] => mret tt
  | x :: rest => body x;; for_each rest body
  end.

(** ** Relational store *)

Module Db.

(** [db('video_variants').where({ video_id })] in insertion order. *)
Definition variants_of (videoId : string) (rows : list VariantRow)
    : list VariantRow :=
  filter (fun r => video_id r = videoId) rows.

(** [.where({ video_id, quality }).first()] *)
Definition find_variant (videoId q : string) (rows : list VariantRow)
    : option VariantRow :=
  head (filter (fun r => video_id r = videoId ∧ quality r = q) rows).

(** [ORDER BY bitrate DESC]: [a] may precede [b]. *)
Definition bitrate_desc (a b : VariantRow) : Prop :=
  v_bitrate b <= v_bitrate a.

#[global] Instance bitrate_desc_dec : RelDecision bitrate_desc.
Proof. intros a b. unfold bitrate_desc. apply _. Defined.

#[global] Instance bitrate_desc_total : Total bitrate_desc.
Proof. intros a b. unfold bitrate_desc. lia. Qed.

#[global] Instance bitrate_desc_trans : Transitive bitrate_desc.
Proof. intros a b c. unfold bitrate_desc. lia. Qed.

(** [.orderBy('bitrate', 'desc')].  SQL leaves the order of rows of equal
    bitrate open; the model takes the one a merge sort of the insertion
    order gives.  The results below only use that the output is sorted
    and a permutation of the input. *)
Definition order_by_bitrate_desc (rows : list VariantRow)
    : list VariantRow :=
  merge_sort bitrate_desc rows.

(** [db('video_variants').insert(row)] under the PostgreSQL client, which
    [config/database.ts] takes unless [DB_CLIENT=sqlite3] is set.  The
    schema makes [video_id] a foreign key into [videos] and
    [(video_id, quality)] unique; a violating insert rejects and leaves
    the table as it was.  Of the driver's message, which also quotes the
    statement and the name of the constraint, the model keeps the part
    that tells the two constraints apart; no result below reads it. *)
Definition insert_variant (row : VariantRow) : M unit :=
  fun s =>
    match videos s !! video_id row with
    | None => (inl "insert or update on table video_variants violates foreign key constraint", s)
    | Some _ =>
      match find_variant (video_id row) (quality row) (video_variants s) with
      | Some _ => (inl "duplicate key value violates unique constraint", s)
      | None => (inr tt, with_variants (fun rows => (rows ++ [row])%list) s)
      end
    end.

(** [db('videos').where({ id }).update(...)]: no row, no effect. *)
Definition update_video (videoId : string) (f : VideoRow → VideoRow)
    : M unit :=
  modify (with_videos (alter f videoId)).

(** [db('video_variants').where({ id: variant.id }).update({ hls_playlist_url })],
    the row being addressed by its unique [(video_id, quality)]. *)
Definition update_variant_url (videoId q url : string) : M unit :=
  modify (with_variants (map (fun r =>
    if decide (video_id r = videoId ∧ quality r = q)
    then mkVariant (video_id r) (quality r) (v_bitrate r)
           (resolution_width r) (resolution_height r) (file_path r)
           (file_size r) (Some url)
    else r))).

End Db.

(** ** Redis *)

Module Redis.

(** [redis.get(key)] as the readers of manifests and playlists see it;
    [null] is [None].  Their keys and the keys of the status objects have
    different prefixes, so such a reader never meets a status object. *)
Definition get (key : string) (s : Store) : option string :=
  match redis s !! key with
  | Some (mkEntry _ (CText t)) => Some t
  | _ => None
  end.

Definition setex (key : string) (seconds : Z) (v : CacheValue) : M unit :=
  modify (with_redis (insert key (mkEntry seconds v))).

Definition del (key : string) : M unit :=
  modify (with_redis (delete key)).

End Redis.

(** ** [cache.service.ts] *)

Module Cache.

(** [CACHE_TTL.PROCESSING_STATUS], in seconds. *)
Definition PROCESSING_STATUS : Z := 300.

Definition processing_key (videoId : string) : string :=
  "video:processing:" +:+ videoId.

Definition cacheProcessingStatus (videoId : string) (st : StatusInfo)
    : M unit :=
  Redis.setex (processing_key videoId) PROCESSING_STATUS (CStatus st).

Definition getCachedProcessingStatus (videoId : string) (s : Store)
    : option StatusInfo :=
  match redis s !! processing_key videoId with
  | Some (mkEntry _ (CStatus st)) => Some st
  | _ => None
  end.

(** The keys of the bulk invalidation, in the order of the source. *)
Definition video_keys (videoId : string) : list string :=
  [ "video:metadata:" +:+ videoId;
    "video:variants:" +:+ videoId;
    "video:hls:" +:+ videoId;
    "video:processing:" +:+ videoId;
    "video:analytics:" +:+ videoId;
    "video:views:" +:+ videoId ].

(** [Promise.all(keys.map(key => redis.del(key)))] *)
Definition invalidateVideoCache (videoId : string) : M unit :=
  for_each (video_keys videoId) Redis.del.

End Cache.

(** ** [streaming.service.ts] *)

Module Streaming.

Definition manifest_key (videoId : string) : string :=
  "manifest:" +:+ videoId.

Definition playlist_key (videoId q : string) : string :=
  "playlist:" +:+ videoId +:+ ":" +:+ q.

(** [getVideoVariants]: the renditions of a video, highest bitrate first. *)
Definition getVideoVariants (videoId : string) : M (list VariantRow) :=
  gets (fun s =>
    Db.order_by_bitrate_desc (Db.variants_of videoId (video_variants s))).

Definition manifest_header : string :=
  "#EXTM3U" +:+ nl +:+ "#EXT-X-VERSION:3" +:+ nl +:+ nl.

(** One turn of the [forEach] of [generateHLSManifest]: two [+=]. *)
Definition add_variant (manifest : string) (variant : VariantRow) : string :=
  let manifest :=
    manifest +:+
      ("#EXT-X-STREAM-INF:BANDWIDTH=" +:+ num (v_bitrate variant * 1000)
       +:+ ",RESOLUTION=" +:+ num (resolution_width variant)
       +:+ "x" +:+ num (resolution_height variant) +:+ nl) in
  manifest +:+ (quality variant +:+ "/playlist.m3u8" +:+ nl +:+ nl).

Definition generateHLSManifest (videoId : string) : M string :=
  cachedManifest ← gets (Redis.get (manifest_key videoId));
  match if_truthy cachedManifest with
  | Some cached => mret cached
  | None =>
      variants ← getVideoVariants videoId;
      if decide (length variants = 0%nat)
      then throw "No video variants found"
      else
        let manifest := fold_left add_variant variants manifest_header in
        Redis.setex (manifest_key videoId) 1800 (CText manifest);;
        mret manifest
  end.

(** The template literal of [generateQualityPlaylist]. *)
Definition playlist_text (q : string) : string :=
  "#EXTM3U" +:+ nl +:+
  "#EXT-X-VERSION:3" +:+ nl +:+
  "#EXT-X-TARGETDURATION:10" +:+ nl +:+
  "#EXT-X-MEDIA-SEQUENCE:0" +:+ nl +:+
  "#EXTINF:10.0," +:+ nl +:+
  q +:+ "_000.ts" +:+ nl +:+
  "#EXTINF:10.0," +:+ nl +:+
  q +:+ "_001.ts" +:+ nl +:+
  "#EXT-X-ENDLIST".

Definition generateQualityPlaylist (videoId q : string) : M string :=
  let cacheKey := playlist_key videoId q in
  cachedPlaylist ← gets (Redis.get cacheKey);
  match if_truthy cachedPlaylist with
  | Some cached => mret cached
  | None =>
      variant ← gets (fun s => Db.find_variant videoId q (video_variants s));
      match variant with
      | None =>
          throw ("Quality " +:+ q +:+ " not found for video " +:+ videoId)
      | Some _ =>
          let playlist := playlist_text q in
          Redis.setex cacheKey 600 (CText playlist);;
          mret playlist
      end
  end.

(** [variant.bitrate <= targetBitrate] with
    [targetBitrate = userBandwidth * 0.8].  The controller passes a
    [parseInt] result, so both operands are integers; for integers below
    10^15 in absolute value the IEEE-754 product and comparison agree
    with the exact rational ones used here. *)
Definition targetBitrate (userBandwidth : Z) : Q :=
  (inject_Z userBandwidth * (8 # 10))%Q.

Definition fits (variantBitrate userBandwidth : Z) : bool :=
  Qle_bool (inject_Z variantBitrate) (targetBitrate userBandwidth).

(** The [for ... of] loop of [getOptimalQuality], with its [break]. *)
Fixpoint scan (variants : list VariantRow) (userBandwidth : Z)
    (optimalQuality : string) : string :=
  match variants with
  | [] => optimalQuality
  | variant :: rest =>
      if fits (v_bitrate variant) userBandwidth
      then scan rest userBandwidth (quality variant)
      else optimalQuality
  end.

(** [variants[0]?.quality || '360p'] *)
Definition initial_quality (variants : list VariantRow) : string :=
  match variants with
  | variant :: _ => if truthy (quality variant) then quality variant else "360p"
  | [] => "360p"
  end.

Definition getOptimalQuality (videoId : string) (userBandwidth : Z)
    : M string :=
  variants ← getVideoVariants videoId;
  mret (scan variants userBandwidth (initial_quality variants)).

End Streaming.

(** ** Configuration and outside world *)

Inductive StorageType : Type := local | s3 | minio.

#[global] Instance StorageType_eq_dec : EqDecision StorageType.
Proof. solve_decision. Defined.

(** The part of [config/environment.ts] the services read.  A variable
    of the process environment that is not set is [None]. *)
Record Config : Type := mkConfig {
  aws_accessKeyId : option string;
  aws_secretAccessKey : option string;
  aws_region : string;
  aws_s3Bucket : option string;
  aws_cloudFrontDomain : option string;
  storage_type : StorageType;
  storage_localPath : string;
  storage_s3Bucket : option string;
  storage_s3Region : string;
  storage_s3Endpoint : option string;
  video_qualities : list VideoQuality
}.

(** [config.video.qualities] as the repository ships it. *)
Definition default_qualities : list VideoQuality :=
  [ mkQuality "240p" 400 28 426 240;
    mkQuality "360p" 800 25 640 360;
    mkQuality "480p" 1200 23 854 480;
    mkQuality "720p" 2500 21 1280 720;
    mkQuality "1080p" 5000 20 1920 1080 ].

(** [`${x}`] of a possibly [undefined] string. *)
Definition interp (x : option string) : string := default "undefined" x.

(** [if (x)] on a possibly [undefined] string. *)
Definition defined_truthy (x : option string) : bool :=
  match x with Some s => truthy s | None => false end.

(** [JobStatus] of the MediaConvert client. *)
Inductive JobStatus : Type :=
  | SUBMITTED | PROGRESSING | COMPLETE | CANCELED | ERROR.

#[global] Instance JobStatus_eq_dec : EqDecision JobStatus.
Proof. solve_decision. Defined.

Definition JobStatus_text (st : JobStatus) : string :=
  match st with
  | SUBMITTED => "SUBMITTED"
  | PROGRESSING => "PROGRESSING"
  | COMPLETE => "COMPLETE"
  | CANCELED => "CANCELED"
  | ERROR => "ERROR"
  end.

Record OutputDetail : Type := mkOutput {
  OutputFilePaths : option (list string)
}.

Record OutputGroupDetail : Type := mkOutputGroup {
  OutputDetails : option (list OutputDetail)
}.

(** [MediaConvertJob] of [aws-mediaconvert.service.ts]. *)
Record MediaConvertJob : Type := mkJob {
  jobId : string;
  job_status : JobStatus;
  progress : Z;
  errorMessage : option string;
  outputGroupDetails : option (list OutputGroupDetail)
}.

(** What becomes of [uploadToS3]'s two steps: [fs.readFileSync(filePath)],
    which runs before the [try] block and rejects with its own error, and
    the [PutObjectCommand] inside it. *)
Inductive PutAnswer : Type :=
  | put_ok
  | read_failed (error : string)
  | send_failed.

(** The collaborators outside the repository, as the answers they give.
    An [option string] answer is the error of a rejected call, [None]
    when the call succeeds. *)
Record World : Type := mkWorld {
  (** Node's [path.join] and [path.basename] *)
  path_join : list string → string;
  path_basename : string → string;
  (** [ffmpeg.ffprobe]: an error, or
      [Math.floor(metadata.format.duration || 0)] *)
  ffprobe : string → string + Z;
  (** [fs.mkdir(dir, { recursive: true })] *)
  mkdir : string → option string;
  (** the [screenshots] run of the thumbnail: input, folder *)
  screenshots : string → string → option string;
  (** the HLS encoder run for one rung (input, output playlist, rung)
      followed by [fs.stat] of the playlist: an error, or the size *)
  encode : string → string → VideoQuality → string + Z;
  (** [fs.writeFile(path, text)] *)
  writeFile : string → string → option string;
  (** [uploadDirectoryToS3({ prefix, directoryPath })] *)
  uploadDirectoryToS3 : string → string → option string;
  (** reading the file and the [PutObjectCommand]: file, key *)
  put_object : string → string → PutAnswer;
  (** the [CreateJobCommand]: video, input, output prefix, rungs; the
      answer is [response.Job?.Id || ''] *)
  create_job : string → string → string → list VideoQuality → option string;
  (** the [GetJobCommand] with the progress computed from it *)
  get_job : string → option MediaConvertJob
}.

(** ** [aws-mediaconvert.service.ts] *)

Module MediaConvert.
Section adapter.
Variables (cfg : Config) (w : World).

Definition uploadToS3 (filePath key : string) : M string :=
  match put_object w filePath key with
  | read_failed error => throw error
  | put_ok => mret ("s3://" +:+ interp (aws_s3Bucket cfg) +:+ "/" +:+ key)
  | send_failed => throw "Failed to upload file to S3"
  end.

Definition createTranscodingJob (videoId inputS3Uri outputS3Uri : string)
    (qualities : list VideoQuality) : M string :=
  match create_job w videoId inputS3Uri outputS3Uri qualities with
  | Some id => mret id
  | None => throw "Failed to create transcoding job"
  end.

Definition getJobStatus (id : string) : M MediaConvertJob :=
  match get_job w id with
  | Some job => mret job
  | None => throw "Failed to get job status"
  end.

Definition getCloudFrontUrl (key : string) : string :=
  if defined_truthy (aws_cloudFrontDomain cfg)
  then "https://" +:+ interp (aws_cloudFrontDomain cfg) +:+ "/" +:+ key
  else "https://" +:+ interp (aws_s3Bucket cfg) +:+ ".s3."
       +:+ aws_region cfg +:+ ".amazonaws.com/" +:+ key.

End adapter.
End MediaConvert.

(** ** [utils/storage.ts] *)

Module Storage.

(** [s.replace(/\/$/, '')] *)
Definition strip_trailing_slash (s : string) : string :=
  match rev (String.list_ascii_of_string s) with
  | c :: rest =>
      if Ascii.eqb c (Ascii.ascii_of_nat 47)
      then String.string_of_list_ascii (rev rest)
      else s
  | [] => s
  end.

Definition getS3PublicUrl (cfg : Config) (bucket key : string) : string :=
  if defined_truthy (storage_s3Endpoint cfg)
  then strip_trailing_slash (interp (storage_s3Endpoint cfg))
       +:+ "/" +:+ bucket +:+ "/" +:+ key
  else "https://" +:+ bucket +:+ ".s3." +:+ storage_s3Region cfg
       +:+ ".amazonaws.com/" +:+ key.

End Storage.

(** ** [video-processing.service.ts] *)

Module Processing.

Definition is_digit (c : Ascii.ascii) : bool :=
  (48 <=? Ascii.nat_of_ascii c)%nat && (Ascii.nat_of_ascii c <=? 57)%nat.

(** The longest prefix of digits. *)
Fixpoint digits_of (l : list Ascii.ascii) : list Ascii.ascii :=
  match l with
  | c :: rest => if is_digit c then c :: digits_of rest else []
  | [] => []
  end.

(** Drop [pre] from the front of [l], if it is there. *)
Fixpoint strip_prefix (pre l : list Ascii.ascii)
    : option (list Ascii.ascii) :=
  match pre, l with
  | [], _ => Some l
  | p :: pre', c :: l' => if Ascii.eqb p c then strip_prefix pre' l' else None
  | _ :: _, [] => None
  end.

(** [outputPath.match(/(\d+p)\.m3u8$/)], the captured group: the path
    is read from its end, where the pattern is anchored. *)
Definition match_quality (outputPath : string) : option string :=
  match strip_prefix (rev (String.list_ascii_of_string "p.m3u8"))
                     (rev (String.list_ascii_of_string outputPath)) with
  | Some before =>
      match digits_of before with
      | [] => None
      | ds => Some (String.string_of_list_ascii (rev ds) +:+ "p")
      end
  | None => None
  end.

Section service.
Variables (cfg : Config) (w : World).

(** [private readonly qualities = config.video.qualities] *)
Definition qualities : list VideoQuality := video_qualities cfg.

Definition extractQualityFromPath (outputPath : string)
    : option VideoQuality :=
  match match_quality outputPath with
  | Some qualityName =>
      List.find (fun q => bool_decide (name q = qualityName)) qualities
  | None => None
  end.

Definition updateVideoStatus (videoId : string) (st : VideoStatus)
    : M unit :=
  Db.update_video videoId (fun v =>
    mkVideo st (processing_job_id v) (duration v) (thumbnail_url v)).

Definition updateVideoMetadata (videoId : string) (metadata : Z) : M unit :=
  Db.update_video videoId (fun v =>
    mkVideo (status v) (processing_job_id v) (Some metadata)
      (thumbnail_url v)).

Definition getVideoMetadata (inputPath : string) : M Z :=
  match ffprobe w inputPath with
  | inl err => throw err
  | inr metadata => mret metadata
  end.

Definition generateThumbnail (inputPath outputDir videoId : string)
    : M string :=
  let thumbnailPath := path_join w [outputDir; "thumbnail.jpg"] in
  call (screenshots w inputPath outputDir);;
  let thumbnailUrl := "/uploads/processed/" +:+ videoId +:+ "/thumbnail.jpg" in
  Db.update_video videoId (fun v =>
    mkVideo (status v) (processing_job_id v) (duration v)
      (Some thumbnailUrl));;
  mret thumbnailPath.

Definition transcodeToQuality (inputPath outputDir videoId : string)
    (q : VideoQuality) : M VariantRow :=
  let outputPath := path_join w [outputDir; name q +:+ ".m3u8"] in
  match encode w inputPath outputPath q with
  | inl err => throw err
  | inr fileSize =>
      let variant :=
        mkVariant videoId (name q) (bitrate q) (width q) (height q)
          outputPath (Some fileSize)
          (Some ("/uploads/processed/" +:+ videoId +:+ "/"
                 +:+ name q +:+ ".m3u8")) in
      Db.insert_variant variant;;
      mret variant
  end.

(** The loop of [transcodeToMultipleQualities] over the rungs still to
    do, [variants] being the array pushed to so far. *)
Fixpoint transcode_loop (inputPath outputDir videoId : string)
    (todo : list VideoQuality) (variants : list VariantRow)
    : M (list VariantRow) :=
  match todo with
  | [] => mret variants
  | q :: rest =>
      variants' ← try_catch
        (variant ← transcodeToQuality inputPath outputDir videoId q;
         mret (variants ++ [variant])%list)
        (fun _ => mret variants);
      transcode_loop inputPath outputDir videoId rest variants'
  end.

Definition transcodeToMultipleQualities (inputPath outputDir videoId : string)
    : M (list VariantRow) :=
  transcode_loop inputPath outputDir videoId qualities [].

(** One turn of the [forEach] of [generateHLSPlaylists]. *)
Definition add_master_entry (masterPlaylist : string) (variant : VariantRow)
    : string :=
  let masterPlaylist :=
    masterPlaylist +:+
      ("#EXT-X-STREAM-INF:BANDWIDTH=" +:+ num (v_bitrate variant * 1000)
       +:+ ",RESOLUTION=" +:+ num (resolution_width variant)
       +:+ "x" +:+ num (resolution_height variant) +:+ nl) in
  masterPlaylist +:+ (quality variant +:+ ".m3u8" +:+ nl +:+ nl).

Definition generateHLSPlaylists (variants : list VariantRow)
    (outputDir videoId : string) : M unit :=
  let masterPlaylistPath := path_join w [outputDir; "master.m3u8"] in
  let masterPlaylist :=
    fold_left add_master_entry variants Streaming.manifest_header in
  call (writeFile w masterPlaylistPath masterPlaylist);;
  Db.update_video videoId (fun v => v).

Definition processWithFFmpeg (videoId inputPath : string) : M unit :=
  let outputDir :=
    path_join w [storage_localPath cfg; "processed"; videoId] in
  call (mkdir w outputDir);;
  generateThumbnail inputPath outputDir videoId;;
  variants ← transcodeToMultipleQualities inputPath outputDir videoId;
  generateHLSPlaylists variants outputDir videoId;;
  if decide (storage_type cfg = s3) then
    let prefix := "videos/" +:+ videoId in
    call (uploadDirectoryToS3 w prefix outputDir);;
    for_each variants (fun variant =>
      let playlistKey :=
        "videos/" +:+ videoId +:+ "/" +:+ quality variant +:+ ".m3u8" in
      let playlistUrl :=
        Storage.getS3PublicUrl cfg (interp (storage_s3Bucket cfg))
          playlistKey in
      Db.update_variant_url (video_id variant) (quality variant) playlistUrl)
  else mret tt.

Definition processWithAWSMediaConvert (videoId inputPath : string)
    : M unit :=
  let inputKey :=
    "videos/" +:+ videoId +:+ "/source/" +:+ path_basename w inputPath in
  inputS3Uri ← MediaConvert.uploadToS3 cfg w inputPath inputKey;
  let outputS3Uri :=
    "s3://" +:+ interp (aws_s3Bucket cfg) +:+ "/videos/" +:+ videoId
    +:+ "/outputs" in
  job ← MediaConvert.createTranscodingJob w videoId inputS3Uri outputS3Uri
          qualities;
  Db.update_video videoId (fun v =>
    mkVideo (status v) (Some job) (duration v) (thumbnail_url v));;
  let outputDir :=
    path_join w [storage_localPath cfg; "processed"; videoId] in
  call (mkdir w outputDir);;
  generateThumbnail inputPath outputDir videoId;;
  Cache.cacheProcessingStatus videoId
    (mkStatusInfo "processing" 30 (Some job) None
       (Some "Transcoding job created, processing in progress...")).

Definition processVideo (videoId inputPath : string) : M unit :=
  try_catch
    (updateVideoStatus videoId processing;;
     Cache.cacheProcessingStatus videoId
       (mkStatusInfo "processing" 10 None None None);;
     metadata ← getVideoMetadata inputPath;
     updateVideoMetadata videoId metadata;;
     (if defined_truthy (aws_accessKeyId cfg)
         && defined_truthy (aws_secretAccessKey cfg)
      then processWithAWSMediaConvert videoId inputPath
      else processWithFFmpeg videoId inputPath);;
     updateVideoStatus videoId ready;;
     Cache.cacheProcessingStatus videoId
       (mkStatusInfo "ready" 100 None None None);;
     Cache.invalidateVideoCache videoId)
    (fun error =>
       updateVideoStatus videoId failed;;
       Cache.cacheProcessingStatus videoId
         (mkStatusInfo "failed" 0 None (Some error) None);;
       throw error).

(** The body of the innermost loop of [updateVideoVariantsFromAWS]. *)
Definition record_output (videoId : string) (output : OutputDetail)
    : M unit :=
  match OutputFilePaths output with
  | Some (outputPath :: _) =>
      match extractQualityFromPath outputPath with
      | Some q =>
          Db.insert_variant
            (mkVariant videoId (name q) (bitrate q) (width q) (height q)
               outputPath None
               (Some (MediaConvert.getCloudFrontUrl cfg
                  ("videos/" +:+ videoId +:+ "/outputs/" +:+ name q
                   +:+ ".m3u8"))))
      | None => mret tt
      end
  | _ => mret tt
  end.

Definition updateVideoVariantsFromAWS (videoId : string)
    (jobStatus : MediaConvertJob) : M unit :=
  match outputGroupDetails jobStatus with
  | None => mret tt
  | Some groups =>
      for_each groups (fun outputGroup =>
        match OutputDetails outputGroup with
        | Some outputs => for_each outputs (record_output videoId)
        | None => mret tt
        end)
  end.

Definition checkAWSJobStatus (videoId : string) : M MediaConvertJob :=
  try_catch
    (video ← gets (fun s => videos s !! videoId);
     match video ≫= processing_job_id with
     | Some job =>
         if truthy job then
           jobStatus ← MediaConvert.getJobStatus w job;
           Cache.cacheProcessingStatus videoId
             (mkStatusInfo (JobStatus_text (job_status jobStatus))
                (progress jobStatus) (Some job) (errorMessage jobStatus)
                None);;
           (if decide (job_status jobStatus = COMPLETE) then
              updateVideoVariantsFromAWS videoId jobStatus;;
              updateVideoStatus videoId ready;;
              Cache.invalidateVideoCache videoId
            else if decide (job_status jobStatus = ERROR) then
              updateVideoStatus videoId failed
            else mret tt);;
           mret jobStatus
         else throw "No processing job found for this video"
     | None => throw "No processing job found for this video"
     end)
    (fun error => throw error).

End service.
End Processing.

(** ** Reference renderings, written from the specification *)

Module Reference.

(** Concatenation of a list of pieces. *)
Definition concat_all (pieces : list string) : string :=
  foldr String.append EmptyString pieces.

(** Bandwidth of a rendition in bits per second. *)
Definition bandwidth (v : VariantRow) : Z := v_bitrate v * 1000.

(** The stream-info line of a rendition, without its line end. *)
Definition stream_inf_line (v : VariantRow) : string :=
  "#EXT-X-STREAM-INF:BANDWIDTH=" +:+ num (bandwidth v)
  +:+ ",RESOLUTION=" +:+ num (resolution_width v)
  +:+ "x" +:+ num (resolution_height v).

(** The relative reference to the playlist of a rendition. *)
Definition playlist_ref (v : VariantRow) : string :=
  quality v +:+ "/playlist.m3u8".

(** Header, then for each rendition its stream-info line and playlist
    reference, each pair closed by a blank line. *)
Definition master_manifest (variants : list VariantRow) : string :=
  "#EXTM3U" +:+ nl +:+ "#EXT-X-VERSION:3" +:+ nl +:+ nl +:+
  concat_all (map (fun v =>
    stream_inf_line v +:+ nl +:+ playlist_ref v +:+ nl +:+ nl) variants).

(** The lines of a text, joined by line feeds. *)
Fixpoint unlines (lines : list string) : string :=
  match lines with
  | [] => EmptyString
  | [line] => line
  | line :: rest => line +:+ nl +:+ unlines rest
  end.

(** A media playlist of two ten-second segments and an end marker. *)
Definition two_segment_playlist (q : string) : string :=
  unlines [ "#EXTM3U";
            "#EXT-X-VERSION:3";
            "#EXT-X-TARGETDURATION:10";
            "#EXT-X-MEDIA-SEQUENCE:0";
            "#EXTINF:10.0,"; q +:+ "_000.ts";
            "#EXTINF:10.0,"; q +:+ "_001.ts";
            "#EXT-X-ENDLIST" ].

(** Order of the master manifest: bandwidth never increases. *)
Definition bandwidth_desc (a b : VariantRow) : Prop :=
  bandwidth b <= bandwidth a.

End Reference.

(** ** Observations on a store *)

(** The persisted status of a video. *)
Definition status_of (videoId : string) (s : Store) : option VideoStatus :=
  status <$> videos s !! videoId.

(** The rendition rows of a video, in insertion order. *)
Definition renditions (videoId : string) (s : Store) : list VariantRow :=
  Db.variants_of videoId (video_variants s).

(** The store with an empty cache: what a reader sees after every key
    has been dropped. *)
Definition cold (s : Store) : Store := with_redis (fun _ => ∅) s.

(** The master manifest computed afresh from the persisted rows. *)
Definition fresh_manifest (videoId : string) (s : Store) : string + string :=
  fst (Streaming.generateHLSManifest videoId (cold s)).

(** The bitrate of the rendition [getOptimalQuality] selects. *)
Definition selected_bitrate (videoId : string) (userBandwidth : Z)
    (s : Store) : option Z :=
  match fst (Streaming.getOptimalQuality videoId userBandwidth s) with
  | inr q => v_bitrate <$> Db.find_variant videoId q (video_variants s)
  | inl _ => None
  end.

(** The directory the local strategy writes the renditions of a video to. *)
Definition output_dir (cfg : Config) (w : World) (videoId : string) : string :=
  path_join w [storage_localPath cfg; "processed"; videoId].

(** What the encoder answers for one rung of a run of the local strategy. *)
Definition rung_outcome (cfg : Config) (w : World)
    (videoId inputPath : string) (q : VideoQuality) : string + Z :=
  encode w inputPath
    (path_join w [output_dir cfg w videoId; name q +:+ ".m3u8"]) q.

Definition rung_succeeds (cfg : Config) (w : World)
    (videoId inputPath : string) (q : VideoQuality) : bool :=
  match rung_outcome cfg w videoId inputPath q with
  | inr _ => true
  | inl _ => false
  end.

(** The local strategy is chosen: a cloud credential is missing. *)
Definition local_strategy (cfg : Config) : Prop :=
  defined_truthy (aws_accessKeyId cfg)
  && defined_truthy (aws_secretAccessKey cfg) = false.

(** The steps of a local run other than the rung encodes all succeed:
    probing the source, creating the directory, the thumbnail, writing
    the master playlist and, under S3 storage, publishing the directory. *)
Definition other_steps_succeed (cfg : Config) (w : World)
    (videoId inputPath : string) : Prop :=
  (∃ metadata, ffprobe w inputPath = inr metadata) ∧
  mkdir w (output_dir cfg w videoId) = None ∧
  screenshots w inputPath (output_dir cfg w videoId) = None ∧
  (∀ text,
     writeFile w (path_join w [output_dir cfg w videoId; "master.m3u8"]) text
     = None) ∧
  (storage_type cfg = s3 →
   uploadDirectoryToS3 w ("videos/" +:+ videoId) (output_dir cfg w videoId)
   = None).

(** A rendition row carries the label and the figures of a rung. *)
Definition row_of_rung (videoId : string) (r : VariantRow)
    (q : VideoQuality) : Prop :=
  video_id r = videoId ∧ quality r = name q ∧ v_bitrate r = bitrate q ∧
  resolution_width r = width q ∧ resolution_height r = height q.

(** The manifest key of a video holds nothing usable, or a master
    manifest rendered from renditions in descending bitrate order. *)
Definition manifest_cache_sound (videoId : string) (s : Store) : Prop :=
  ∀ text,
    if_truthy (Redis.get (Streaming.manifest_key videoId) s) = Some text →
    renditions videoId s ≠ [] ∧
    ∃ variants,
      Sorted Db.bitrate_desc variants ∧
      text = fold_left Streaming.add_variant variants Streaming.manifest_header.

(** The playlist key of a rendition holds nothing usable, or the text an
    earlier [generateQualityPlaylist] of that rendition stored. *)
Definition playlist_cache_sound (videoId q : string) (s : Store) : Prop :=
  ∀ text,
    if_truthy (Redis.get (Streaming.playlist_key videoId q) s) = Some text →
    text = Streaming.playlist_text q.

(** ** Bookkeeping of a run of the local strategy *)

(** The row [transcodeToQuality] inserts for a rung whose encode ended
    with a playlist of [fileSize] bytes. *)
Definition new_row (cfg : Config) (w : World) (videoId : string)
    (q : VideoQuality) (fileSize : Z) : VariantRow :=
  mkVariant videoId (name q) (bitrate q) (width q) (height q)
    (path_join w [output_dir cfg w videoId; name q +:+ ".m3u8"])
    (Some fileSize)
    (Some ("/uploads/processed/" +:+ videoId +:+ "/" +:+ name q +:+ ".m3u8")).

(** One row per rung of [todo] whose encode succeeds, in the order of
    the rungs. *)
Definition added_rows (cfg : Config) (w : World)
    (videoId inputPath : string) (todo : list VideoQuality)
    : list VariantRow :=
  omap (fun q =>
    match rung_outcome cfg w videoId inputPath q with
    | inr fileSize => Some (new_row cfg w videoId q fileSize)
    | inl _ => None
    end) todo.

(** The rung loop, run from any store that has the video and the rows
    of [s], returns [added] and appends it to the table. *)
Definition loop_adds (cfg : Config) (w : World)
    (videoId inputPath : string) (s : Store) (added : list VariantRow)
    : Prop :=
  ∀ s4,
    is_Some (videos s4 !! videoId) →
    video_variants s4 = video_variants s →
    Processing.transcodeToMultipleQualities cfg w inputPath
      (output_dir cfg w videoId) videoId s4 =
    (inr added, with_variants (fun rows => (rows ++ added)%list) s4).

(** Two rows that differ at most in file, size and playlist URL. *)
Definition same_rendition (r r' : VariantRow) : Prop :=
  video_id r' = video_id r ∧ quality r' = quality r ∧
  v_bitrate r' = v_bitrate r ∧
  resolution_width r' = resolution_width r ∧
  resolution_height r' = resolution_height r.

(** ** Bookkeeping of the polling of a cloud job *)

(** The row [updateVideoVariantsFromAWS] inserts for one output of the
    job, if it inserts one. *)
Definition planned_row (cfg : Config) (videoId : string)
    (output : OutputDetail) : option VariantRow :=
  match OutputFilePaths output with
  | Some (outputPath :: _) =>
      match Processing.extractQualityFromPath cfg outputPath with
      | Some q =>
          Some (mkVariant videoId (name q) (bitrate q) (width q) (height q)
                  outputPath None
                  (Some (MediaConvert.getCloudFrontUrl cfg
                     ("videos/" +:+ videoId +:+ "/outputs/" +:+ name q
                      +:+ ".m3u8"))))
      | None => None
      end
  | _ => None
  end.

(** All the rows a finished job asks for, in the order of its outputs. *)
Definition planned_rows (cfg : Config) (videoId : string)
    (job : MediaConvertJob) : list VariantRow :=
  match outputGroupDetails job with
  | Some groups =>
      flat_map (fun outputGroup =>
        match OutputDetails outputGroup with
        | Some outputs => omap (planned_row cfg videoId) outputs
        | None => []
        end) groups
  | None => []
  end.

(** The job of the video has been seen finished: its rows are in the
    table and the video is [ready]. *)
Definition settled (cfg : Config) (w : World) (videoId : string)
    (job : MediaConvertJob) (s : Store) : Prop :=
  ∃ v j,
    videos s !! videoId = Some v ∧ processing_job_id v = Some j ∧
    truthy j = true ∧ status v = ready ∧
    get_job w j = Some job ∧ job_status job = COMPLETE ∧
    Forall (fun r => r ∈ video_variants s) (planned_rows cfg videoId job).

(** The store after [n] further calls of [checkAWSJobStatus]. *)
Definition poll_again (cfg : Config) (w : World) (videoId : string)
    (n : nat) (s : Store) : Store :=
  Nat.iter n (fun s => snd (Processing.checkAWSJobStatus cfg w videoId s)) s.

(** ** What a call may do to the manifest cache *)

(** From [s] to [s'] no manifest key has changed and no video has lost
    all its renditions. *)
Definition grows (s s' : Store) : Prop :=
  (∀ videoId,
     Redis.get (Streaming.manifest_key videoId) s' =
     Redis.get (Streaming.manifest_key videoId) s) ∧
  (∀ videoId, renditions videoId s ≠ [] → renditions videoId s' ≠ []).

(** Whatever the store and the outcome, [m] changes it within [grows]. *)
Definition steady {A} (m : M A) : Prop := ∀ s, grows s (snd (m s)).

(** The calls of the three services. *)
Inductive Call : Type :=
  | ProcessVideo (cfg : Config) (w : World) (videoId inputPath : string)
  | CheckAWSJobStatus (cfg : Config) (w : World) (videoId : string)
  | GenerateHLSManifest (videoId : string)
  | GenerateQualityPlaylist (videoId q : string)
  | GetOptimalQuality (videoId : string) (userBandwidth : Z).

(** The store a call leaves behind, whether it returns or rejects. *)
Definition after (c : Call) (s : Store) : Store :=
  match c with
  | ProcessVideo cfg w videoId inputPath =>
      snd (Processing.processVideo cfg w videoId inputPath s)
  | CheckAWSJobStatus cfg w videoId =>
      snd (Processing.checkAWSJobStatus cfg w videoId s)
  | GenerateHLSManifest videoId =>
      snd (Streaming.generateHLSManifest videoId s)
  | GenerateQualityPlaylist videoId q =>
      snd (Streaming.generateQualityPlaylist videoId q s)
  | GetOptimalQuality videoId userBandwidth =>
      snd (Streaming.getOptimalQuality videoId userBandwidth s)
  end.

(** The store after a sequence of calls. *)
Fixpoint after_all (calls : list Call) (s : Store) : Store :=
  match calls with
  | [] => s
  | c :: rest => after_all rest (after c s)
  end.


(** ** [streaming.controller.ts], the manifest route *)

Module Controller.

Inductive Response : Type :=
  | Send (contentType body : string)
  | Json (code : Z) (error : string).

(** [getHLSManifest]: every rejection of the service is answered 404. *)
Definition getHLSManifest (videoId : string) (s : Store)
    : Response * Store :=
  match Streaming.generateHLSManifest videoId s with
  | (inr manifest, s') => (Send "application/vnd.apple.mpegurl" manifest, s')
  | (inl error, s') => (Json 404 error, s')
  end.

End Controller.

(** ** Concrete stores, configurations and worlds *)

Module Scenario.

(** A [path.join] that suffices for clean relative segments. *)
Definition join (segments : list string) : string :=
  String.concat "/" segments.

Definition cfg_local : Config :=
  mkConfig None None "us-east-1" None None
    local "uploads" None "us-east-1" None default_qualities.

Definition cfg_cloud : Config :=
  mkConfig (Some "AKIAEXAMPLE") (Some "secret") "us-east-1"
    (Some "media") None
    local "uploads" None "us-east-1" None default_qualities.

(** A world in which everything but the encoder succeeds; the encoder
    answers [enc], and the job service [job]. *)
Definition world (enc : VideoQuality → string + Z)
    (job : option MediaConvertJob) : World :=
  mkWorld join (fun _ => "source.mp4") (fun _ => inr 60)
    (fun _ => None) (fun _ _ => None) (fun _ _ q => enc q)
    (fun _ _ => None) (fun _ _ => None) (fun _ _ => put_ok)
    (fun _ _ _ _ => Some "job-1") (fun _ => job).

Definition every_rung_fails : World :=
  world (fun _ => inl "ffmpeg exited with code 1") None.

Definition every_rung_succeeds : World :=
  world (fun _ => inr 4096) None.

Definition only_480p_succeeds : World :=
  world (fun q => if bool_decide (name q = "480p") then inr 4096
                  else inl "ffmpeg exited with code 1") None.

Definition all_but_720p_succeed : World :=
  world (fun q => if bool_decide (name q = "720p")
                  then inl "ffmpeg exited with code 1" else inr 4096) None.

(** A freshly registered video, nothing cached. *)
Definition uploaded : Store :=
  mkStore {[ "v1" := mkVideo uploading None None None ]} [] ∅.

Definition row_480p : VariantRow :=
  mkVariant "v1" "480p" 1200 854 480 "uploads/processed/v1/480p.m3u8"
    (Some 4096) (Some "/uploads/processed/v1/480p.m3u8").

Definition row_1080p : VariantRow :=
  mkVariant "v1" "1080p" 5000 1920 1080 "uploads/processed/v1/1080p.m3u8"
    (Some 4096) (Some "/uploads/processed/v1/1080p.m3u8").

(** The renditions 1080p and 480p of the specification's scenario, the
    lower one persisted first. *)
Definition two_renditions : Store :=
  mkStore {[ "v1" := mkVideo ready None (Some 60) None ]}
    [row_480p; row_1080p] ∅.

(** A finished job with one output for 720p and one for 480p. *)
Definition finished_job : MediaConvertJob :=
  mkJob "job-1" COMPLETE 100 None
    (Some [ mkOutputGroup (Some
      [ mkOutput (Some ["s3://media/videos/v1/outputs/source_720p.m3u8"]);
        mkOutput (Some ["s3://media/videos/v1/outputs/source_480p.m3u8"]) ]) ]).

Definition job_finished : World :=
  world (fun _ => inr 4096) (Some finished_job).

(** The video once the cloud job has been submitted. *)
Definition submitted : Store :=
  snd (Processing.processVideo cfg_cloud job_finished "v1" "in.mp4" uploaded).

End Scenario.

(** * Further code *)

(** ** Relations that calls keep *)

(** Whatever the store and the outcome, [m] takes it to one related by
    [R]. *)
Definition keeps (R : relation Store) {A} (m : M A) : Prop :=
  ∀ s, R s (snd (m s)).

(** Every value [m] returns satisfies [Q]. *)
Definition returns {A} (m : M A) (Q : A → Prop) : Prop :=
  ∀ s a s', m s = (inr a, s') → Q a.

(** From [s] to [s'] nothing of another video than [videoId] has changed:
    not its row, not its renditions, and no Redis key outside the six
    [video:] keys of [videoId]. *)
Definition confined (videoId : string) (s s' : Store) : Prop :=
  (∀ other, other ≠ videoId →
     videos s' !! other = videos s !! other ∧
     renditions other s' = renditions other s) ∧
  (∀ key, key ∉ Cache.video_keys videoId →
     redis s' !! key = redis s !! key).


(** From [s] to [s'] no video has been added or removed, and the
    renditions of every video are those it had, each possibly with
    another file, size or playlist URL, followed by the new ones. *)
Definition appends (s s' : Store) : Prop :=
  (∀ videoId, is_Some (videos s' !! videoId) ↔ is_Some (videos s !! videoId)) ∧
  (∀ videoId, ∃ rest,
     Forall2 same_rendition (renditions videoId s ++ rest)%list
       (renditions videoId s')).

(** ** What the manifest key of a video holds *)

(** [variants] are, up to their order, renditions of the video: the ones
    persisted first, at least one and none of them left out, each agreeing
    with its row in the table in video, label, bitrate and resolution. *)
Definition lists_renditions_of (videoId : string) (s : Store)
    (variants : list VariantRow) : Prop :=
  ∃ listed rest,
    variants ≡ₚ listed ∧ listed ≠ [] ∧
    Forall2 same_rendition (listed ++ rest)%list (renditions videoId s).

(** The manifest key of a video holds nothing usable, or the manifest
    rendered from the renditions the video had at some earlier time, to
    which renditions have only been added since. *)
Definition manifest_cache_tracks (videoId : string) (s : Store) : Prop :=
  ∀ text,
    if_truthy (Redis.get (Streaming.manifest_key videoId) s) = Some text →
    ∃ listed rest,
      listed ≠ [] ∧
      Forall2 same_rendition (listed ++ rest)%list (renditions videoId s) ∧
      text = fold_left Streaming.add_variant
               (Db.order_by_bitrate_desc listed) Streaming.manifest_header.

(** ** What may happen to a store *)

(** A call of one of the services, or the expiry of an entry of the
    cache. *)
Inductive Event : Type :=
  | Called (c : Call)
  | Expired (key : string).

Definition happen (e : Event) (s : Store) : Store :=
  match e with
  | Called c => after c s
  | Expired key => with_redis (delete key) s
  end.

Fixpoint happen_all (events : list Event) (s : Store) : Store :=
  match events with
  | [] => s
  | e :: rest => happen_all rest (happen e s)
  end.

(** ** A catalogue of two videos *)

Module Catalogue.

Definition row_other : VariantRow :=
  mkVariant "v2" "720p" 2500 1280 720 "uploads/processed/v2/720p.m3u8"
    (Some 4096) (Some "/uploads/processed/v2/720p.m3u8").

(** ["v1"] has just been registered; ["v2"] is ready, has a rendition, a
    cached status and a cached manifest. *)
Definition two_videos : Store :=
  mkStore {[ "v1" := mkVideo uploading None None None;
             "v2" := mkVideo ready None (Some 30) None ]}
    [row_other]
    {[ Cache.processing_key "v2" :=
         mkEntry 300 (CStatus (mkStatusInfo "ready" 100 None None None));
       Streaming.manifest_key "v2" :=
         mkEntry 1800 (CText (Reference.master_manifest [row_other])) ]}.

(** The job of ["v1"] has been submitted. *)
Definition two_videos_submitted : Store :=
  snd (Processing.processVideo Scenario.cfg_cloud Scenario.job_finished
         "v1" "in.mp4" two_videos).

(** A job the job service reports as failed, and one still running. *)
Definition failed_job : MediaConvertJob :=
  mkJob "job-1" ERROR 40 (Some "Unsupported codec") None.

Definition job_failed : World :=
  Scenario.world (fun _ => inr 4096) (Some failed_job).

Definition progressing_job : MediaConvertJob :=
  mkJob "job-1" PROGRESSING 55 None None.

Definition job_progressing : World :=
  Scenario.world (fun _ => inr 4096) (Some progressing_job).

End Catalogue.

(** ** Polling a cloud job *)

(** The job [checkAWSJobStatus] asks the job service about: the job id of
    the video, when the video exists and the id is a non-empty text. *)
Definition job_of (videoId : string) (s : Store) : option string :=
  video ← videos s !! videoId;
  job ← processing_job_id video;
  if truthy job then Some job else None.

(** The status object a poll caches for the answer [job] to job id [j]. *)
Definition polled_status (j : string) (job : MediaConvertJob) : StatusInfo :=
  mkStatusInfo (JobStatus_text (job_status job)) (progress job) (Some j)
    (errorMessage job) None.

(** The rows can be inserted one after the other for [videoId]: they are
    for pairwise different labels, none of which the video has yet. *)
Definition insertable (videoId : string) (rows : list VariantRow)
    (s : Store) : Prop :=
  NoDup (map quality rows) ∧
  Forall (fun r =>
    Db.find_variant videoId (quality r) (video_variants s) = None) rows.

(** ** Labels of rungs in paths *)

(** [label] is one or more decimal digits followed by [p]. *)
Definition is_rung_label (label : string) : bool :=
  match rev (String.list_ascii_of_string label) with
  | c :: ds =>
      Ascii.eqb c (Ascii.ascii_of_nat 112) && bool_decide (ds ≠ [])
      && forallb Processing.is_digit ds
  | [] => false
  end.

Definition ends_with_digit (text : string) : bool :=
  match rev (String.list_ascii_of_string text) with
  | c :: _ => Processing.is_digit c
  | [] => false
  end.

(** ** [video.service.ts] *)

Module VideoService.

(** [getVideoVariants]: the same query as the streaming service's, the
    rows renamed field by field. *)
Definition getVideoVariants (videoId : string) : M (list VariantRow) :=
  gets (fun s =>
    Db.order_by_bitrate_desc (Db.variants_of videoId (video_variants s))).

Definition calculateProcessingProgress (st : VideoStatus)
    (variantCount : Z) : Z :=
  match st with
  | uploading => 10
  | processing => Z.min (10 + variantCount * 15) 90
  | ready => 100
  | failed => 0
  | deleted => 0
  end.

(** [VideoProcessingStatus] of [types/video.types.ts]. *)
Record VideoProcessingStatus : Type := mkProcessingStatus {
  ps_videoId : string;
  ps_status : VideoStatus;
  ps_progress : Z;
  ps_error : option string;
  ps_variants : list VariantRow
}.

Definition getVideoProcessingStatus (videoId : string)
    : M VideoProcessingStatus :=
  video ← gets (fun s => videos s !! videoId);
  match video with
  | None => throw "Video not found"
  | Some video =>
      variants ← getVideoVariants videoId;
      mret (mkProcessingStatus videoId (status video)
              (calculateProcessingProgress (status video)
                 (Z.of_nat (length variants)))
              (if decide (status video = failed)
               then Some "Processing failed" else None)
              variants)
  end.

(** One entry of [HLSManifest.variants]. *)
Record ManifestVariant : Type := mkManifestVariant {
  bandwidth : Z;
  resolution : string;
  playlistUrl : string
}.

Record HLSManifest : Type := mkHLSManifest {
  version : Z;
  variants : list ManifestVariant
}.

(** [variant.hlsPlaylistUrl || `/api/stream/${videoId}/${variant.quality}/playlist.m3u8`] *)
Definition playlist_url (videoId : string) (variant : VariantRow) : string :=
  match if_truthy (hls_playlist_url variant) with
  | Some url => url
  | None =>
      "/api/stream/" +:+ videoId +:+ "/" +:+ quality variant
      +:+ "/playlist.m3u8"
  end.

Definition generateHLSManifest (videoId : string) : M HLSManifest :=
  variants ← getVideoVariants videoId;
  if decide (length variants = 0%nat)
  then throw "No video variants found"
  else
    mret (mkHLSManifest 3
      (map (fun variant =>
         mkManifestVariant (v_bitrate variant * 1000)
           (num (resolution_width variant) +:+ "x"
            +:+ num (resolution_height variant))
           (playlist_url videoId variant)) variants)).

Section service.
Variables (cfg : Config) (w : World).

(** The column [visibility] of a video, which no service modelled here
    writes: whether it is ['private']. *)
Variable visibility_private : string → bool.

(** [getVideoById(videoId)] as the streaming controller calls it, without
    a user: [video.user_id !== undefined] then holds of every row. *)
Definition getVideoById (videoId : string) : M (option VideoRow) :=
  video ← gets (fun s => videos s !! videoId);
  match video with
  | None => mret None
  | Some video =>
      if visibility_private videoId then throw "Video is private"
      else
        _ ← getVideoVariants videoId;
        mret (Some video)
  end.

(** [uploadVideoFile]: the update also sets [original_filename] and
    [file_size], columns no service modelled here reads. *)
Definition uploadVideoFile (videoId filePath : string) : M unit :=
  Db.update_video videoId (fun v =>
    mkVideo processing (processing_job_id v) (duration v)
      (thumbnail_url v));;
  Processing.processVideo cfg w videoId filePath.

End service.
End VideoService.

(** ** [streaming.controller.ts], the controller of [video.routes.ts] *)

Module StreamingController.

Inductive Response : Type :=
  | Send (contentType body : string)
  | Redirect (url : string)
  | Json (code : Z) (error : string).

(** One turn of the [forEach] of [generateM3U8Content]: two [+=]. *)
Definition add_entry (content : string)
    (variant : VideoService.ManifestVariant) : string :=
  let content :=
    content +:+
      ("#EXT-X-STREAM-INF:BANDWIDTH=" +:+ num (VideoService.bandwidth variant)
       +:+ ",RESOLUTION=" +:+ VideoService.resolution variant +:+ nl) in
  content +:+ (VideoService.playlistUrl variant +:+ nl +:+ nl).

Definition generateM3U8Content (manifest : VideoService.HLSManifest)
    : string :=
  let content := "#EXTM3U" +:+ nl in
  let content := content +:+ ("#EXT-X-VERSION:3" +:+ nl +:+ nl) in
  fold_left add_entry (VideoService.variants manifest) content.

(** [variant.hlsPlaylistUrl && variant.hlsPlaylistUrl.startsWith('http')],
    with the URL when it holds. *)
Definition direct_url (variant : VariantRow) : option string :=
  match if_truthy (hls_playlist_url variant) with
  | Some url => if String.prefix "http" url then Some url else None
  | None => None
  end.

(** The [catch] of the handlers: status 400 with the message. *)
Definition respond (handler : M Response) (s : Store) : Response * Store :=
  match handler s with
  | (inr response, s') => (response, s')
  | (inl error, s') => (Json 400 error, s')
  end.

Section handlers.
Variable visibility_private : string → bool.

(** The message of the [TypeError] the engine raises when a property of
    [undefined] is read. *)
Variable type_error : string.

(** [this.generateM3U8Content(manifest)].  The body of a class is strict
    code: [this] is the controller when the handler is called as its
    method ([this] is [true]) and [undefined] when the function is called
    on its own. *)
Definition this_generateM3U8Content (this : bool)
    (manifest : VideoService.HLSManifest) : M string :=
  if this then mret (generateM3U8Content manifest) else throw type_error.

Definition getHLSManifest (this : bool) (videoId : string) (s : Store)
    : Response * Store :=
  respond
    (video ← VideoService.getVideoById visibility_private videoId;
     match video with
     | None => mret (Json 404 "Video not found")
     | Some video =>
         if decide (status video = ready) then
           manifest ← VideoService.generateHLSManifest videoId;
           m3u8Content ← this_generateM3U8Content this manifest;
           mret (Send "application/vnd.apple.mpegurl" m3u8Content)
         else mret (Json 400 "Video is not ready for streaming")
     end) s.

(** [router.get('/:videoId/manifest.m3u8', validateParams(...),
    streamingController.getHLSManifest)] of [video.routes.ts]: the router
    is handed the function without its controller, and calls it so. *)
Definition manifest_route (videoId : string) (s : Store)
    : Response * Store :=
  getHLSManifest false videoId s.

(** The file system as [getHLSPlaylist] sees it: [process.cwd()],
    [path.join], [fs.existsSync] and [fs.readFileSync(path, 'utf8')],
    which may throw. *)
Variables (cwd : string) (join : list string → string)
  (existsSync : string → bool) (readFileSync : string → string + string).

Definition getHLSPlaylist (videoId q : string) (s : Store)
    : Response * Store :=
  respond
    (variants ← VideoService.getVideoVariants videoId;
     match List.find (fun v => bool_decide (quality v = q)) variants with
     | None => mret (Json 404 "Quality variant not found")
     | Some variant =>
         match direct_url variant with
         | Some url => mret (Redirect url)
         | None =>
             let playlistPath :=
               join [cwd; "uploads"; "processed"; videoId; q +:+ ".m3u8"] in
             if existsSync playlistPath then
               match readFileSync playlistPath with
               | inl error => throw error
               | inr playlistContent =>
                   mret (Send "application/vnd.apple.mpegurl"
                           playlistContent)
               end
             else mret (Json 404 "Playlist file not found")
         end
     end) s.

End handlers.
End StreamingController.

(** ** [calculateJobProgress] of [aws-mediaconvert.service.ts] *)

Module JobProgress.

(** An output of a job as the service answers it. *)
Record RawOutput : Type := mkRawOutput {
  raw_OutputFilePaths : option (list string);
  ProgressInSeconds : option Z
}.

Record RawOutputGroup : Type := mkRawOutputGroup {
  raw_OutputDetails : option (list RawOutput)
}.

(** What one output adds to [totalProgress]. *)
Definition output_progress (output : RawOutput) : Z :=
  match raw_OutputFilePaths output with
  | Some (_ :: _) => 100
  | _ => default 0 (ProgressInSeconds output)
  end.

(** The two nested [forEach]: [(totalProgress, outputCount)]. *)
Definition tally (groups : list RawOutputGroup) : Z * Z :=
  fold_left (fun acc outputGroup =>
    match raw_OutputDetails outputGroup with
    | Some outputs =>
        fold_left (fun acc output =>
          (fst acc + output_progress output, snd acc + 1)) outputs acc
    | None => acc
    end) groups (0, 0).

(** [Math.round(x)] of the quotient of two integers, the divisor
    positive: the nearest integer, halves upwards. *)
Definition round_div (total count : Z) : Z :=
  (2 * total + count) / (2 * count).

Definition calculateJobProgress (OutputGroupDetails : option (list RawOutputGroup))
    : Z :=
  match OutputGroupDetails with
  | None => 0
  | Some groups =>
      let '(totalProgress, outputCount) := tally groups in
      if (0 <? outputCount)%Z then round_div totalProgress outputCount else 0
  end.

(** All the outputs of a job. *)
Definition outputs_of (groups : list RawOutputGroup) : list RawOutput :=
  flat_map (fun outputGroup => default [] (raw_OutputDetails outputGroup))
    groups.

End JobProgress.

(** ** Further worlds and stores *)

Module Studio.

(** A world in which the source cannot be probed. *)
Definition probe_fails : World :=
  mkWorld Scenario.join (fun _ => "source.mp4")
    (fun _ => inl "ffprobe exited with code 1")
    (fun _ => None) (fun _ _ => None) (fun _ _ _ => inr 4096)
    (fun _ _ => None) (fun _ _ => None) (fun _ _ => put_ok)
    (fun _ _ _ _ => Some "job-1") (fun _ => None).

(** ["v1"] after a local run in which every rung succeeded. *)
Definition processed : Store :=
  snd (Processing.processVideo Scenario.cfg_local
         Scenario.every_rung_succeeds "v1" "in.mp4" Scenario.uploaded).

(** ["v1"] after its cloud job has been seen finished. *)
Definition polled : Store :=
  snd (Processing.checkAWSJobStatus Scenario.cfg_cloud Scenario.job_finished
         "v1" Scenario.submitted).

(** No video is private, and no file is on disk. *)
Definition nobody_private (videoId : string) : bool := false.
Definition no_file (path : string) : bool := false.
Definition unreadable (path : string) : string + string :=
  inl "ENOENT: no such file or directory".

End Studio.

(** ** Entries of the manifest object of the video service *)

(** The entry describes the rendition: its bandwidth, its resolution as
    [WIDTHxHEIGHT] and the URL of its playlist. *)
Definition describes (videoId : string)
    (entry : VideoService.ManifestVariant) (v : VariantRow) : Prop :=
  VideoService.bandwidth entry = Reference.bandwidth v ∧
  VideoService.resolution entry =
    num (resolution_width v) +:+ "x" +:+ num (resolution_height v) ∧
  VideoService.playlistUrl entry = VideoService.playlist_url videoId v.

(** * Results *)

(** ** The monad *)

Lemma bind_inr {A B} (m : M A) (k : A → M B) s a s' :
  m s = (inr a, s') → (m ≫= k) s = k a s'.
Proof. intros H. unfold mbind, M_bind, bind. by rewrite H. Qed.

Lemma bind_inl {A B} (m : M A) (k : A → M B) s e s' :
  m s = (inl e, s') → (m ≫= k) s = (inl e, s').
Proof. intros H. unfold mbind, M_bind, bind. by rewrite H. Qed.

(** ** Texts *)

Lemma append_assoc (a b c : string) : (a +:+ b) +:+ c = a +:+ (b +:+ c).
Proof.
  induction a as [|x a IH]; [done|].
  change (String x ((a +:+ b) +:+ c) = String x (a +:+ (b +:+ c))).
  by rewrite IH.
Qed.

Lemma append_nil_r (a : string) : a +:+ EmptyString = a.
Proof.
  induction a as [|x a IH]; [done|].
  change (String x (a +:+ EmptyString) = String x a). by rewrite IH.
Qed.

Lemma if_truthy_some x text : if_truthy x = Some text → x = Some text.
Proof.
  destruct x as [t|]; [|done]. unfold if_truthy.
  destruct (truthy t); congruence.
Qed.

(** ** The comparison against 80% of the bandwidth *)

Lemma fits_iff (variantBitrate userBandwidth : Z) :
  Streaming.fits variantBitrate userBandwidth = true ↔
  5 * variantBitrate <= 4 * userBandwidth.
Proof.
  unfold Streaming.fits, Streaming.targetBitrate, Qle_bool. cbn.
  rewrite Z.leb_le. lia.
Qed.

(** ** [getVideoVariants] *)

Lemma getVideoVariants_run videoId s :
  Streaming.getVideoVariants videoId s =
  (inr (Db.order_by_bitrate_desc (renditions videoId s)), s).
Proof. reflexivity. Qed.

Lemma order_by_bitrate_desc_sorted rows :
  Sorted Db.bitrate_desc (Db.order_by_bitrate_desc rows).
Proof. apply (Sorted_merge_sort Db.bitrate_desc). Qed.

Lemma order_by_bitrate_desc_perm rows :
  Db.order_by_bitrate_desc rows ≡ₚ rows.
Proof. apply merge_sort_Permutation. Qed.

Lemma order_by_bitrate_desc_nil rows :
  Db.order_by_bitrate_desc rows = [] ↔ rows = [].
Proof.
  split; intros H.
  - apply Permutation_nil_r. rewrite <- H.
    symmetry. apply order_by_bitrate_desc_perm.
  - by subst.
Qed.

(** ** The master manifest *)

(** The accumulating loop of the source renders the reference text. *)
Lemma add_variant_fold variants acc :
  fold_left Streaming.add_variant variants acc =
  acc +:+ Reference.concat_all (map (fun v =>
    Reference.stream_inf_line v +:+ nl +:+ Reference.playlist_ref v
    +:+ nl +:+ nl) variants).
Proof.
  revert acc. induction variants as [|v variants IH]; intros acc.
  - cbn. by rewrite append_nil_r.
  - cbn [fold_left map Reference.concat_all foldr]. rewrite IH.
    unfold Streaming.add_variant, Reference.stream_inf_line,
      Reference.playlist_ref, Reference.bandwidth.
    by rewrite !append_assoc.
Qed.

Lemma manifest_renders_reference variants :
  fold_left Streaming.add_variant variants Streaming.manifest_header =
  Reference.master_manifest variants.
Proof.
  rewrite add_variant_fold. unfold Streaming.manifest_header,
    Reference.master_manifest. by rewrite !append_assoc.
Qed.

Lemma bitrate_desc_bandwidth_desc variants :
  Sorted Db.bitrate_desc variants → Sorted Reference.bandwidth_desc variants.
Proof.
  induction 1 as [|v variants _ IH Hhd]; constructor; [done|].
  destruct Hhd as [|u variants Hu]; constructor.
  unfold Reference.bandwidth_desc, Reference.bandwidth.
  unfold Db.bitrate_desc in Hu. lia.
Qed.

Lemma generateHLSManifest_hit videoId s text :
  if_truthy (Redis.get (Streaming.manifest_key videoId) s) = Some text →
  Streaming.generateHLSManifest videoId s = (inr text, s).
Proof.
  intros H. unfold Streaming.generateHLSManifest.
  rewrite (bind_inr _ _ s (Redis.get (Streaming.manifest_key videoId) s) s);
    [|done].
  by rewrite H.
Qed.

Lemma generateHLSManifest_empty videoId s :
  if_truthy (Redis.get (Streaming.manifest_key videoId) s) = None →
  renditions videoId s = [] →
  Streaming.generateHLSManifest videoId s = (inl "No video variants found", s).
Proof.
  intros Hmiss Hnone. unfold Streaming.generateHLSManifest.
  rewrite (bind_inr _ _ s (Redis.get (Streaming.manifest_key videoId) s) s);
    [|done].
  rewrite Hmiss.
  rewrite (bind_inr _ _ s _ s (getVideoVariants_run videoId s)).
  rewrite Hnone. reflexivity.
Qed.

Lemma generateHLSManifest_miss videoId s :
  if_truthy (Redis.get (Streaming.manifest_key videoId) s) = None →
  renditions videoId s ≠ [] →
  let manifest :=
    fold_left Streaming.add_variant
      (Db.order_by_bitrate_desc (renditions videoId s))
      Streaming.manifest_header in
  Streaming.generateHLSManifest videoId s =
  (inr manifest,
   with_redis (insert (Streaming.manifest_key videoId)
                 (mkEntry 1800 (CText manifest))) s).
Proof.
  intros Hmiss Hsome manifest. unfold Streaming.generateHLSManifest.
  rewrite (bind_inr _ _ s (Redis.get (Streaming.manifest_key videoId) s) s);
    [|done].
  rewrite Hmiss.
  rewrite (bind_inr _ _ s _ s (getVideoVariants_run videoId s)).
  destruct (decide _) as [Hlen|_]; [|reflexivity].
  apply length_zero_iff_nil in Hlen.
  apply (proj1 (order_by_bitrate_desc_nil _)) in Hlen. by destruct Hsome.
Qed.

(** A miss leaves the key holding a manifest of the kind
    [manifest_cache_sound] asks for. *)
Lemma generateHLSManifest_keeps_cache_sound videoId s :
  manifest_cache_sound videoId s →
  manifest_cache_sound videoId
    (snd (Streaming.generateHLSManifest videoId s)).
Proof.
  intros Hsound.
  destruct (if_truthy (Redis.get (Streaming.manifest_key videoId) s))
    as [text|] eqn:Hget.
  { by rewrite (generateHLSManifest_hit _ _ _ Hget). }
  destruct (decide (renditions videoId s = [])) as [Hnone|Hsome].
  { by rewrite (generateHLSManifest_empty _ _ Hget Hnone). }
  rewrite (generateHLSManifest_miss _ _ Hget Hsome). cbn [snd].
  intros text Htext. apply if_truthy_some in Htext.
  unfold Redis.get in Htext. cbn in Htext.
  rewrite lookup_insert_eq in Htext. injection Htext as <-.
  split; [done|]. eexists. split; [|reflexivity].
  apply order_by_bitrate_desc_sorted.
Qed.

(** The stored rows, not their order of insertion, fix what a computed
    manifest lists. *)
Lemma renditions_perm videoId s s' :
  video_variants s ≡ₚ video_variants s' →
  Db.order_by_bitrate_desc (renditions videoId s) ≡ₚ
  Db.order_by_bitrate_desc (renditions videoId s').
Proof.
  intros Hperm. rewrite !order_by_bitrate_desc_perm.
  unfold renditions, Db.variants_of. by rewrite Hperm.
Qed.

(** When no two renditions of the video share a bitrate, two stores
    holding the same rows in different orders of insertion compute the
    same manifest text. *)
Lemma fresh_manifest_insertion_order videoId s s' :
  video_variants s ≡ₚ video_variants s' →
  (∀ r1 r2, r1 ∈ renditions videoId s → r2 ∈ renditions videoId s →
            v_bitrate r1 = v_bitrate r2 → r1 = r2) →
  fresh_manifest videoId s = fresh_manifest videoId s'.
Proof.
  intros Hperm Hdistinct.
  assert (Db.order_by_bitrate_desc (renditions videoId s) =
          Db.order_by_bitrate_desc (renditions videoId s')) as Horder.
  { apply (Sorted_unique_strong Db.bitrate_desc);
      [|apply order_by_bitrate_desc_sorted..|by apply renditions_perm].
    intros r1 r2 Hr1 Hr2 H12 H21.
    rewrite order_by_bitrate_desc_perm in Hr1.
    rewrite order_by_bitrate_desc_perm in Hr2.
    assert (renditions videoId s ≡ₚ renditions videoId s') as Hrows.
    { unfold renditions, Db.variants_of. by rewrite Hperm. }
    rewrite <- Hrows in Hr2. apply Hdistinct; [done..|].
    unfold Db.bitrate_desc in *. lia. }
  assert (∀ t, if_truthy (Redis.get (Streaming.manifest_key videoId) (cold t))
               = None) as Hmiss.
  { intros t. unfold Redis.get. cbn. by rewrite lookup_empty. }
  unfold fresh_manifest.
  destruct (decide (renditions videoId s = [])) as [Hnone|Hsome].
  - assert (renditions videoId s' = []) as Hnone'.
    { apply order_by_bitrate_desc_nil. rewrite <- Horder.
      by apply order_by_bitrate_desc_nil. }
    by rewrite !generateHLSManifest_empty.
  - assert (renditions videoId s' ≠ []) as Hsome'.
    { intros Hnone'. apply Hsome, order_by_bitrate_desc_nil.
      rewrite Horder. by apply order_by_bitrate_desc_nil. }
    rewrite !generateHLSManifest_miss; [|done..]. cbn [fst].
    change (renditions videoId (cold s)) with (renditions videoId s).
    change (renditions videoId (cold s')) with (renditions videoId s').
    by rewrite Horder.
Qed.

(** The scenario of the specification: 1080p is listed before 480p
    although its row was inserted last. *)
Example master_manifest_two_renditions :
  fst (Streaming.generateHLSManifest "v1" Scenario.two_renditions) =
  inr (Reference.master_manifest [Scenario.row_1080p; Scenario.row_480p]).
Proof. vm_compute. reflexivity. Qed.

(** ** No renditions *)

Lemma getOptimalQuality_run videoId userBandwidth s :
  Streaming.getOptimalQuality videoId userBandwidth s =
  (inr (Streaming.scan (Db.order_by_bitrate_desc (renditions videoId s))
          userBandwidth
          (Streaming.initial_quality
             (Db.order_by_bitrate_desc (renditions videoId s)))), s).
Proof. reflexivity. Qed.

(** C9. For a video with zero persisted renditions [generateHLSManifest]
    rejects with "No video variants found", which the manifest route
    answers with status 404, and stores nothing; [getOptimalQuality] on the
    same video returns the default label "360p" without rejecting. *)
Theorem no_renditions_not_found_and_default
    (videoId : string) (userBandwidth : Z) (s : Store) :
  renditions videoId s = [] →
  manifest_cache_sound videoId s →
  Streaming.generateHLSManifest videoId s =
    (inl "No video variants found", s) ∧
  Controller.getHLSManifest videoId s =
    (Controller.Json 404 "No video variants found", s) ∧
  Streaming.getOptimalQuality videoId userBandwidth s = (inr "360p", s).
Proof.
  intros Hnone Hsound.
  assert (if_truthy (Redis.get (Streaming.manifest_key videoId) s) = None)
    as Hmiss.
  { destruct (if_truthy _) as [text|] eqn:Hget; [|done].
    destruct (Hsound text Hget) as [Hrows _]. by destruct Hrows. }
  pose proof (generateHLSManifest_empty videoId s Hmiss Hnone) as Hthrow.
  split; [exact Hthrow|]. split.
  - unfold Controller.getHLSManifest. by rewrite Hthrow.
  - rewrite getOptimalQuality_run, Hnone. reflexivity.
Qed.

(** The hypotheses hold on the freshly registered video. *)
Lemma no_renditions_not_found_and_default_witness :
  renditions "v1" Scenario.uploaded = [] ∧
  manifest_cache_sound "v1" Scenario.uploaded ∧
  Streaming.generateHLSManifest "v1" Scenario.uploaded =
    (inl "No video variants found", Scenario.uploaded) ∧
  Controller.getHLSManifest "v1" Scenario.uploaded =
    (Controller.Json 404 "No video variants found", Scenario.uploaded) ∧
  Streaming.getOptimalQuality "v1" 1300 Scenario.uploaded =
    (inr "360p", Scenario.uploaded).
Proof.
  assert (renditions "v1" Scenario.uploaded = []) as Hrows.
  { reflexivity. }
  assert (manifest_cache_sound "v1" Scenario.uploaded) as Hcache.
  { intros text Htext. vm_compute in Htext. discriminate. }
  split; [exact Hrows|]. split; [exact Hcache|].
  exact (no_renditions_not_found_and_default "v1" 1300 Scenario.uploaded
           Hrows Hcache).
Defined.

(** ** The per-quality playlist *)

Lemma playlist_text_two_segments q :
  Streaming.playlist_text q = Reference.two_segment_playlist q.
Proof.
  unfold Streaming.playlist_text, Reference.two_segment_playlist.
  cbn [Reference.unlines]. by rewrite !append_assoc.
Qed.

(** C10. For every video and quality label with a Rendition row,
    [generateQualityPlaylist] returns the fixed text listing the two
    ten-second segments [<quality>_000.ts] and [<quality>_001.ts] and the
    end-list marker: the text depends on the label alone, whatever the
    row holds. *)
Theorem quality_playlist_constant
    (videoId q : string) (s : Store) (row : VariantRow) :
  Db.find_variant videoId q (video_variants s) = Some row →
  playlist_cache_sound videoId q s →
  fst (Streaming.generateQualityPlaylist videoId q s) =
  inr (Reference.two_segment_playlist q).
Proof.
  intros Hrow Hsound. unfold Streaming.generateQualityPlaylist.
  rewrite (bind_inr _ _ s
             (Redis.get (Streaming.playlist_key videoId q) s) s); [|done].
  destruct (if_truthy _) as [text|] eqn:Hget.
  - rewrite (Hsound text Hget). cbn [fst mret M_ret ret].
    by rewrite playlist_text_two_segments.
  - rewrite (bind_inr _ _ s
               (Db.find_variant videoId q (video_variants s)) s); [|done].
    rewrite Hrow. cbn. by rewrite playlist_text_two_segments.
Qed.

(** The hypotheses hold for the 480p rendition of the store of two
    renditions. *)
Lemma quality_playlist_constant_witness :
  Db.find_variant "v1" "480p" (video_variants Scenario.two_renditions) =
    Some Scenario.row_480p ∧
  playlist_cache_sound "v1" "480p" Scenario.two_renditions ∧
  fst (Streaming.generateQualityPlaylist "v1" "480p" Scenario.two_renditions)
    = inr (Reference.two_segment_playlist "480p").
Proof.
  assert (Db.find_variant "v1" "480p" (video_variants Scenario.two_renditions)
          = Some Scenario.row_480p) as Hrow.
  { reflexivity. }
  assert (playlist_cache_sound "v1" "480p" Scenario.two_renditions) as Hcache.
  { intros text Htext. vm_compute in Htext. discriminate. }
  split; [exact Hrow|]. split; [exact Hcache|].
  exact (quality_playlist_constant "v1" "480p" Scenario.two_renditions
           Scenario.row_480p Hrow Hcache).
Defined.

(** What a miss stores under the playlist key is the text itself, so
    [playlist_cache_sound] holds again afterwards. *)
Lemma generateQualityPlaylist_keeps_cache_sound videoId q s :
  playlist_cache_sound videoId q s →
  playlist_cache_sound videoId q
    (snd (Streaming.generateQualityPlaylist videoId q s)).
Proof.
  intros Hsound. unfold Streaming.generateQualityPlaylist.
  rewrite (bind_inr _ _ s
             (Redis.get (Streaming.playlist_key videoId q) s) s); [|done].
  destruct (if_truthy _) as [text|] eqn:Hget; [done|].
  rewrite (bind_inr _ _ s
             (Db.find_variant videoId q (video_variants s)) s); [|done].
  destruct (Db.find_variant _ _ _); [|done].
  intros text Htext. apply if_truthy_some in Htext.
  unfold Redis.get, mbind, M_bind, bind, Redis.setex, modify in Htext.
  cbn in Htext.
  rewrite lookup_insert_eq in Htext. by injection Htext as <-.
Qed.

(** ** The quality selector *)

(** Once a rendition fits, the loop runs on; it ends on the last one when
    all of them fit. *)
Lemma scan_all_fit variants userBandwidth init :
  Forall (fun v => Streaming.fits (v_bitrate v) userBandwidth = true)
    variants →
  Streaming.scan variants userBandwidth init =
  default init (quality <$> last variants).
Proof.
  revert init. induction variants as [|v variants IH]; intros init Hall.
  - reflexivity.
  - apply Forall_cons in Hall as [Hv Hall]. cbn [Streaming.scan].
    rewrite Hv, (IH _ Hall). rewrite last_cons.
    by destruct (last variants).
Qed.

(** What the loop computes on the descending list [getVideoVariants]
    hands it: the first rendition is the highest; if it does not fit the
    loop stops at once and the initial label (the highest rendition)
    stays, and if it fits then every rendition fits and the label of the
    last (the lowest) one is returned. *)
Lemma scan_descending v variants userBandwidth init :
  Sorted Db.bitrate_desc (v :: variants) →
  Streaming.scan (v :: variants) userBandwidth init =
  if Streaming.fits (v_bitrate v) userBandwidth
  then default init (quality <$> last (v :: variants))
  else init.
Proof.
  intros Hsorted. destruct (Streaming.fits (v_bitrate v) userBandwidth) eqn:Hv.
  - apply scan_all_fit. apply Sorted_StronglySorted in Hsorted; [|apply _].
    apply StronglySorted_inv in Hsorted as [_ Hbelow].
    constructor; [done|].
    eapply Forall_impl; [exact Hbelow|]. intros u Hu. cbn in Hu.
    apply fits_iff. apply fits_iff in Hv. unfold Db.bitrate_desc in Hu. lia.
  - cbn [Streaming.scan]. by rewrite Hv.
Qed.

(** C1. With the renditions 480p (1200 kbps) and 1080p (5000 kbps):
    at 10000 kbps the target is 8000, both renditions fit and the
    highest fitting one is 1080p, yet "480p" is returned; at 1300 kbps the
    target is 1040, no rendition fits and the lowest one is 480p, yet
    "1080p" is returned. *)
Theorem getOptimalQuality_picks_wrong_end :
  Streaming.fits 5000 10000 = true ∧
  fst (Streaming.getOptimalQuality "v1" 10000 Scenario.two_renditions)
    = inr "480p" ∧
  Streaming.fits 1200 1300 = false ∧
  fst (Streaming.getOptimalQuality "v1" 1300 Scenario.two_renditions)
    = inr "1080p".
Proof. vm_compute. auto. Qed.

(** C5. With the renditions 480p (1200 kbps) and 1080p (5000 kbps), the
    bandwidths 1300 <= 10000 select bitrates 5000 and 1200: the larger
    bandwidth gets the lower bitrate. *)
Theorem getOptimalQuality_not_monotone :
  1300 <= 10000 ∧
  selected_bitrate "v1" 1300 Scenario.two_renditions = Some 5000 ∧
  selected_bitrate "v1" 10000 Scenario.two_renditions = Some 1200 ∧
  ¬ (5000 <= 1200).
Proof. vm_compute. repeat split; congruence. Qed.

(** ** The orchestrator on concrete runs *)

(** C4. With cloud credentials configured, [processVideo] stores the job
    id on the video, but it returns with the status already [ready] and
    without a single rendition row: the status written after the strategy
    branch is shared by both strategies. *)
Theorem processVideo_cloud_ready_without_renditions :
  let run :=
    Processing.processVideo Scenario.cfg_cloud Scenario.job_finished
      "v1" "in.mp4" Scenario.uploaded in
  fst run = inr tt ∧
  (videos (snd run) !! "v1" ≫= processing_job_id) = Some "job-1" ∧
  status_of "v1" (snd run) = Some ready ∧
  status_of "v1" (snd run) ≠ Some processing ∧
  renditions "v1" (snd run) = [].
Proof. vm_compute. repeat split; congruence. Qed.

(** The same on every store and world: when the cloud strategy is
    chosen and its steps succeed, the call returns with the job id stored,
    the status [ready] and the table of renditions untouched. *)
Lemma processVideo_cloud_run cfg w videoId inputPath s metadata job :
  defined_truthy (aws_accessKeyId cfg)
  && defined_truthy (aws_secretAccessKey cfg) = true →
  is_Some (videos s !! videoId) →
  ffprobe w inputPath = inr metadata →
  put_object w inputPath
    ("videos/" +:+ videoId +:+ "/source/" +:+ path_basename w inputPath)
    = put_ok →
  create_job w videoId
    ("s3://" +:+ interp (aws_s3Bucket cfg) +:+ "/videos/" +:+ videoId
     +:+ "/source/" +:+ path_basename w inputPath)
    ("s3://" +:+ interp (aws_s3Bucket cfg) +:+ "/videos/" +:+ videoId
     +:+ "/outputs")
    (Processing.qualities cfg) = Some job →
  mkdir w (output_dir cfg w videoId) = None →
  screenshots w inputPath (output_dir cfg w videoId) = None →
  ∃ s',
    Processing.processVideo cfg w videoId inputPath s = (inr tt, s') ∧
    (videos s' !! videoId ≫= processing_job_id) = Some job ∧
    status_of videoId s' = Some ready ∧
    video_variants s' = video_variants s.
Proof.
  intros Hcloud [v Hv] Hprobe Hput Hcreate Hmkdir Hshot.
  unfold Processing.processVideo, try_catch.
  erewrite bind_inr; [|reflexivity].
  erewrite bind_inr; [|reflexivity].
  unfold Processing.getVideoMetadata. rewrite Hprobe.
  erewrite bind_inr; [|reflexivity].
  erewrite bind_inr; [|reflexivity].
  rewrite Hcloud.
  unfold Processing.processWithAWSMediaConvert, MediaConvert.uploadToS3,
    MediaConvert.createTranscodingJob, Processing.generateThumbnail.
  fold (output_dir cfg w videoId).
  rewrite Hput, Hmkdir, Hshot.
  erewrite bind_inr.
  2:{ erewrite bind_inr; [|reflexivity].
      assert (∀ a b c : string, "s3://" +:+ a +:+ "/" +:+ "videos/" +:+ b
                +:+ "/source/" +:+ c
              = "s3://" +:+ a +:+ "/videos/" +:+ b +:+ "/source/" +:+ c)
        as Huri.
      { intros a b c. do 2 f_equal. }
      rewrite Huri, Hcreate.
      erewrite bind_inr; [|reflexivity].
      erewrite bind_inr; [|reflexivity].
      erewrite bind_inr; [|reflexivity].
      erewrite bind_inr; [reflexivity|].
      erewrite bind_inr; [|reflexivity].
      erewrite bind_inr; reflexivity. }
  erewrite bind_inr; [|reflexivity].
  erewrite bind_inr; [|reflexivity].
  eexists. split; [reflexivity|].
  unfold status_of. cbn. rewrite !lookup_alter_eq, Hv. done.
Qed.

(** C7. A first local run persists only 480p; the master manifest is
    then requested and cached; a second run persists the other four
    rungs and ends [ready].  The bulk invalidation does not name the key
    of the manifest, which still holds the text listing 480p alone, and
    that text is what [generateHLSManifest] goes on returning, not the
    manifest computed from the five persisted rows. *)
Theorem processVideo_leaves_stale_manifest :
  let first :=
    snd (Processing.processVideo Scenario.cfg_local
           Scenario.only_480p_succeeds "v1" "in.mp4" Scenario.uploaded) in
  let cached := snd (Streaming.generateHLSManifest "v1" first) in
  let rerun :=
    Processing.processVideo Scenario.cfg_local
      Scenario.every_rung_succeeds "v1" "in.mp4" cached in
  let stale := Reference.master_manifest [Scenario.row_480p] in
  fst rerun = inr tt ∧
  status_of "v1" (snd rerun) = Some ready ∧
  length (renditions "v1" (snd rerun)) = 5%nat ∧
  Redis.get (Streaming.manifest_key "v1") (snd rerun) = Some stale ∧
  fst (Streaming.generateHLSManifest "v1" (snd rerun)) = inr stale ∧
  fresh_manifest "v1" (snd rerun) ≠ inr stale.
Proof. vm_compute. repeat split; congruence. Qed.

(** C2, the claim refuted on a run: every rung of the shipped table
    fails, the run returns normally and the persisted status is [ready],
    not [failed]. *)
Lemma processVideo_every_rung_fails_ready :
  let run :=
    Processing.processVideo Scenario.cfg_local Scenario.every_rung_fails
      "v1" "in.mp4" Scenario.uploaded in
  Forall (fun q =>
            rung_succeeds Scenario.cfg_local Scenario.every_rung_fails
              "v1" "in.mp4" q = false)
    (Processing.qualities Scenario.cfg_local) ∧
  fst run = inr tt ∧
  status_of "v1" (snd run) = Some ready ∧
  ¬ (status_of "v1" (snd run) = Some failed ∧ renditions "v1" (snd run) = []).
Proof.
  vm_compute. split; [repeat constructor|].
  repeat split. intros [? _]. congruence.
Qed.

(** ** The local strategy *)

Section local_run.
Variables (cfg : Config) (w : World) (videoId inputPath : string).

Lemma find_variant_None v q rows :
  Db.find_variant v q rows = None ↔
  Forall (fun r => ¬ (video_id r = v ∧ quality r = q)) rows.
Proof.
  unfold Db.find_variant. rewrite head_None.
  induction rows as [|r rows IH].
  - split; [constructor|done].
  - rewrite filter_cons. destruct (decide _) as [Hr|Hr].
    + split; [done|]. intros H. apply Forall_cons in H as [H _]. done.
    + rewrite IH. split; [by constructor|]. intros H.
      by apply Forall_cons in H as [_ H].
Qed.

Lemma transcodeToQuality_fails s q e :
  rung_outcome cfg w videoId inputPath q = inl e →
  Processing.transcodeToQuality w inputPath (output_dir cfg w videoId)
    videoId q s = (inl e, s).
Proof.
  unfold rung_outcome, Processing.transcodeToQuality. by intros ->.
Qed.

Lemma transcodeToQuality_persists s q fileSize :
  rung_outcome cfg w videoId inputPath q = inr fileSize →
  is_Some (videos s !! videoId) →
  Db.find_variant videoId (name q) (video_variants s) = None →
  Processing.transcodeToQuality w inputPath (output_dir cfg w videoId)
    videoId q s =
  (inr (new_row cfg w videoId q fileSize),
   with_variants (fun rows => (rows ++ [new_row cfg w videoId q fileSize])%list) s).
Proof.
  unfold rung_outcome, Processing.transcodeToQuality.
  intros -> [v Hv] Hfresh.
  erewrite bind_inr; [reflexivity|].
  unfold Db.insert_variant. cbn [video_id quality].
  by rewrite Hv, Hfresh.
Qed.


Lemma transcode_loop_every_rung_fails todo acc s :
  Forall (fun q => rung_succeeds cfg w videoId inputPath q = false) todo →
  Processing.transcode_loop w inputPath (output_dir cfg w videoId) videoId
    todo acc s = (inr acc, s).
Proof.
  induction 1 as [|q todo Hq _ IH]; [done|].
  cbn [Processing.transcode_loop].
  unfold rung_succeeds in Hq.
  destruct (rung_outcome cfg w videoId inputPath q) as [e|] eqn:Hout; [|done].
  erewrite bind_inr; [exact IH|].
  unfold try_catch. erewrite bind_inl; [reflexivity|].
  by apply transcodeToQuality_fails.
Qed.

Lemma added_rows_of_rungs todo :
  Forall2 (row_of_rung videoId) (added_rows cfg w videoId inputPath todo) 
    (filter (fun q => rung_succeeds cfg w videoId inputPath q = true) todo).
Proof.
  induction todo as [|q todo IH]; [constructor|].
  unfold added_rows. cbn [omap list_omap]. rewrite filter_cons.
  destruct (rung_outcome cfg w videoId inputPath q) as [e|size] eqn:Hout.
  - assert (rung_succeeds cfg w videoId inputPath q = false) as Hs.
    { unfold rung_succeeds. by rewrite Hout. }
    destruct (decide _); [congruence|exact IH].
  - assert (rung_succeeds cfg w videoId inputPath q = true) as Hs.
    { unfold rung_succeeds. by rewrite Hout. }
    destruct (decide _); [|done]. constructor; [done|exact IH].
Qed.

Lemma added_rows_every_rung_fails todo :
  Forall (fun q => rung_succeeds cfg w videoId inputPath q = false) todo →
  added_rows cfg w videoId inputPath todo = [].
Proof.
  induction 1 as [|q todo Hq _ IH]; [done|].
  unfold added_rows. cbn [omap list_omap]. unfold rung_succeeds in Hq.
  destruct (rung_outcome cfg w videoId inputPath q); [exact IH|done].
Qed.

Lemma with_variants_nil s :
  with_variants (fun rows => (rows ++ [])%list) s = s.
Proof. destruct s. unfold with_variants. cbn. by rewrite app_nil_r. Qed.

Lemma transcode_loop_fresh todo : ∀ acc s,
  is_Some (videos s !! videoId) →
  NoDup (map name todo) →
  Forall (fun q => Db.find_variant videoId (name q) (video_variants s) = None)
    todo →
  Processing.transcode_loop w inputPath (output_dir cfg w videoId) videoId
    todo acc s =
  (inr (acc ++ added_rows cfg w videoId inputPath todo)%list,
   with_variants (fun rows => (rows ++ added_rows cfg w videoId inputPath todo)%list) s).
Proof.
  induction todo as [|q todo IH]; intros acc s Hvideo Hnodup Hfresh.
  { cbn. by rewrite app_nil_r, with_variants_nil. }
  cbn [map] in Hnodup. apply NoDup_cons in Hnodup as [Hq Hnodup].
  apply Forall_cons in Hfresh as [Hfq Hfresh].
  cbn [Processing.transcode_loop]. unfold added_rows. cbn [omap list_omap].
  destruct (rung_outcome cfg w videoId inputPath q) as [e|size] eqn:Hout.
  - erewrite bind_inr; [by apply IH|].
    unfold try_catch. erewrite bind_inl; [reflexivity|].
    by apply transcodeToQuality_fails.
  - set (s1 := with_variants (fun rows => (rows ++ [new_row cfg w videoId q size])%list) s).
    erewrite bind_inr; [rewrite (IH (acc ++ [new_row cfg w videoId q size])%list s1)|].
    + f_equal; [by rewrite <- app_assoc|].
      unfold s1, with_variants. cbn. by rewrite <- app_assoc.
    + done.
    + done.
    + apply Forall_forall. intros q' Hq'.
      apply find_variant_None. cbn.
      apply Forall_app. split.
      * apply find_variant_None. by eapply Forall_forall in Hfresh.
      * constructor; [|constructor]. cbn. intros [_ Heq].
        apply Hq. rewrite Heq. apply list_elem_of_fmap. by exists q'.
    + unfold try_catch. erewrite bind_inr; [reflexivity|].
      by apply transcodeToQuality_persists.
Qed.


Lemma same_rendition_refl rows : Forall2 same_rendition rows rows.
Proof. by apply Forall_Forall2_diag, Forall_forall. Qed.

Lemma same_rendition_trans rows1 rows2 rows3 :
  Forall2 same_rendition rows1 rows2 → Forall2 same_rendition rows2 rows3 →
  Forall2 same_rendition rows1 rows3.
Proof.
  intros H12 H23. eapply Forall2_trans; [|exact H12|exact H23].
  unfold same_rendition.
  intros r1 r2 r3 (?&?&?&?&?) (?&?&?&?&?). repeat split; congruence.
Qed.

Lemma update_variant_url_same v q url rows :
  Forall2 same_rendition rows
    (map (fun r =>
       if decide (video_id r = v ∧ quality r = q)
       then mkVariant (video_id r) (quality r) (v_bitrate r)
              (resolution_width r) (resolution_height r) (file_path r)
              (file_size r) (Some url)
       else r) rows).
Proof.
  induction rows as [|r rows IH]; cbn [map]; constructor; [|exact IH].
  by destruct (decide _).
Qed.

Lemma publish_urls (url : VariantRow → string) variants : ∀ s,
  ∃ s',
    for_each variants (fun variant =>
      Db.update_variant_url (video_id variant) (quality variant)
        (url variant)) s = (inr tt, s') ∧
    videos s' = videos s ∧
    Forall2 same_rendition (video_variants s) (video_variants s').
Proof.
  induction variants as [|variant variants IH]; intros s.
  { exists s. split; [done|]. split; [done|]. apply same_rendition_refl. }
  cbn [for_each].
  set (s1 := with_variants (map (fun r =>
       if decide (video_id r = video_id variant ∧ quality r = quality variant)
       then mkVariant (video_id r) (quality r) (v_bitrate r)
              (resolution_width r) (resolution_height r) (file_path r)
              (file_size r) (Some (url variant))
       else r)) s).
  destruct (IH s1) as (s' & Hrun & Hvideos & Hrows).
  exists s'. split; [|split].
  - erewrite bind_inr; [exact Hrun|reflexivity].
  - by rewrite Hvideos.
  - eapply same_rendition_trans; [|exact Hrows].
    apply update_variant_url_same.
Qed.

Lemma same_rendition_variants_of v rows rows' :
  Forall2 same_rendition rows rows' →
  Forall2 same_rendition (Db.variants_of v rows) (Db.variants_of v rows').
Proof.
  unfold Db.variants_of.
  induction 1 as [|r r' rows rows' Hr _ IH]; [constructor|].
  rewrite !filter_cons. destruct Hr as (Hv & Hrest).
  destruct (decide (video_id r = v)), (decide (video_id r' = v));
    try congruence.
  constructor; [done|exact IH].
Qed.

Lemma row_of_rung_same rows rows' rungs :
  Forall2 same_rendition rows rows' →
  Forall2 (row_of_rung videoId) rows rungs →
  Forall2 (row_of_rung videoId) rows' rungs.
Proof.
  intros Hsame. revert rungs.
  induction Hsame as [|r r' rows rows' Hr _ IH]; intros rungs Hrungs.
  - by inversion Hrungs.
  - inversion Hrungs as [|? q ? rungs' Hq Hrest]; subst.
    constructor; [|by apply IH].
    destruct Hr as (?&?&?&?&?), Hq as (?&?&?&?&?).
    unfold row_of_rung. repeat split; congruence.
Qed.


Lemma variants_of_rows_of_rungs rows rungs :
  Forall2 (row_of_rung videoId) rows rungs →
  Db.variants_of videoId rows = rows.
Proof.
  unfold Db.variants_of.
  induction 1 as [|r q rows rungs Hr _ IH]; [done|].
  rewrite filter_cons, IH. destruct Hr as [Hv _].
  by destruct (decide _).
Qed.

Lemma processWithFFmpeg_run s added :
  is_Some (videos s !! videoId) →
  other_steps_succeed cfg w videoId inputPath →
  loop_adds cfg w videoId inputPath s added →
  ∃ s',
    Processing.processWithFFmpeg cfg w videoId inputPath s = (inr tt, s') ∧
    is_Some (videos s' !! videoId) ∧
    Forall2 same_rendition (video_variants s ++ added)%list
      (video_variants s') ∧
    (added = [] → video_variants s' = video_variants s).
Proof.
  intros Hvideo (_ & Hmkdir & Hshot & Hwrite & Hupload) Hloop.
  unfold Processing.processWithFFmpeg. fold (output_dir cfg w videoId).
  rewrite Hmkdir.
  erewrite bind_inr; [|reflexivity].
  unfold Processing.generateThumbnail. rewrite Hshot.
  erewrite bind_inr; [|erewrite bind_inr; [|reflexivity];
                       erewrite bind_inr; reflexivity].
  erewrite bind_inr; [|apply Hloop].
  2:{ cbn. rewrite lookup_alter_eq. by apply fmap_is_Some. }
  2:{ reflexivity. }
  unfold Processing.generateHLSPlaylists. rewrite Hwrite.
  erewrite bind_inr; [|erewrite bind_inr; reflexivity].
  destruct (decide (storage_type cfg = s3)) as [Hs3|_].
  - rewrite (Hupload Hs3). erewrite bind_inr; [|reflexivity].
    match goal with
    | |- context [for_each added ?body ?s0] =>
        destruct (publish_urls
          (fun variant => Storage.getS3PublicUrl cfg
             (interp (storage_s3Bucket cfg))
             ("videos/" +:+ videoId +:+ "/" +:+ quality variant +:+ ".m3u8"))
          added s0) as (s' & Hrun & Hvideos & Hrows)
    end.
    exists s'. split; [exact Hrun|]. split; [|split].
    + rewrite Hvideos. cbn. rewrite !lookup_alter_eq.
      by apply fmap_is_Some, fmap_is_Some.
    + exact Hrows.
    + intros ->. subst. cbn in Hrun. injection Hrun as <-. cbn.
      by rewrite app_nil_r.
  - eexists. split; [reflexivity|]. split; [|split].
    + cbn. rewrite !lookup_alter_eq. by apply fmap_is_Some, fmap_is_Some.
    + cbn. apply same_rendition_refl.
    + intros ->. cbn. by rewrite app_nil_r.
Qed.


Lemma processVideo_local_run s added :
  local_strategy cfg →
  is_Some (videos s !! videoId) →
  other_steps_succeed cfg w videoId inputPath →
  loop_adds cfg w videoId inputPath s added →
  ∃ s',
    Processing.processVideo cfg w videoId inputPath s = (inr tt, s') ∧
    status_of videoId s' = Some ready ∧
    Forall2 same_rendition (video_variants s ++ added)%list
      (video_variants s') ∧
    (added = [] → video_variants s' = video_variants s).
Proof.
  intros Hlocal Hvideo Hother Hloop.
  pose proof Hother as ((metadata & Hprobe) & _).
  unfold Processing.processVideo, try_catch.
  erewrite bind_inr; [|reflexivity].
  erewrite bind_inr; [|reflexivity].
  unfold Processing.getVideoMetadata. rewrite Hprobe.
  erewrite bind_inr; [|reflexivity].
  erewrite bind_inr; [|reflexivity].
  unfold local_strategy in Hlocal. rewrite Hlocal.
  lazymatch goal with
  | |- context [@mbind M _ _ _ _
                  (Processing.processWithFFmpeg cfg w videoId inputPath)
                  ?s0] =>
      destruct (processWithFFmpeg_run s0 added)
        as (s1 & Hrun & Hvideo1 & Hrows & Hnil)
  end.
  { cbn. rewrite !lookup_alter_eq. by apply fmap_is_Some, fmap_is_Some. }
  { done. }
  { intros s4 Hv4 Hr4. apply Hloop; [done|]. by rewrite Hr4. }
  erewrite bind_inr; [|exact Hrun].
  erewrite bind_inr; [|reflexivity].
  erewrite bind_inr; [|reflexivity].
  eexists. split; [reflexivity|]. split; [|split].
  - unfold status_of. cbn. rewrite lookup_alter_eq.
    destruct Hvideo1 as [v ->]. reflexivity.
  - exact Hrows.
  - exact Hnil.
Qed.

End local_run.

(** ** Polling a cloud job *)

Lemma bind_inr_inv {A B} (m : M A) (k : A → M B) s b s' :
  (m ≫= k) s = (inr b, s') →
  ∃ a s1, m s = (inr a, s1) ∧ k a s1 = (inr b, s').
Proof.
  unfold mbind, M_bind, bind. destruct (m s) as [[e|a] s1]; [done|eauto].
Qed.

Lemma bind_assoc_run {A B C} (m : M A) (k : A → M B) (k' : B → M C) s :
  ((m ≫= k) ≫= k') s = (m ≫= (fun a => k a ≫= k')) s.
Proof. unfold mbind, M_bind, bind. by destruct (m s) as [[e|a] s1]. Qed.

Lemma for_each_app {A} (l1 l2 : list A) (body : A → M unit) s :
  for_each (l1 ++ l2) body s = (for_each l1 body;; for_each l2 body) s.
Proof.
  revert s. induction l1 as [|x l1 IH]; intros s; [done|].
  cbn [app for_each]. rewrite bind_assoc_run.
  unfold mbind, M_bind, bind. destruct (body x s) as [[e|[]] s1]; [done|].
  apply IH.
Qed.

Lemma find_variant_present r rows :
  r ∈ rows → is_Some (Db.find_variant (video_id r) (quality r) rows).
Proof.
  intros Hin. destruct (Db.find_variant _ _ _) eqn:Hfind; [by eexists|].
  apply find_variant_None in Hfind.
  eapply Forall_forall in Hfind; [|exact Hin]. by destruct Hfind.
Qed.

Section poll.
Variables (cfg : Config) (w : World) (videoId : string).

Lemma record_output_run output s :
  Processing.record_output cfg videoId output s =
  match planned_row cfg videoId output with
  | Some row => Db.insert_variant row s
  | None => (inr tt, s)
  end.
Proof.
  unfold Processing.record_output, planned_row.
  destruct (OutputFilePaths output) as [[|outputPath ?]|]; try done.
  by destruct (Processing.extractQualityFromPath cfg outputPath).
Qed.

Lemma record_outputs_as_inserts outputs s :
  for_each outputs (Processing.record_output cfg videoId) s =
  for_each (omap (planned_row cfg videoId) outputs) Db.insert_variant s.
Proof.
  revert s. induction outputs as [|output outputs IH]; intros s; [done|].
  cbn [for_each omap list_omap].
  unfold mbind at 1, M_bind at 1, bind at 1. rewrite record_output_run.
  destruct (planned_row cfg videoId output) as [row|]; [|apply IH].
  cbn [for_each]. unfold mbind, M_bind, bind.
  destruct (Db.insert_variant row s) as [[e|[]] s1]; [done|apply IH].
Qed.

Lemma updateVideoVariantsFromAWS_as_inserts job s :
  Processing.updateVideoVariantsFromAWS cfg videoId job s =
  for_each (planned_rows cfg videoId job) Db.insert_variant s.
Proof.
  unfold Processing.updateVideoVariantsFromAWS, planned_rows.
  destruct (outputGroupDetails job) as [groups|]; [|done].
  revert s. induction groups as [|g groups IH]; intros s; [done|].
  cbn [for_each flat_map]. rewrite for_each_app.
  destruct (OutputDetails g) as [outputs|].
  - unfold mbind, M_bind, bind. rewrite record_outputs_as_inserts.
    destruct (for_each _ _ s) as [[e|[]] s1]; [done|apply IH].
  - apply IH.
Qed.

Lemma inserts_succeed rows : ∀ s s',
  for_each rows Db.insert_variant s = (inr tt, s') →
  s' = with_variants (fun table => (table ++ rows)%list) s.
Proof.
  induction rows as [|r rows IH]; intros s s' Hrun.
  - cbn in Hrun. injection Hrun as <-. destruct s.
    unfold with_variants. cbn. by rewrite app_nil_r.
  - cbn [for_each] in Hrun.
    apply bind_inr_inv in Hrun as ([] & s1 & Hins & Hrest).
    apply IH in Hrest. unfold Db.insert_variant in Hins.
    destruct (videos s !! video_id r); [|done].
    destruct (Db.find_variant _ _ _); [done|].
    injection Hins as <-. rewrite Hrest.
    unfold with_variants. cbn. by rewrite <- app_assoc.
Qed.

Lemma inserts_repeated rows s :
  Forall (fun r => r ∈ video_variants s) rows →
  snd (for_each rows Db.insert_variant s) = s ∧
  (rows = [] → for_each rows Db.insert_variant s = (inr tt, s)) ∧
  (rows ≠ [] → ∃ e, for_each rows Db.insert_variant s = (inl e, s)).
Proof.
  intros Hin. destruct rows as [|r rows].
  { done. }
  apply Forall_cons in Hin as [Hr _].
  apply find_variant_present in Hr as [r' Hr'].
  assert (∃ e, Db.insert_variant r s = (inl e, s)) as [e He].
  { unfold Db.insert_variant.
    destruct (videos s !! video_id r); [|by eexists].
    rewrite Hr'. by eexists. }
  cbn [for_each]. rewrite (bind_inl _ _ _ _ _ He).
  split; [done|]. split; [done|]. intros _. by exists e.
Qed.


Lemma checkAWSJobStatus_first s job s1 :
  Processing.checkAWSJobStatus cfg w videoId s = (inr job, s1) →
  job_status job = COMPLETE →
  settled cfg w videoId job s1.
Proof.
  intros Hrun Hdone. unfold Processing.checkAWSJobStatus, try_catch in Hrun.
  match type of Hrun with
  | match ?body with _ => _ end = _ =>
      destruct body as [[e|job'] s'] eqn:Hbody; [done|]
  end.
  injection Hrun as -> ->.
  apply bind_inr_inv in Hbody as (video & s0 & Hget & Hbody).
  injection Hget as <- <-.
  destruct (videos s !! videoId) as [v|] eqn:Hv; [|done]. cbn in Hbody.
  destruct (processing_job_id v) as [j|] eqn:Hj; [|done].
  destruct (truthy j) eqn:Htruthy; [|done].
  apply bind_inr_inv in Hbody as (job' & s0 & Hjob & Hbody).
  unfold MediaConvert.getJobStatus in Hjob.
  destruct (get_job w j) as [job''|] eqn:Hgot; [|done].
  injection Hjob as <- <-.
  apply bind_inr_inv in Hbody as ([] & s0 & Hcache & Hbody).
  injection Hcache as <-.
  apply bind_inr_inv in Hbody as ([] & s2 & Hbranch & Hret).
  injection Hret as <- <-. rewrite Hdone in Hbranch.
  destruct (decide (COMPLETE = COMPLETE)); [|done].
  apply bind_inr_inv in Hbranch as ([] & s3 & Hrows & Hbranch).
  rewrite updateVideoVariantsFromAWS_as_inserts in Hrows.
  apply inserts_succeed in Hrows. subst s3.
  apply bind_inr_inv in Hbranch as ([] & s4 & Hstatus & Hinv).
  injection Hstatus as <-. injection Hinv as <-.
  exists (mkVideo ready (processing_job_id v) (duration v) (thumbnail_url v)), j.
  cbn. rewrite lookup_alter_eq, Hv.
  repeat split; try done.
  apply Forall_forall. intros r Hr. apply elem_of_app. by right.
Qed.

Lemma checkAWSJobStatus_settled job s :
  settled cfg w videoId job s →
  videos (snd (Processing.checkAWSJobStatus cfg w videoId s)) = videos s ∧
  video_variants (snd (Processing.checkAWSJobStatus cfg w videoId s))
    = video_variants s.
Proof.
  intros (v & j & Hv & Hj & Htruthy & Hready & Hgot & Hdone & Hrows).
  unfold Processing.checkAWSJobStatus, try_catch.
  erewrite bind_inr; [|reflexivity]. rewrite Hv. cbn [mbind option_bind].
  rewrite Hj, Htruthy.
  unfold MediaConvert.getJobStatus. rewrite Hgot.
  erewrite bind_inr; [|reflexivity].
  erewrite bind_inr; [|reflexivity].
  rewrite Hdone. destruct (decide (COMPLETE = COMPLETE)); [|done].
  match goal with
  | |- context [@mbind M _ _ _ _
                  (@mbind M _ _ _ _
                     (Processing.updateVideoVariantsFromAWS cfg videoId job))
                  ?s0] =>
      pose proof (inserts_repeated (planned_rows cfg videoId job) s0 Hrows)
        as (_ & Hnil & Hcons);
      rewrite <- (updateVideoVariantsFromAWS_as_inserts job s0) in Hnil, Hcons
  end.
  destruct (decide (planned_rows cfg videoId job = [])) as [Hempty|Hsome].
  - erewrite bind_inr.
    2:{ erewrite bind_inr; [|exact (Hnil Hempty)].
        erewrite bind_inr; reflexivity. }
    cbn. split; [|done].
    apply alter_id. intros v' Hv'. rewrite Hv in Hv'.
    injection Hv' as <-. destruct v. cbn in Hready. by subst.
  - destruct (Hcons Hsome) as [err Herr].
    erewrite bind_inl.
    2:{ erewrite bind_inl; [reflexivity|exact Herr]. }
    done.
Qed.

End poll.

(** ** The local strategy, end to end *)

(** C2, as amended. For every rung table in which every rung's encode
    fails, [processVideo] under the local strategy, its other steps
    succeeding, returns normally with the table of renditions exactly as
    it was (no row is persisted) and with the persisted status [ready]. *)
Theorem processVideo_local_every_rung_fails
    (cfg : Config) (w : World) (videoId inputPath : string) (s : Store) :
  local_strategy cfg →
  is_Some (videos s !! videoId) →
  other_steps_succeed cfg w videoId inputPath →
  Forall (fun q => rung_succeeds cfg w videoId inputPath q = false)
    (Processing.qualities cfg) →
  ∃ s',
    Processing.processVideo cfg w videoId inputPath s = (inr tt, s') ∧
    status_of videoId s' = Some ready ∧
    video_variants s' = video_variants s.
Proof.
  intros Hlocal Hvideo Hother Hfail.
  destruct (processVideo_local_run cfg w videoId inputPath s [])
    as (s' & Hrun & Hstatus & _ & Hrows); try done.
  - intros s4 _ _. unfold Processing.transcodeToMultipleQualities.
    rewrite with_variants_nil. by apply transcode_loop_every_rung_fails.
  - exists s'. auto.
Qed.

(** C8. For every table of distinctly named rungs in which at least
    one rung's encode succeeds, [processVideo] under the local strategy,
    run on a video without renditions and with its other steps
    succeeding, returns normally with the persisted status [ready] and
    with the renditions of the video being, in the order of the table, one
    row per rung whose encode succeeded, carrying the label, bitrate and
    size of that rung: a failed rung has no row, and the rungs after a
    failed one are still attempted. *)
Theorem processVideo_local_one_row_per_successful_rung
    (cfg : Config) (w : World) (videoId inputPath : string) (s : Store) :
  local_strategy cfg →
  is_Some (videos s !! videoId) →
  renditions videoId s = [] →
  NoDup (map name (Processing.qualities cfg)) →
  other_steps_succeed cfg w videoId inputPath →
  Exists (fun q => rung_succeeds cfg w videoId inputPath q = true)
    (Processing.qualities cfg) →
  ∃ s',
    Processing.processVideo cfg w videoId inputPath s = (inr tt, s') ∧
    status_of videoId s' = Some ready ∧
    renditions videoId s' ≠ [] ∧
    Forall2 (row_of_rung videoId) (renditions videoId s')
      (filter (fun q => rung_succeeds cfg w videoId inputPath q = true)
         (Processing.qualities cfg)).
Proof.
  intros Hlocal Hvideo Hnone Hnodup Hother Hsome.
  pose proof (added_rows_of_rungs cfg w videoId inputPath
                (Processing.qualities cfg)) as Hadded.
  destruct (processVideo_local_run cfg w videoId inputPath s
              (added_rows cfg w videoId inputPath (Processing.qualities cfg)))
    as (s' & Hrun & Hstatus & Hrows & _); try done.
  { intros s4 Hv4 Hr4. unfold Processing.transcodeToMultipleQualities.
    rewrite (transcode_loop_fresh cfg w videoId inputPath _ [] s4); try done.
    apply Forall_forall. intros q _. apply find_variant_None.
    rewrite Hr4. apply Forall_forall. intros r Hr [Hv _].
    assert (r ∈ renditions videoId s) as Hin.
    { unfold renditions, Db.variants_of. by apply list_elem_of_filter. }
    rewrite Hnone in Hin. by apply elem_of_nil in Hin. }
  assert (Forall2 (row_of_rung videoId) (renditions videoId s')
    (filter (fun q => rung_succeeds cfg w videoId inputPath q = true)
       (Processing.qualities cfg))) as Hfinal.
  { apply (same_rendition_variants_of videoId) in Hrows.
    eapply row_of_rung_same; [exact Hrows|].
    unfold Db.variants_of. rewrite filter_app.
    fold (Db.variants_of videoId (video_variants s)).
    fold (renditions videoId s). rewrite Hnone. cbn [app].
    fold (Db.variants_of videoId
            (added_rows cfg w videoId inputPath (Processing.qualities cfg))).
    by rewrite (variants_of_rows_of_rungs _ _ _ Hadded). }
  exists s'. split; [done|]. split; [done|]. split; [|done].
  intros Hempty. rewrite Hempty in Hfinal.
  apply Forall2_nil_inv_l in Hfinal.
  apply Exists_exists in Hsome as (q & Hq & Hs).
  assert (q ∈ filter (fun q => rung_succeeds cfg w videoId inputPath q = true)
                (Processing.qualities cfg)) as Hin.
  { by apply list_elem_of_filter. }
  rewrite Hfinal in Hin. by apply elem_of_nil in Hin.
Qed.

(** The hypotheses hold for the shipped rung table in the world whose
    encoder always fails. *)
Lemma processVideo_local_every_rung_fails_witness :
  local_strategy Scenario.cfg_local ∧
  is_Some (videos Scenario.uploaded !! "v1") ∧
  other_steps_succeed Scenario.cfg_local Scenario.every_rung_fails
    "v1" "in.mp4" ∧
  Forall (fun q =>
            rung_succeeds Scenario.cfg_local Scenario.every_rung_fails
              "v1" "in.mp4" q = false)
    (Processing.qualities Scenario.cfg_local) ∧
  ∃ s',
    Processing.processVideo Scenario.cfg_local Scenario.every_rung_fails
      "v1" "in.mp4" Scenario.uploaded = (inr tt, s') ∧
    status_of "v1" s' = Some ready ∧
    video_variants s' = video_variants Scenario.uploaded.
Proof.
  assert (local_strategy Scenario.cfg_local) as Hlocal.
  { reflexivity. }
  assert (is_Some (videos Scenario.uploaded !! "v1")) as Hvideo.
  { vm_compute. eexists. reflexivity. }
  assert (other_steps_succeed Scenario.cfg_local Scenario.every_rung_fails
            "v1" "in.mp4") as Hother.
  { split; [by exists 60|]. repeat split. }
  assert (Forall (fun q =>
            rung_succeeds Scenario.cfg_local Scenario.every_rung_fails
              "v1" "in.mp4" q = false)
            (Processing.qualities Scenario.cfg_local)) as Hfail.
  { repeat constructor. }
  split; [exact Hlocal|]. split; [exact Hvideo|]. split; [exact Hother|].
  split; [exact Hfail|].
  exact (processVideo_local_every_rung_fails Scenario.cfg_local
           Scenario.every_rung_fails "v1" "in.mp4" Scenario.uploaded
           Hlocal Hvideo Hother Hfail).
Defined.

(** The hypotheses hold for the shipped rung table in the world whose
    encoder fails on 720p alone. *)
Lemma processVideo_local_one_row_per_successful_rung_witness :
  local_strategy Scenario.cfg_local ∧
  is_Some (videos Scenario.uploaded !! "v1") ∧
  renditions "v1" Scenario.uploaded = [] ∧
  NoDup (map name (Processing.qualities Scenario.cfg_local)) ∧
  other_steps_succeed Scenario.cfg_local Scenario.all_but_720p_succeed
    "v1" "in.mp4" ∧
  Exists (fun q =>
            rung_succeeds Scenario.cfg_local Scenario.all_but_720p_succeed
              "v1" "in.mp4" q = true)
    (Processing.qualities Scenario.cfg_local) ∧
  ∃ s',
    Processing.processVideo Scenario.cfg_local Scenario.all_but_720p_succeed
      "v1" "in.mp4" Scenario.uploaded = (inr tt, s') ∧
    status_of "v1" s' = Some ready ∧
    renditions "v1" s' ≠ [] ∧
    Forall2 (row_of_rung "v1") (renditions "v1" s')
      (filter (fun q =>
                 rung_succeeds Scenario.cfg_local
                   Scenario.all_but_720p_succeed "v1" "in.mp4" q = true)
         (Processing.qualities Scenario.cfg_local)).
Proof.
  assert (local_strategy Scenario.cfg_local) as Hlocal.
  { reflexivity. }
  assert (is_Some (videos Scenario.uploaded !! "v1")) as Hvideo.
  { vm_compute. eexists. reflexivity. }
  assert (renditions "v1" Scenario.uploaded = []) as Hnone.
  { reflexivity. }
  assert (NoDup (map name (Processing.qualities Scenario.cfg_local)))
    as Hnodup.
  { apply (bool_decide_unpack _). vm_compute. exact I. }
  assert (other_steps_succeed Scenario.cfg_local
            Scenario.all_but_720p_succeed "v1" "in.mp4") as Hother.
  { split; [by exists 60|]. repeat split. }
  assert (Exists (fun q =>
            rung_succeeds Scenario.cfg_local Scenario.all_but_720p_succeed
              "v1" "in.mp4" q = true)
            (Processing.qualities Scenario.cfg_local)) as Hsome.
  { apply Exists_cons_hd. reflexivity. }
  split; [exact Hlocal|]. split; [exact Hvideo|]. split; [exact Hnone|].
  split; [exact Hnodup|]. split; [exact Hother|]. split; [exact Hsome|].
  exact (processVideo_local_one_row_per_successful_rung Scenario.cfg_local
           Scenario.all_but_720p_succeed "v1" "in.mp4" Scenario.uploaded
           Hlocal Hvideo Hnone Hnodup Hother Hsome).
Defined.

(** The run of the witness: 720p fails, the four other rungs get a row. *)
Example processVideo_720p_fails :
  map quality
    (renditions "v1"
       (snd (Processing.processVideo Scenario.cfg_local
               Scenario.all_but_720p_succeed "v1" "in.mp4"
               Scenario.uploaded)))
  = ["240p"; "360p"; "480p"; "1080p"].
Proof. vm_compute. reflexivity. Qed.

(** ** Polling after the job has finished *)

Lemma settled_same_tables cfg w videoId job s s' :
  videos s' = videos s →
  video_variants s' = video_variants s →
  settled cfg w videoId job s →
  settled cfg w videoId job s'.
Proof. unfold settled. by intros -> ->. Qed.

Lemma poll_again_S cfg w videoId n s :
  poll_again cfg w videoId (S n) s =
  snd (Processing.checkAWSJobStatus cfg w videoId
         (poll_again cfg w videoId n s)).
Proof. reflexivity. Qed.

Lemma poll_again_settled cfg w videoId job s n :
  settled cfg w videoId job s →
  videos (poll_again cfg w videoId n s) = videos s ∧
  video_variants (poll_again cfg w videoId n s) = video_variants s.
Proof.
  intros Hsettled. induction n as [|n [IHv IHr]]; [done|].
  rewrite poll_again_S.
  destruct (checkAWSJobStatus_settled cfg w videoId job
              (poll_again cfg w videoId n s)) as [Hv Hr].
  { by eapply settled_same_tables. }
  split; [by rewrite Hv|by rewrite Hr].
Qed.

(** C3. Once a call of [checkAWSJobStatus] has returned a job in the
    COMPLETE state, every later call for that video, the job service
    answering as before, leaves both tables as that first call left them:
    the status stays [ready] and the renditions are the same rows, none
    added and none repeated. *)
Theorem checkAWSJobStatus_idempotent_after_complete
    (cfg : Config) (w : World) (videoId : string)
    (s s1 : Store) (job : MediaConvertJob) :
  Processing.checkAWSJobStatus cfg w videoId s = (inr job, s1) →
  job_status job = COMPLETE →
  ∀ n,
    videos (poll_again cfg w videoId n s1) = videos s1 ∧
    video_variants (poll_again cfg w videoId n s1) = video_variants s1 ∧
    status_of videoId (poll_again cfg w videoId n s1) = Some ready.
Proof.
  intros Hfirst Hdone n.
  pose proof (checkAWSJobStatus_first cfg w videoId s job s1 Hfirst Hdone)
    as Hsettled.
  destruct (poll_again_settled cfg w videoId job s1 n Hsettled) as [Hv Hr].
  split; [exact Hv|]. split; [exact Hr|].
  unfold status_of. rewrite Hv.
  destruct Hsettled as (v & j & Hlookup & _ & _ & Hready & _).
  rewrite Hlookup. cbn. by rewrite Hready.
Qed.

(** The hypotheses hold for the first poll of the submitted video in the
    world whose job has finished. *)
Lemma checkAWSJobStatus_idempotent_after_complete_witness :
  let first :=
    Processing.checkAWSJobStatus Scenario.cfg_cloud Scenario.job_finished
      "v1" Scenario.submitted in
  first = (inr Scenario.finished_job, snd first) ∧
  job_status Scenario.finished_job = COMPLETE ∧
  ∀ n,
    videos (poll_again Scenario.cfg_cloud Scenario.job_finished "v1" n
              (snd first)) = videos (snd first) ∧
    video_variants (poll_again Scenario.cfg_cloud Scenario.job_finished
                      "v1" n (snd first)) = video_variants (snd first) ∧
    status_of "v1" (poll_again Scenario.cfg_cloud Scenario.job_finished
                      "v1" n (snd first)) = Some ready.
Proof.
  intros first.
  assert (first = (inr Scenario.finished_job, snd first)) as Hfirst.
  { vm_compute. reflexivity. }
  assert (job_status Scenario.finished_job = COMPLETE) as Hdone.
  { reflexivity. }
  split; [exact Hfirst|]. split; [exact Hdone|].
  exact (checkAWSJobStatus_idempotent_after_complete Scenario.cfg_cloud
           Scenario.job_finished "v1" Scenario.submitted (snd first)
           Scenario.finished_job Hfirst Hdone).
Defined.

(** The first poll of the witness inserts the rows of 720p and 480p; the
    second one rejects on the first of them and leaves a status entry in
    the cache, which the first poll had dropped. *)
Example second_poll_rejects :
  let first :=
    Processing.checkAWSJobStatus Scenario.cfg_cloud Scenario.job_finished
      "v1" Scenario.submitted in
  let second :=
    Processing.checkAWSJobStatus Scenario.cfg_cloud Scenario.job_finished
      "v1" (snd first) in
  map quality (renditions "v1" (snd first)) = ["720p"; "480p"] ∧
  Cache.getCachedProcessingStatus "v1" (snd first) = None ∧
  (∃ error, fst second = inl error) ∧
  map quality (renditions "v1" (snd second)) = ["720p"; "480p"] ∧
  Cache.getCachedProcessingStatus "v1" (snd second) =
    Some (mkStatusInfo "COMPLETE" 100 (Some "job-1") None None).
Proof. vm_compute. repeat split. by eexists. Qed.

(** ** The manifest cache across calls *)

Lemma grows_refl s : grows s s.
Proof. by split. Qed.

Lemma grows_trans s1 s2 s3 : grows s1 s2 → grows s2 s3 → grows s1 s3.
Proof.
  intros [Hc1 Hr1] [Hc2 Hr2]. split.
  - intros v. by rewrite Hc2, Hc1.
  - intros v Hv. by apply Hr2, Hr1.
Qed.

Lemma steady_ret {A} (a : A) : steady (mret a).
Proof. intros s. apply grows_refl. Qed.

Lemma steady_throw {A} e : steady (@throw A e).
Proof. intros s. apply grows_refl. Qed.

Lemma steady_gets {A} (f : Store → A) : steady (gets f).
Proof. intros s. apply grows_refl. Qed.

Lemma steady_call answer : steady (call answer).
Proof. destruct answer; [apply steady_throw|apply steady_ret]. Qed.

Lemma steady_bind {A B} (m : M A) (k : A → M B) :
  steady m → (∀ a, steady (k a)) → steady (m ≫= k).
Proof.
  intros Hm Hk s. specialize (Hm s). unfold mbind, M_bind, bind.
  destruct (m s) as [[e|a] s1]; [exact Hm|].
  eapply grows_trans; [exact Hm|apply Hk].
Qed.

Lemma steady_try_catch {A} (m : M A) (h : string → M A) :
  steady m → (∀ e, steady (h e)) → steady (try_catch m h).
Proof.
  intros Hm Hh s. specialize (Hm s). unfold try_catch.
  destruct (m s) as [[e|a] s1]; [|exact Hm].
  eapply grows_trans; [exact Hm|apply Hh].
Qed.

Lemma steady_for_each {A} (l : list A) (body : A → M unit) :
  (∀ x, steady (body x)) → steady (for_each l body).
Proof.
  intros Hbody. induction l as [|x l IH]; [apply steady_ret|].
  cbn [for_each]. apply steady_bind; [apply Hbody|by intros _].
Qed.

Ltac other_key :=
  unfold Streaming.manifest_key, Streaming.playlist_key, Cache.processing_key;
  cbv [String.append]; discriminate.

Lemma steady_update_video videoId f : steady (Db.update_video videoId f).
Proof. intros s. by split. Qed.

Lemma steady_cacheProcessingStatus videoId st :
  steady (Cache.cacheProcessingStatus videoId st).
Proof.
  intros s. split; [|done]. intros v. unfold Redis.get. cbn.
  rewrite lookup_insert_ne; [done|other_key].
Qed.

Lemma steady_del key :
  (∀ videoId, Streaming.manifest_key videoId ≠ key) → steady (Redis.del key).
Proof.
  intros Hkey s. split; [|done]. intros videoId. unfold Redis.get. cbn.
  rewrite lookup_delete_ne; [done|]. intros Heq. by apply (Hkey videoId).
Qed.

Lemma steady_invalidateVideoCache videoId :
  steady (Cache.invalidateVideoCache videoId).
Proof.
  unfold Cache.invalidateVideoCache, Cache.video_keys. cbn [for_each].
  repeat (apply steady_bind; [apply steady_del; intros ?; other_key|intros _]).
  apply steady_ret.
Qed.

Lemma renditions_app videoId s rows :
  renditions videoId (with_variants (fun table => (table ++ rows)%list) s) =
  (renditions videoId s ++ Db.variants_of videoId rows)%list.
Proof. unfold renditions, Db.variants_of. cbn. apply filter_app. Qed.

Lemma steady_insert_variant row : steady (Db.insert_variant row).
Proof.
  intros s. unfold Db.insert_variant.
  destruct (videos s !! video_id row); [|apply grows_refl].
  destruct (Db.find_variant _ _ _); [apply grows_refl|].
  split; [done|]. intros videoId Hsome. cbn [snd]. rewrite renditions_app.
  intros [Hnil _]%app_eq_nil. done.
Qed.

Lemma steady_update_variant_url videoId q url :
  steady (Db.update_variant_url videoId q url).
Proof.
  intros s. split; [done|]. intros v Hv Hnil. apply Hv.
  pose proof (same_rendition_variants_of v _ _
                (update_variant_url_same videoId q url (video_variants s)))
    as Hsame.
  unfold renditions, Db.variants_of in *. cbn in Hnil.
  rewrite Hnil in Hsame. by apply Forall2_nil_inv_r in Hsame.
Qed.

Create HintDb steady discriminated.
#[local] Hint Resolve steady_ret steady_throw steady_gets steady_call
  steady_update_video steady_cacheProcessingStatus
  steady_invalidateVideoCache steady_insert_variant
  steady_update_variant_url : steady.

Ltac steady :=
  repeat first
    [ progress auto with steady
    | apply steady_bind; [|intros ?]
    | apply steady_try_catch; [|intros ?]
    | apply steady_for_each; intros ?
    | solve [intros ?; apply grows_refl]
    | match goal with
      | |- steady (match ?x with _ => _ end) => destruct x
      | |- steady (if ?b then _ else _) => destruct b
      end ].

Section orchestrator.
Variables (cfg : Config) (w : World).

Lemma steady_transcode_loop inputPath outputDir videoId todo : ∀ variants,
  steady (Processing.transcode_loop w inputPath outputDir videoId todo
            variants).
Proof.
  induction todo as [|q todo IH]; intros variants; cbn; [steady|].
  apply steady_bind; [|by intros ?].
  unfold Processing.transcodeToQuality. steady.
Qed.

Lemma steady_processVideo videoId inputPath :
  steady (Processing.processVideo cfg w videoId inputPath).
Proof.
  unfold Processing.processVideo, Processing.updateVideoStatus,
    Processing.getVideoMetadata, Processing.updateVideoMetadata,
    Processing.processWithAWSMediaConvert, Processing.processWithFFmpeg,
    Processing.generateThumbnail, Processing.generateHLSPlaylists,
    Processing.transcodeToMultipleQualities,
    MediaConvert.uploadToS3, MediaConvert.createTranscodingJob.
  pose proof steady_transcode_loop. steady.
Qed.

Lemma steady_checkAWSJobStatus videoId :
  steady (Processing.checkAWSJobStatus cfg w videoId).
Proof.
  unfold Processing.checkAWSJobStatus, Processing.updateVideoStatus,
    Processing.updateVideoVariantsFromAWS, Processing.record_output,
    MediaConvert.getJobStatus.
  steady.
Qed.

End orchestrator.

Lemma grows_manifest_cache_sound videoId s s' :
  grows s s' → manifest_cache_sound videoId s → manifest_cache_sound videoId s'.
Proof.
  intros [Hcache Hrows] Hsound text Htext. rewrite Hcache in Htext.
  destruct (Hsound text Htext) as [Hsome Hrender]. split; [|exact Hrender].
  by apply Hrows.
Qed.

Lemma steady_generateQualityPlaylist videoId q :
  steady (Streaming.generateQualityPlaylist videoId q).
Proof.
  unfold Streaming.generateQualityPlaylist. steady.
  intros s. split; [|done]. intros other. unfold Redis.get. cbn.
  rewrite lookup_insert_ne; [done|other_key].
Qed.

Lemma steady_getOptimalQuality videoId userBandwidth :
  steady (Streaming.getOptimalQuality videoId userBandwidth).
Proof. intros s. apply grows_refl. Qed.

Lemma generateHLSManifest_other_video videoId other s :
  other ≠ videoId →
  manifest_cache_sound videoId s →
  manifest_cache_sound videoId (snd (Streaming.generateHLSManifest other s)).
Proof.
  intros Hother Hsound.
  destruct (if_truthy (Redis.get (Streaming.manifest_key other) s))
    as [text|] eqn:Hget.
  { by rewrite (generateHLSManifest_hit _ _ _ Hget). }
  destruct (decide (renditions other s = [])) as [Hnone|Hsome].
  { by rewrite (generateHLSManifest_empty _ _ Hget Hnone). }
  rewrite (generateHLSManifest_miss _ _ Hget Hsome). cbn [snd].
  intros text Htext. apply Hsound. rewrite <- Htext. f_equal.
  unfold Redis.get. cbn. rewrite lookup_insert_ne; [done|].
  unfold Streaming.manifest_key. intros Heq.
  by apply (inj (String.app "manifest:")) in Heq.
Qed.

Lemma after_keeps_manifest_cache_sound c videoId s :
  manifest_cache_sound videoId s → manifest_cache_sound videoId (after c s).
Proof.
  destruct c as [cfg w v inputPath|cfg w v|v|v q|v b]; cbn [after].
  - apply grows_manifest_cache_sound, steady_processVideo.
  - apply grows_manifest_cache_sound, steady_checkAWSJobStatus.
  - destruct (decide (v = videoId)) as [->|Hv].
    + apply generateHLSManifest_keeps_cache_sound.
    + by apply generateHLSManifest_other_video.
  - apply grows_manifest_cache_sound, steady_generateQualityPlaylist.
  - apply grows_manifest_cache_sound, steady_getOptimalQuality.
Qed.

(** From a store with an empty cache, whatever calls are made, the
    manifest key of every video holds nothing usable or a rendering of
    renditions in descending order, and then the video has renditions. *)
Lemma manifest_cache_sound_reachable calls videoId s :
  redis s = ∅ → manifest_cache_sound videoId (after_all calls s).
Proof.
  intros Hempty.
  assert (manifest_cache_sound videoId s) as Hsound.
  { intros text Htext. unfold Redis.get in Htext.
    rewrite Hempty, lookup_empty in Htext. done. }
  clear Hempty. revert s Hsound.
  induction calls as [|c calls IH]; intros s Hsound; [done|].
  cbn [after_all]. by apply IH, after_keeps_manifest_cache_sound.
Qed.

(** * Further results *)

(** ** Relations that calls keep *)

Section keeps.
Context (R : relation Store) `{!PreOrder R}.

Lemma keeps_ret {A} (a : A) : keeps R (mret a).
Proof. intros s. reflexivity. Qed.

Lemma keeps_throw {A} e : keeps R (@throw A e).
Proof. intros s. reflexivity. Qed.

Lemma keeps_gets {A} (f : Store → A) : keeps R (gets f).
Proof. intros s. reflexivity. Qed.

Lemma keeps_call answer : keeps R (call answer).
Proof. destruct answer; [apply keeps_throw|apply keeps_ret]. Qed.

Lemma keeps_bind_post {A B} (Q : A → Prop) (m : M A) (k : A → M B) :
  keeps R m → returns m Q → (∀ a, Q a → keeps R (k a)) → keeps R (m ≫= k).
Proof.
  intros Hm HQ Hk s. specialize (Hm s). specialize (HQ s).
  unfold mbind, M_bind, bind.
  destruct (m s) as [[e|a] s1]; [exact Hm|].
  etrans; [exact Hm|]. apply Hk. by eapply HQ.
Qed.

Lemma keeps_bind {A B} (m : M A) (k : A → M B) :
  keeps R m → (∀ a, keeps R (k a)) → keeps R (m ≫= k).
Proof.
  intros Hm Hk. apply (keeps_bind_post (fun _ => True)); [done|done|auto].
Qed.

Lemma keeps_try_catch {A} (m : M A) (h : string → M A) :
  keeps R m → (∀ e, keeps R (h e)) → keeps R (try_catch m h).
Proof.
  intros Hm Hh s. specialize (Hm s). unfold try_catch.
  destruct (m s) as [[e|a] s1]; [|exact Hm].
  etrans; [exact Hm|apply Hh].
Qed.

Lemma keeps_for_each_in {A} (l : list A) (body : A → M unit) :
  (∀ x, x ∈ l → keeps R (body x)) → keeps R (for_each l body).
Proof.
  induction l as [|x l IH]; intros Hbody; [apply keeps_ret|].
  cbn [for_each]. apply keeps_bind.
  - apply Hbody. by left.
  - intros _. apply IH. intros y Hy. apply Hbody. by right.
Qed.

Lemma keeps_for_each {A} (l : list A) (body : A → M unit) :
  (∀ x, keeps R (body x)) → keeps R (for_each l body).
Proof. intros Hbody. apply keeps_for_each_in. auto. Qed.

End keeps.

#[local] Instance confined_preorder videoId : PreOrder (confined videoId).
Proof.
  split.
  - intros s. by split.
  - intros s1 s2 s3 [Ha1 Hb1] [Ha2 Hb2]. split.
    + intros other Hother. destruct (Ha1 other Hother) as [Hv1 Hr1].
      destruct (Ha2 other Hother) as [Hv2 Hr2].
      split; [by rewrite Hv2|by rewrite Hr2].
    + intros key Hkey. by rewrite Hb2, Hb1.
Qed.

(** ** A call for one video leaves the others alone *)

Lemma variants_of_other_app other rows row :
  video_id row ≠ other →
  Db.variants_of other (rows ++ [row]) = Db.variants_of other rows.
Proof.
  intros Hrow. unfold Db.variants_of. rewrite filter_app, filter_cons.
  destruct (decide _); [done|]. by rewrite filter_nil, app_nil_r.
Qed.

Lemma variants_of_other_url other videoId q url rows :
  other ≠ videoId →
  Db.variants_of other
    (map (fun r =>
       if decide (video_id r = videoId ∧ quality r = q)
       then mkVariant (video_id r) (quality r) (v_bitrate r)
              (resolution_width r) (resolution_height r) (file_path r)
              (file_size r) (Some url)
       else r) rows)
  = Db.variants_of other rows.
Proof.
  intros Hother. unfold Db.variants_of.
  induction rows as [|r rows IH]; [done|].
  cbn [map]. rewrite !filter_cons, IH.
  destruct (decide (video_id r = videoId ∧ quality r = q)) as [[Hv _]|_];
    [|done].
  cbn [video_id]. by destruct (decide (video_id r = other)); [congruence|].
Qed.

Section confined.
Variable videoId : string.

Lemma confined_update_video f :
  keeps (confined videoId) (Db.update_video videoId f).
Proof.
  intros s. split; [|done]. intros other Hother. split; [|done].
  cbn. by rewrite lookup_alter_ne.
Qed.

Lemma confined_cacheProcessingStatus st :
  keeps (confined videoId) (Cache.cacheProcessingStatus videoId st).
Proof.
  intros s. split; [done|]. intros key Hkey. cbn.
  rewrite lookup_insert_ne; [done|]. intros <-. apply Hkey.
  unfold Cache.video_keys, Cache.processing_key. set_solver.
Qed.

Lemma confined_del key :
  key ∈ Cache.video_keys videoId → keeps (confined videoId) (Redis.del key).
Proof.
  intros Hin s. split; [done|]. intros key' Hkey'. cbn.
  rewrite lookup_delete_ne; [done|]. by intros <-.
Qed.

Lemma confined_invalidateVideoCache :
  keeps (confined videoId) (Cache.invalidateVideoCache videoId).
Proof. apply keeps_for_each_in; [apply _|]. apply confined_del. Qed.

Lemma confined_insert_variant row :
  video_id row = videoId → keeps (confined videoId) (Db.insert_variant row).
Proof.
  intros Hrow s. unfold Db.insert_variant.
  destruct (videos s !! video_id row); [|reflexivity].
  destruct (Db.find_variant _ _ _); [reflexivity|].
  split; [|done]. intros other Hother. split; [done|].
  unfold renditions. cbn. apply variants_of_other_app. congruence.
Qed.

Lemma confined_update_variant_url q url :
  keeps (confined videoId) (Db.update_variant_url videoId q url).
Proof.
  intros s. split; [|done]. intros other Hother. split; [done|].
  unfold renditions. cbn. by apply variants_of_other_url.
Qed.

End confined.

Create HintDb confined discriminated.
#[local] Hint Resolve confined_update_video confined_cacheProcessingStatus
  confined_invalidateVideoCache confined_update_variant_url : confined.

(** The rules of [keeps], with the order instance found on the way. *)
Ltac kbind := apply keeps_bind; try (solve [apply _]).
Ltac kbind_post Q := apply (keeps_bind_post _ Q); try (solve [apply _]).
Ltac kcatch := apply keeps_try_catch; try (solve [apply _]).
Ltac keach := apply keeps_for_each; try (solve [apply _]).
Ltac keach_in := apply keeps_for_each_in; try (solve [apply _]).

(** Splits a goal [keeps R m] along the shape of [m]. *)
Ltac keeps_steps :=
  repeat first
    [ progress auto with confined
    | match goal with |- ∀ _, _ => intros ? end
    | solve [apply keeps_ret; apply _]
    | solve [apply keeps_throw; apply _]
    | solve [apply keeps_gets; apply _]
    | solve [apply keeps_call; apply _]
    | kbind; [|intros ?]
    | kcatch; [|intros ?]
    | solve [intros ?; reflexivity]
    | match goal with
      | |- keeps _ (match ?x with _ => _ end) => destruct x
      | |- keeps _ (if ?b then _ else _) => destruct b
      end ].

Section confined_services.
Variables (cfg : Config) (w : World) (videoId : string).

Lemma transcodeToQuality_returns inputPath outputDir q :
  returns (Processing.transcodeToQuality w inputPath outputDir videoId q)
    (fun variant => video_id variant = videoId).
Proof.
  intros s variant s'. unfold Processing.transcodeToQuality.
  destruct (encode w _ _ _); [done|].
  intros (? & ? & _ & Hret)%bind_inr_inv. by injection Hret as <- _.
Qed.

Lemma confined_transcodeToQuality inputPath outputDir q :
  keeps (confined videoId)
    (Processing.transcodeToQuality w inputPath outputDir videoId q).
Proof.
  unfold Processing.transcodeToQuality.
  destruct (encode w _ _ _); [keeps_steps|].
  kbind; [by apply confined_insert_variant|intros _; keeps_steps].
Qed.

Lemma transcode_loop_returns inputPath outputDir todo : ∀ variants,
  Forall (fun r => video_id r = videoId) variants →
  returns (Processing.transcode_loop w inputPath outputDir videoId todo
             variants)
    (Forall (fun r => video_id r = videoId)).
Proof.
  induction todo as [|q todo IH]; intros variants Hall s out s'.
  - cbn. by intros [= <- _].
  - cbn [Processing.transcode_loop].
    intros (variants' & s1 & Hstep & Hrest)%bind_inr_inv.
    eapply IH; [|exact Hrest]. unfold try_catch in Hstep.
    destruct ((Processing.transcodeToQuality w inputPath outputDir videoId q
               ≫= λ variant, mret (variants ++ [variant])%list) s)
      as [[e|a] s2] eqn:Hrun.
    + by injection Hstep as <- _.
    + injection Hstep as <- _.
      apply bind_inr_inv in Hrun as (variant & s3 & Hq & Hret).
      injection Hret as <- _. apply Forall_app. split; [done|].
      constructor; [|done]. by eapply transcodeToQuality_returns.
Qed.

Lemma confined_transcode_loop inputPath outputDir todo : ∀ variants,
  keeps (confined videoId)
    (Processing.transcode_loop w inputPath outputDir videoId todo variants).
Proof.
  induction todo as [|q todo IH]; intros variants; cbn; [keeps_steps|].
  kbind; [|by intros ?].
  pose proof confined_transcodeToQuality. keeps_steps.
Qed.

Lemma confined_processVideo inputPath :
  keeps (confined videoId) (Processing.processVideo cfg w videoId inputPath).
Proof.
  unfold Processing.processVideo, Processing.updateVideoStatus,
    Processing.getVideoMetadata, Processing.updateVideoMetadata,
    Processing.processWithAWSMediaConvert, Processing.processWithFFmpeg,
    Processing.generateThumbnail, Processing.generateHLSPlaylists,
    Processing.transcodeToMultipleQualities,
    MediaConvert.uploadToS3, MediaConvert.createTranscodingJob.
  kcatch; [|keeps_steps].
  do 4 (kbind; [keeps_steps|intros ?]).
  kbind; [|keeps_steps].
  destruct (_ && _); [keeps_steps|].
  do 2 (kbind; [keeps_steps|intros ?]).
  kbind_post (Forall (fun r : VariantRow => video_id r = videoId)).
  - apply confined_transcode_loop.
  - by apply transcode_loop_returns.
  - intros variants Hall.
    kbind; [keeps_steps|intros ?].
    destruct (decide _); [|keeps_steps].
    kbind; [keeps_steps|intros ?].
    keach_in. intros variant Hin.
    eapply Forall_forall in Hall; [|exact Hin]. rewrite Hall.
    apply confined_update_variant_url.
Qed.

Lemma confined_checkAWSJobStatus :
  keeps (confined videoId) (Processing.checkAWSJobStatus cfg w videoId).
Proof.
  unfold Processing.checkAWSJobStatus, Processing.updateVideoStatus,
    Processing.updateVideoVariantsFromAWS, Processing.record_output,
    MediaConvert.getJobStatus.
  pose proof (fun row H => confined_insert_variant videoId row H) as Hins.
  keeps_steps.
  all: keach; intros outputGroup; keeps_steps.
  all: keach; intros output; keeps_steps.
  all: by apply Hins.
Qed.

End confined_services.

(** ** Renditions are only ever added *)

Lemma appends_same_tables s s' :
  videos s' = videos s → video_variants s' = video_variants s →
  appends s s'.
Proof.
  intros Hvideos Hrows. split.
  - intros v. by rewrite Hvideos.
  - intros v. exists []. rewrite app_nil_r. unfold renditions.
    rewrite Hrows. apply same_rendition_refl.
Qed.

#[local] Instance appends_preorder : PreOrder appends.
Proof.
  split.
  - intros s. by apply appends_same_tables.
  - intros s1 s2 s3 [Hd1 Hr1] [Hd2 Hr2]. split.
    + intros v. by rewrite Hd2, Hd1.
    + intros v. destruct (Hr1 v) as [rest1 H1]. destruct (Hr2 v) as [rest2 H2].
      exists (rest1 ++ rest2)%list.
      apply Forall2_app_inv_l in H2 as (rows2 & new2 & H2 & Hnew & ->).
      rewrite app_assoc. apply Forall2_app; [|exact Hnew].
      by eapply same_rendition_trans.
Qed.

Lemma appends_redis f s : appends s (with_redis f s).
Proof. by apply appends_same_tables. Qed.

Lemma appends_update_video videoId f :
  keeps appends (Db.update_video videoId f).
Proof.
  intros s. split.
  - intros v. cbn. destruct (decide (v = videoId)) as [->|Hv].
    + rewrite lookup_alter_eq. apply fmap_is_Some.
    + by rewrite lookup_alter_ne.
  - intros v. exists []. rewrite app_nil_r. apply same_rendition_refl.
Qed.

Lemma appends_setex key seconds v : keeps appends (Redis.setex key seconds v).
Proof. intros s. apply appends_redis. Qed.

Lemma appends_del key : keeps appends (Redis.del key).
Proof. intros s. apply appends_redis. Qed.

Lemma appends_invalidateVideoCache videoId :
  keeps appends (Cache.invalidateVideoCache videoId).
Proof. apply keeps_for_each; [apply _|]. apply appends_del. Qed.

Lemma appends_insert_variant row : keeps appends (Db.insert_variant row).
Proof.
  intros s. unfold Db.insert_variant.
  destruct (videos s !! video_id row) as [v|] eqn:Hv; [|reflexivity].
  destruct (Db.find_variant _ _ _) eqn:Hfind; [reflexivity|].
  split; [done|]. intros videoId. cbn [snd].
  exists (Db.variants_of videoId [row]). rewrite renditions_app.
  apply same_rendition_refl.
Qed.

Lemma appends_update_variant_url videoId q url :
  keeps appends (Db.update_variant_url videoId q url).
Proof.
  intros s. split; [done|]. intros v. exists []. rewrite app_nil_r.
  apply same_rendition_variants_of, update_variant_url_same.
Qed.

Create HintDb appends discriminated.
#[local] Hint Resolve appends_update_video appends_setex appends_del
  appends_invalidateVideoCache appends_insert_variant
  appends_update_variant_url : appends.

Ltac appends_steps :=
  repeat first
    [ progress auto with appends
    | match goal with |- ∀ _, _ => intros ? end
    | solve [apply keeps_ret; apply _]
    | solve [apply keeps_throw; apply _]
    | solve [apply keeps_gets; apply _]
    | solve [apply keeps_call; apply _]
    | kbind; [|intros ?]
    | kcatch; [|intros ?]
    | keach; intros ?
    | solve [intros ?; reflexivity]
    | match goal with
      | |- keeps _ (match ?x with _ => _ end) => destruct x
      | |- keeps _ (if ?b then _ else _) => destruct b
      end ].

Section appends_services.
Variables (cfg : Config) (w : World).

Lemma appends_transcode_loop inputPath outputDir videoId todo : ∀ variants,
  keeps appends
    (Processing.transcode_loop w inputPath outputDir videoId todo variants).
Proof.
  induction todo as [|q todo IH]; intros variants; cbn; [appends_steps|].
  kbind; [|by intros ?].
  unfold Processing.transcodeToQuality. appends_steps.
Qed.

Lemma appends_processWithFFmpeg videoId inputPath :
  keeps appends (Processing.processWithFFmpeg cfg w videoId inputPath).
Proof.
  unfold Processing.processWithFFmpeg, Processing.generateThumbnail,
    Processing.generateHLSPlaylists, Processing.transcodeToMultipleQualities.
  pose proof appends_transcode_loop. appends_steps.
Qed.

Lemma appends_processWithAWSMediaConvert videoId inputPath :
  keeps appends (Processing.processWithAWSMediaConvert cfg w videoId inputPath).
Proof.
  unfold Processing.processWithAWSMediaConvert, Processing.generateThumbnail,
    MediaConvert.uploadToS3, MediaConvert.createTranscodingJob,
    Cache.cacheProcessingStatus.
  appends_steps.
Qed.

Lemma appends_processVideo videoId inputPath :
  keeps appends (Processing.processVideo cfg w videoId inputPath).
Proof.
  unfold Processing.processVideo, Processing.updateVideoStatus,
    Processing.getVideoMetadata, Processing.updateVideoMetadata,
    Cache.cacheProcessingStatus.
  pose proof appends_processWithFFmpeg.
  pose proof appends_processWithAWSMediaConvert. appends_steps.
Qed.

Lemma appends_checkAWSJobStatus videoId :
  keeps appends (Processing.checkAWSJobStatus cfg w videoId).
Proof.
  unfold Processing.checkAWSJobStatus, Processing.updateVideoStatus,
    Processing.updateVideoVariantsFromAWS, Processing.record_output,
    MediaConvert.getJobStatus, Cache.cacheProcessingStatus.
  appends_steps.
Qed.

End appends_services.

Lemma appends_after c s : appends s (after c s).
Proof.
  destruct c as [cfg w v inputPath|cfg w v|v|v q|v b]; cbn [after].
  - apply appends_processVideo.
  - apply appends_checkAWSJobStatus.
  - unfold Streaming.generateHLSManifest, Streaming.getVideoVariants.
    revert s. change (keeps appends (Streaming.generateHLSManifest v)).
    unfold Streaming.generateHLSManifest, Streaming.getVideoVariants.
    appends_steps.
  - revert s. change (keeps appends (Streaming.generateQualityPlaylist v q)).
    unfold Streaming.generateQualityPlaylist. appends_steps.
  - reflexivity.
Qed.

Lemma appends_after_all calls : ∀ s, appends s (after_all calls s).
Proof.
  induction calls as [|c calls IH]; intros s; [reflexivity|].
  cbn [after_all]. etrans; [apply appends_after|apply IH].
Qed.

(** ** The keys of the cache *)

Lemma keeps_run (R : relation Store) {A} (m : M A) s r s' :
  keeps R m → m s = (r, s') → R s s'.
Proof. intros Hkeeps Hrun. specialize (Hkeeps s). by rewrite Hrun in Hkeeps. Qed.

Ltac key_eq :=
  repeat match goal with
  | H : _ ∈ _ :: _ |- _ => apply elem_of_cons in H as [H|H]
  | H : _ ∈ [] |- _ => by apply elem_of_nil in H
  | H : _ +:+ _ = _ +:+ _ |- _ => cbv [String.append] in H; simplify_eq
  | H : _ = _ +:+ _ |- _ => cbv [String.append] in H; simplify_eq
  end.

Lemma video_keys_disjoint videoId other key :
  other ≠ videoId → key ∈ Cache.video_keys other →
  key ∉ Cache.video_keys videoId.
Proof.
  intros Hother Hkey Hin. unfold Cache.video_keys in *.
  repeat (apply elem_of_cons in Hkey as [Hkey|Hkey];
    [subst key; repeat (apply elem_of_cons in Hin as [Hin|Hin];
       [cbv [String.append] in Hin; simplify_eq|]);
     by apply elem_of_nil in Hin|]).
  by apply elem_of_nil in Hkey.
Qed.

Lemma manifest_key_not_video_key v videoId :
  Streaming.manifest_key v ∉ Cache.video_keys videoId.
Proof.
  intros Hin. unfold Cache.video_keys, Streaming.manifest_key in Hin.
  repeat (apply elem_of_cons in Hin as [Hin|Hin];
    [cbv [String.append] in Hin; simplify_eq|]).
  by apply elem_of_nil in Hin.
Qed.

Lemma playlist_key_not_video_key v q videoId :
  Streaming.playlist_key v q ∉ Cache.video_keys videoId.
Proof.
  intros Hin. unfold Cache.video_keys, Streaming.playlist_key in Hin.
  repeat (apply elem_of_cons in Hin as [Hin|Hin];
    [cbv [String.append] in Hin; simplify_eq|]).
  by apply elem_of_nil in Hin.
Qed.

Lemma processing_key_in_video_keys videoId :
  Cache.processing_key videoId ∈ Cache.video_keys videoId.
Proof. unfold Cache.video_keys, Cache.processing_key. set_solver. Qed.

(** What [confined] means for a reader of another video. *)
Lemma confined_other videoId other s s' :
  confined videoId s s' → other ≠ videoId →
  videos s' !! other = videos s !! other ∧
  renditions other s' = renditions other s ∧
  Cache.getCachedProcessingStatus other s'
    = Cache.getCachedProcessingStatus other s ∧
  (∀ v, Redis.get (Streaming.manifest_key v) s'
        = Redis.get (Streaming.manifest_key v) s) ∧
  (∀ v q, Redis.get (Streaming.playlist_key v q) s'
          = Redis.get (Streaming.playlist_key v q) s).
Proof.
  intros [Htables Hkeys] Hother.
  destruct (Htables other Hother) as [Hvideo Hrows].
  repeat split; try done.
  - unfold Cache.getCachedProcessingStatus. rewrite Hkeys; [done|].
    eapply video_keys_disjoint; [exact Hother|].
    apply processing_key_in_video_keys.
  - intros v. unfold Redis.get.
    by rewrite Hkeys by apply manifest_key_not_video_key.
  - intros v q. unfold Redis.get.
    by rewrite Hkeys by apply playlist_key_not_video_key.
Qed.

(** ** Processing one video and the rest of the catalogue *)

(** X1. Whatever the outcome of [processVideo] for one video, every other
    video keeps its row, its renditions and its cached status, and no
    cached manifest or playlist of any video is touched. *)
Theorem processVideo_confined_to_its_video
    (cfg : Config) (w : World) (videoId inputPath other : string)
    (s : Store) :
  other ≠ videoId →
  let s' := snd (Processing.processVideo cfg w videoId inputPath s) in
  videos s' !! other = videos s !! other ∧
  renditions other s' = renditions other s ∧
  Cache.getCachedProcessingStatus other s'
    = Cache.getCachedProcessingStatus other s ∧
  (∀ v, Redis.get (Streaming.manifest_key v) s'
        = Redis.get (Streaming.manifest_key v) s) ∧
  (∀ v q, Redis.get (Streaming.playlist_key v q) s'
          = Redis.get (Streaming.playlist_key v q) s).
Proof.
  intros Hother s'. apply (confined_other videoId); [|done].
  apply confined_processVideo.
Qed.

Lemma processVideo_confined_to_its_video_witness :
  let s' := snd (Processing.processVideo Scenario.cfg_local
                   Scenario.every_rung_succeeds "v1" "in.mp4"
                   Catalogue.two_videos) in
  videos s' !! "v2" = videos Catalogue.two_videos !! "v2" ∧
  renditions "v2" s' = [Catalogue.row_other] ∧
  length (renditions "v1" s') = 5%nat.
Proof.
  intros s'.
  destruct (processVideo_confined_to_its_video Scenario.cfg_local
              Scenario.every_rung_succeeds "v1" "in.mp4" "v2"
              Catalogue.two_videos) as (Hvideo & Hrows & _); [done|].
  split; [exact Hvideo|].
  split; [etrans; [exact Hrows|by vm_compute]|]. by vm_compute.
Defined.

(** X2. A poll of the cloud job of one video, whatever the job service
    answers, leaves every other video's row, renditions and cached status
    as they were, and touches no cached manifest or playlist. *)
Theorem checkAWSJobStatus_confined_to_its_video
    (cfg : Config) (w : World) (videoId other : string) (s : Store) :
  other ≠ videoId →
  let s' := snd (Processing.checkAWSJobStatus cfg w videoId s) in
  videos s' !! other = videos s !! other ∧
  renditions other s' = renditions other s ∧
  Cache.getCachedProcessingStatus other s'
    = Cache.getCachedProcessingStatus other s ∧
  (∀ v, Redis.get (Streaming.manifest_key v) s'
        = Redis.get (Streaming.manifest_key v) s) ∧
  (∀ v q, Redis.get (Streaming.playlist_key v q) s'
          = Redis.get (Streaming.playlist_key v q) s).
Proof.
  intros Hother s'. apply (confined_other videoId); [|done].
  apply confined_checkAWSJobStatus.
Qed.

Lemma checkAWSJobStatus_confined_to_its_video_witness :
  let s' := snd (Processing.checkAWSJobStatus Scenario.cfg_cloud
                   Scenario.job_finished "v1"
                   Catalogue.two_videos_submitted) in
  renditions "v2" s' = [Catalogue.row_other] ∧
  Cache.getCachedProcessingStatus "v2" s'
    = Some (mkStatusInfo "ready" 100 None None None) ∧
  length (renditions "v1" s') = 2%nat.
Proof.
  intros s'.
  destruct (checkAWSJobStatus_confined_to_its_video Scenario.cfg_cloud
              Scenario.job_finished "v1" "v2"
              Catalogue.two_videos_submitted) as (_ & Hrows & Hstatus & _);
    [done|].
  split; [etrans; [exact Hrows|by vm_compute]|].
  split; [etrans; [exact Hstatus|by vm_compute]|]. by vm_compute.
Defined.

(** ** The outcome of [processVideo] and the status it leaves *)

Lemma appends_video videoId s s' :
  appends s s' → is_Some (videos s !! videoId) →
  is_Some (videos s' !! videoId).
Proof. intros (Hdom & _) Hvideo. by apply Hdom. Qed.

Lemma invalidateVideoCache_run videoId s :
  Cache.invalidateVideoCache videoId s =
  (inr tt, with_redis (fun r => foldl (fun r key => delete key r) r
                                  (Cache.video_keys videoId)) s).
Proof. reflexivity. Qed.

Lemma lookup_foldl_delete (keys : list string) key :
  ∀ r : gmap string CacheEntry,
  foldl (fun r key => delete key r) r keys !! key =
  if decide (key ∈ keys) then None else r !! key.
Proof.
  induction keys as [|k keys IH]; intros r; [done|].
  cbn [foldl]. rewrite IH.
  destruct (decide (key = k)) as [->|Hk].
  - rewrite lookup_delete_eq.
    rewrite (decide_True (P := k ∈ k :: keys)) by apply list_elem_of_here.
    by destruct (decide _).
  - rewrite lookup_delete_ne by done.
    destruct (decide (key ∈ keys)) as [Hin|Hin].
    + by rewrite decide_True by (by apply list_elem_of_further).
    + rewrite decide_False; [done|].
      by intros [?|?]%elem_of_cons.
Qed.

Lemma processVideo_handler_run videoId error s :
  (Processing.updateVideoStatus videoId failed;;
   Cache.cacheProcessingStatus videoId
     (mkStatusInfo "failed" 0 None (Some error) None);;
   throw error : M unit) s =
  (inl error,
   with_redis (insert (Cache.processing_key videoId)
     (mkEntry Cache.PROCESSING_STATUS
        (CStatus (mkStatusInfo "failed" 0 None (Some error) None))))
     (with_videos (alter (fun v =>
        mkVideo failed (processing_job_id v) (duration v) (thumbnail_url v))
        videoId) s)).
Proof. reflexivity. Qed.

Lemma processVideo_settles
    (cfg : Config) (w : World) (videoId inputPath : string) (s : Store) :
  is_Some (videos s !! videoId) →
  match Processing.processVideo cfg w videoId inputPath s with
  | (inr _, s') =>
      status_of videoId s' = Some ready ∧
      Cache.getCachedProcessingStatus videoId s' = None
  | (inl error, s') =>
      status_of videoId s' = Some failed ∧
      Cache.getCachedProcessingStatus videoId s'
        = Some (mkStatusInfo "failed" 0 None (Some error) None)
  end.
Proof.
  intros Hvideo. unfold Processing.processVideo, try_catch.
  match goal with
  | |- context [match ?body s with _ => _ end] =>
      assert (keeps appends body) as Hbody;
      [|destruct (body s) as [[error|[]] s1] eqn:Hrun]
  end.
  { pose proof (appends_processWithFFmpeg cfg w).
    pose proof (appends_processWithAWSMediaConvert cfg w).
    unfold Processing.updateVideoStatus, Processing.getVideoMetadata,
      Processing.updateVideoMetadata, Cache.cacheProcessingStatus.
    appends_steps. }
  - apply (keeps_run _ _ _ _ _ Hbody) in Hrun as Hlawful.
    apply (appends_video videoId) in Hlawful as [v Hv]; [|done].
    rewrite processVideo_handler_run.
    unfold status_of, Cache.getCachedProcessingStatus.
    cbn [videos redis with_redis with_videos].
    by rewrite lookup_alter_eq, Hv, lookup_insert_eq.
  - clear Hbody.
    apply bind_inr_inv in Hrun as ([] & s2 & Hstep & Hrun).
    apply (keeps_run appends) in Hstep as H1;
      [|apply appends_update_video].
    apply bind_inr_inv in Hrun as ([] & s3 & Hstep3 & Hrun).
    apply (keeps_run appends) in Hstep3 as H2; [|apply appends_setex].
    apply bind_inr_inv in Hrun as (metadata & s4 & Hstep4 & Hrun).
    assert (s4 = s3) as ->.
    { unfold Processing.getVideoMetadata in Hstep4.
      destruct (ffprobe w inputPath); [done|]. by injection Hstep4. }
    apply bind_inr_inv in Hrun as ([] & s5 & Hstep5 & Hrun).
    apply (keeps_run appends) in Hstep5 as H3;
      [|apply appends_update_video].
    apply bind_inr_inv in Hrun as ([] & s6 & Hstep6 & Hrun).
    assert (appends s5 s6) as H4.
    { destruct (_ && _).
      - eapply keeps_run; [apply appends_processWithAWSMediaConvert|done].
      - eapply keeps_run; [apply appends_processWithFFmpeg|done]. }
    assert (appends s s6) as Hlawful by (do 3 (etrans; [eassumption|]); done).
    apply (appends_video videoId) in Hlawful as [v Hv]; [|done].
    apply bind_inr_inv in Hrun as ([] & s7 & Hstep7 & Hrun).
    injection Hstep7 as <-.
    apply bind_inr_inv in Hrun as ([] & s8 & Hstep8 & Hrun).
    injection Hstep8 as <-.
    rewrite invalidateVideoCache_run in Hrun.
    apply (f_equal snd) in Hrun. cbn [snd] in Hrun. subst s1.
    unfold status_of, Cache.getCachedProcessingStatus. cbn [videos redis with_redis with_videos].
    split.
    + by rewrite lookup_alter_eq, Hv.
    + rewrite lookup_foldl_delete.
      by rewrite decide_True by apply processing_key_in_video_keys.
Qed.

(** X4. For a video that exists, the outcome of [processVideo] and the
    status it leaves agree: when it returns, the video is [ready] and its
    cached status has been dropped; when it rejects, the video is [failed]
    and the cached status carries progress 0 and the very error of the
    rejection.  It never ends in [uploading] or [processing]. *)
Theorem processVideo_outcome_matches_status
    (cfg : Config) (w : World) (videoId inputPath : string) (s : Store) :
  is_Some (videos s !! videoId) →
  match Processing.processVideo cfg w videoId inputPath s with
  | (inr _, s') =>
      status_of videoId s' = Some ready ∧
      Cache.getCachedProcessingStatus videoId s' = None
  | (inl error, s') =>
      status_of videoId s' = Some failed ∧
      Cache.getCachedProcessingStatus videoId s'
        = Some (mkStatusInfo "failed" 0 None (Some error) None)
  end.
Proof. apply processVideo_settles. Qed.

Lemma processVideo_outcome_matches_status_witness :
  status_of "v1"
    (snd (Processing.processVideo Scenario.cfg_local
            Scenario.every_rung_succeeds "v1" "in.mp4" Scenario.uploaded))
    = Some ready.
Proof.
  pose proof (processVideo_outcome_matches_status Scenario.cfg_local
                Scenario.every_rung_succeeds "v1" "in.mp4"
                Scenario.uploaded) as H.
  destruct (Processing.processVideo _ _ _ _ _) as [[error|[]] s'] eqn:Hrun.
  - by vm_compute in Hrun.
  - apply H. vm_compute. eauto.
Defined.

(** ** The outcomes of a poll *)

Section poll_outcomes.
Variables (cfg : Config) (w : World) (videoId : string).

Lemma checkAWSJobStatus_unfold s :
  Processing.checkAWSJobStatus cfg w videoId s =
  match job_of videoId s with
  | None => (inl "No processing job found for this video", s)
  | Some j =>
      match get_job w j with
      | None => (inl "Failed to get job status", s)
      | Some job =>
          let s1 :=
            with_redis (insert (Cache.processing_key videoId)
              (mkEntry Cache.PROCESSING_STATUS
                 (CStatus (polled_status j job)))) s in
          if decide (job_status job = COMPLETE) then
            match for_each (planned_rows cfg videoId job)
                    Db.insert_variant s1 with
            | (inl e, s2) => (inl e, s2)
            | (inr _, s2) =>
                (inr job,
                 with_redis (fun r => foldl (fun r key => delete key r) r
                                        (Cache.video_keys videoId))
                   (with_videos (alter (fun v =>
                      mkVideo ready (processing_job_id v) (duration v)
                        (thumbnail_url v)) videoId) s2))
            end
          else if decide (job_status job = ERROR) then
            (inr job,
             with_videos (alter (fun v =>
               mkVideo failed (processing_job_id v) (duration v)
                 (thumbnail_url v)) videoId) s1)
          else (inr job, s1)
      end
  end.
Proof.
  unfold Processing.checkAWSJobStatus, try_catch, job_of.
  unfold mbind at 1, M_bind at 1, bind at 1. cbn [gets].
  destruct (videos s !! videoId) as [v|]; [|done]. cbn [mbind option_bind].
  destruct (processing_job_id v) as [j|]; [|done]. cbn [mbind option_bind].
  destruct (truthy j); [|done].
  unfold MediaConvert.getJobStatus.
  destruct (get_job w j) as [job|]; [|done].
  unfold mbind at 1, M_bind at 1, bind at 1. cbn [mret M_ret ret].
  unfold mbind at 1, M_bind at 1, bind at 1.
  unfold Cache.cacheProcessingStatus at 1, Redis.setex, modify.
  cbn zeta.
  unfold mbind at 1, M_bind at 1, bind at 1.
  destruct (decide (job_status job = COMPLETE)) as [Hdone|Hnot].
  - unfold mbind at 1, M_bind at 1, bind at 1.
    rewrite updateVideoVariantsFromAWS_as_inserts.
    by destruct (for_each _ _ _) as [[e|[]] s2].
  - by destruct (decide (job_status job = ERROR)).
Qed.

Lemma inserts_run rows : ∀ s,
  is_Some (videos s !! videoId) →
  Forall (fun r => video_id r = videoId) rows →
  insertable videoId rows s →
  for_each rows Db.insert_variant s =
  (inr tt, with_variants (fun table => (table ++ rows)%list) s).
Proof.
  induction rows as [|r rows IH]; intros s Hvideo Hid [Hnodup Hfresh].
  - cbn. destruct s. unfold with_variants. cbn. by rewrite app_nil_r.
  - apply Forall_cons in Hid as [Hr Hid].
    apply Forall_cons in Hfresh as [Hfr Hfresh].
    cbn [map] in Hnodup. apply NoDup_cons in Hnodup as [Hnotin Hnodup].
    cbn [for_each]. unfold mbind, M_bind, bind.
    unfold Db.insert_variant at 1. rewrite Hr.
    destruct Hvideo as [v Hv]. rewrite Hv, Hfr.
    rewrite IH; try done.
    + unfold with_variants. cbn. by rewrite <- app_assoc.
    + split; [done|]. cbn.
      apply Forall_forall. intros r' Hr'.
      apply find_variant_None. apply Forall_app. split.
      * apply find_variant_None. eapply Forall_forall in Hfresh; eauto.
      * constructor; [|constructor]. intros [_ Hq].
        apply Hnotin. rewrite Hq. apply list_elem_of_fmap. eauto.
Qed.

End poll_outcomes.

Lemma planned_rows_video cfg videoId job :
  Forall (fun r => video_id r = videoId) (planned_rows cfg videoId job).
Proof.
  unfold planned_rows. destruct (outputGroupDetails job) as [groups|]; [|done].
  apply Forall_flat_map. apply Forall_forall. intros g _.
  destruct (OutputDetails g) as [outputs|]; [|done].
  apply Forall_forall. intros r Hr.
  apply list_elem_of_omap in Hr as (output & _ & Hrow).
  unfold planned_row in Hrow.
  destruct (OutputFilePaths output) as [[|p ?]|]; try done.
  destruct (Processing.extractQualityFromPath cfg p); [|done].
  by injection Hrow as <-.
Qed.

(** X5. A poll for a video that does not exist, has no job id or has an
    empty job id rejects with "No processing job found for this video",
    and one whose job the job service cannot describe rejects with
    "Failed to get job status"; in both cases nothing is written. *)
Theorem checkAWSJobStatus_without_answer
    (cfg : Config) (w : World) (videoId : string) (s : Store) :
  job_of videoId s ≫= get_job w = None →
  Processing.checkAWSJobStatus cfg w videoId s =
  (inl (match job_of videoId s with
        | Some _ => "Failed to get job status"
        | None => "No processing job found for this video"
        end), s).
Proof.
  intros Hnone. rewrite checkAWSJobStatus_unfold.
  destruct (job_of videoId s) as [j|]; [|done]. cbn in Hnone.
  by rewrite Hnone.
Qed.

Lemma checkAWSJobStatus_without_answer_witness :
  Processing.checkAWSJobStatus Scenario.cfg_cloud Scenario.job_finished
    "v1" Scenario.uploaded =
  (inl "No processing job found for this video", Scenario.uploaded).
Proof.
  apply (checkAWSJobStatus_without_answer Scenario.cfg_cloud
           Scenario.job_finished "v1" Scenario.uploaded).
  reflexivity.
Defined.

(** X6. When the job service reports the job of a video as failed, the
    poll returns that answer, marks the video [failed], adds no rendition
    and leaves the answer, with its error message, as the cached status. *)
Theorem checkAWSJobStatus_job_failed
    (cfg : Config) (w : World) (videoId j : string) (job : MediaConvertJob)
    (s : Store) :
  job_of videoId s = Some j → get_job w j = Some job →
  job_status job = ERROR →
  ∃ s',
    Processing.checkAWSJobStatus cfg w videoId s = (inr job, s') ∧
    status_of videoId s' = Some failed ∧
    video_variants s' = video_variants s ∧
    Cache.getCachedProcessingStatus videoId s'
      = Some (mkStatusInfo "ERROR" (progress job) (Some j)
                (errorMessage job) None).
Proof.
  intros Hjob Hanswer Hfailed. rewrite checkAWSJobStatus_unfold.
  rewrite Hjob, Hanswer. cbn zeta. rewrite Hfailed.
  rewrite decide_False by done. rewrite decide_True by done.
  eexists. split; [done|].
  unfold job_of in Hjob.
  destruct (videos s !! videoId) as [v|] eqn:Hv; [|done].
  unfold status_of, Cache.getCachedProcessingStatus, polled_status.
  cbn [videos redis video_variants with_redis with_videos].
  rewrite lookup_alter_eq, Hv, lookup_insert_eq, Hfailed. done.
Qed.

Lemma checkAWSJobStatus_job_failed_witness :
  ∃ s',
    Processing.checkAWSJobStatus Scenario.cfg_cloud Catalogue.job_failed
      "v1" Scenario.submitted = (inr Catalogue.failed_job, s') ∧
    status_of "v1" s' = Some failed ∧
    video_variants s' = video_variants Scenario.submitted ∧
    Cache.getCachedProcessingStatus "v1" s'
      = Some (mkStatusInfo "ERROR" 40 (Some "job-1")
                (Some "Unsupported codec") None).
Proof.
  apply (checkAWSJobStatus_job_failed Scenario.cfg_cloud
           Catalogue.job_failed "v1" "job-1" Catalogue.failed_job
           Scenario.submitted); reflexivity.
Defined.

(** X7. While the job service reports the job as submitted, progressing
    or canceled, the poll returns that answer and only refreshes the
    cached status: no video row and no rendition changes. *)
Theorem checkAWSJobStatus_job_pending
    (cfg : Config) (w : World) (videoId j : string) (job : MediaConvertJob)
    (s : Store) :
  job_of videoId s = Some j → get_job w j = Some job →
  job_status job ≠ COMPLETE → job_status job ≠ ERROR →
  ∃ s',
    Processing.checkAWSJobStatus cfg w videoId s = (inr job, s') ∧
    videos s' = videos s ∧
    video_variants s' = video_variants s ∧
    Cache.getCachedProcessingStatus videoId s'
      = Some (polled_status j job) ∧
    ∀ key, key ≠ Cache.processing_key videoId →
           redis s' !! key = redis s !! key.
Proof.
  intros Hjob Hanswer Hnot Hnor. rewrite checkAWSJobStatus_unfold.
  rewrite Hjob, Hanswer. cbn zeta.
  rewrite !decide_False by done.
  eexists. split; [done|].
  unfold Cache.getCachedProcessingStatus.
  cbn [videos redis video_variants with_redis with_videos].
  rewrite lookup_insert_eq. repeat split; try done.
  intros key Hkey. by rewrite lookup_insert_ne.
Qed.

Lemma checkAWSJobStatus_job_pending_witness :
  ∃ s',
    Processing.checkAWSJobStatus Scenario.cfg_cloud
      Catalogue.job_progressing "v1" Scenario.submitted
      = (inr Catalogue.progressing_job, s') ∧
    videos s' = videos Scenario.submitted ∧
    video_variants s' = video_variants Scenario.submitted.
Proof.
  destruct (checkAWSJobStatus_job_pending Scenario.cfg_cloud
              Catalogue.job_progressing "v1" "job-1"
              Catalogue.progressing_job Scenario.submitted)
    as (s' & Hrun & Hvideos & Hrows & _); try done.
  by exists s'.
Defined.

(** X8. When the job service reports the job as complete and the rows of
    its outputs are for pairwise different labels the video does not have
    yet, the poll returns the answer, appends exactly those rows in the
    order of the outputs, marks the video [ready] and drops its cached
    status. *)
Theorem checkAWSJobStatus_job_complete
    (cfg : Config) (w : World) (videoId j : string) (job : MediaConvertJob)
    (s : Store) :
  job_of videoId s = Some j → get_job w j = Some job →
  job_status job = COMPLETE →
  insertable videoId (planned_rows cfg videoId job) s →
  ∃ s',
    Processing.checkAWSJobStatus cfg w videoId s = (inr job, s') ∧
    video_variants s'
      = (video_variants s ++ planned_rows cfg videoId job)%list ∧
    status_of videoId s' = Some ready ∧
    Cache.getCachedProcessingStatus videoId s' = None.
Proof.
  intros Hjob Hanswer Hdone Hrows. rewrite checkAWSJobStatus_unfold.
  rewrite Hjob, Hanswer. cbn zeta. rewrite decide_True by done.
  unfold job_of in Hjob.
  destruct (videos s !! videoId) as [v|] eqn:Hv; [|done].
  rewrite (inserts_run videoId); [| |apply planned_rows_video|done].
  2: { cbn. by rewrite Hv. }
  eexists. split; [done|].
  unfold status_of, Cache.getCachedProcessingStatus.
  cbn [videos redis video_variants with_redis with_videos with_variants].
  rewrite lookup_alter_eq, Hv, lookup_foldl_delete.
  rewrite decide_True by apply processing_key_in_video_keys. done.
Qed.

Lemma checkAWSJobStatus_job_complete_witness :
  ∃ s',
    Processing.checkAWSJobStatus Scenario.cfg_cloud Scenario.job_finished
      "v1" Scenario.submitted = (inr Scenario.finished_job, s') ∧
    map quality (video_variants s') = ["720p"; "480p"] ∧
    status_of "v1" s' = Some ready.
Proof.
  destruct (checkAWSJobStatus_job_complete Scenario.cfg_cloud
              Scenario.job_finished "v1" "job-1" Scenario.finished_job
              Scenario.submitted)
    as (s' & Hrun & Hrows & Hstatus & _); try done.
  - split.
    + apply (bool_decide_unpack _). by vm_compute.
    + vm_compute. repeat constructor.
  - exists s'. split; [done|]. split; [|done]. by rewrite Hrows.
Defined.

(** ** The label of a rung in the path of an output *)

Lemma list_ascii_of_append (a b : string) :
  String.list_ascii_of_string (a +:+ b) =
  (String.list_ascii_of_string a ++ String.list_ascii_of_string b)%list.
Proof.
  induction a as [|c a IH]; [done|].
  change (c :: String.list_ascii_of_string (a +:+ b)
          = c :: (String.list_ascii_of_string a
                  ++ String.list_ascii_of_string b)%list).
  by rewrite IH.
Qed.

Lemma string_of_list_ascii_app (a b : list Ascii.ascii) :
  String.string_of_list_ascii (a ++ b) =
  String.string_of_list_ascii a +:+ String.string_of_list_ascii b.
Proof.
  induction a as [|c a IH]; [done|].
  change (String c (String.string_of_list_ascii (a ++ b))
          = String c (String.string_of_list_ascii a
                      +:+ String.string_of_list_ascii b)).
  by rewrite IH.
Qed.

Lemma strip_prefix_app pre l :
  Processing.strip_prefix pre (pre ++ l) = Some l.
Proof.
  induction pre as [|c pre IH]; [done|].
  cbn. by rewrite Ascii.eqb_refl.
Qed.

Lemma strip_prefix_Some pre : ∀ l rest,
  Processing.strip_prefix pre l = Some rest → l = (pre ++ rest)%list.
Proof.
  induction pre as [|c pre IH]; intros l rest H.
  - cbn in H. by injection H as ->.
  - destruct l as [|c' l]; [done|]. cbn in H.
    destruct (Ascii.eqb c c') eqn:Hc; [|done].
    apply Ascii.eqb_eq in Hc as <-. by rewrite (IH _ _ H).
Qed.

Lemma digits_of_app ds rest :
  forallb Processing.is_digit ds = true →
  match rest with c :: _ => Processing.is_digit c | [] => false end = false →
  Processing.digits_of (ds ++ rest) = ds.
Proof.
  intros Hds Hrest. induction ds as [|c ds IH].
  - destruct rest as [|c rest]; [done|]. cbn. by rewrite Hrest.
  - cbn in Hds. apply andb_true_iff in Hds as [Hc Hds].
    cbn. rewrite Hc. by rewrite IH.
Qed.

Lemma digits_of_prefix l :
  ∃ rest, l = (Processing.digits_of l ++ rest)%list ∧
          forallb Processing.is_digit (Processing.digits_of l) = true.
Proof.
  induction l as [|c l (rest & Hl & Hds)]; [by exists []|].
  cbn. destruct (Processing.is_digit c) eqn:Hc.
  - exists rest. cbn. rewrite Hc, Hds. by rewrite <- Hl.
  - by exists (c :: l).
Qed.

Lemma match_quality_label pre label :
  is_rung_label label = true → ends_with_digit pre = false →
  Processing.match_quality (pre +:+ label +:+ ".m3u8") = Some label.
Proof.
  unfold is_rung_label, ends_with_digit, Processing.match_quality.
  intros Hlabel Hpre.
  rewrite !list_ascii_of_append, !rev_app_distr.
  destruct (rev (String.list_ascii_of_string label)) as [|c ds] eqn:Hrev;
    [done|].
  apply andb_true_iff in Hlabel as [Hlabel Hds].
  apply andb_true_iff in Hlabel as [Hc Hnonempty].
  apply Ascii.eqb_eq in Hc as ->.
  rewrite <- app_assoc.
  change (rev (String.list_ascii_of_string ".m3u8") ++ (_ :: ds) ++ ?l)%list
    with (rev (String.list_ascii_of_string "p.m3u8") ++ (ds ++ l))%list.
  rewrite strip_prefix_app, digits_of_app; [|done|done].
  destruct ds as [|d ds]; [done|]. f_equal.
  apply (f_equal (@rev _)) in Hrev. rewrite rev_involutive in Hrev.
  rewrite <- (String.string_of_list_ascii_of_string label), Hrev.
  change (rev (?c :: d :: ds)) with (rev (d :: ds) ++ [c])%list.
  by rewrite string_of_list_ascii_app.
Qed.

Lemma match_quality_Some path label :
  Processing.match_quality path = Some label →
  is_rung_label label = true ∧
  ∃ pre, path = pre +:+ label +:+ ".m3u8".
Proof.
  unfold Processing.match_quality. intros H.
  destruct (Processing.strip_prefix _ _) as [before|] eqn:Hstrip; [|done].
  apply strip_prefix_Some in Hstrip.
  destruct (digits_of_prefix before) as (rest & Hbefore & Hds).
  destruct (Processing.digits_of before) as [|d ds] eqn:Hdigits; [done|].
  injection H as <-. split.
  - unfold is_rung_label.
    rewrite list_ascii_of_append, rev_app_distr.
    rewrite String.list_ascii_of_string_of_list_ascii.
    change (rev ds ++ [d])%list with (rev (d :: ds)).
    rewrite rev_involutive.
    cbn [String.list_ascii_of_string rev app]. by rewrite Hds.
  - exists (String.string_of_list_ascii (rev rest)).
    rewrite <- (String.string_of_list_ascii_of_string path).
    rewrite <- (rev_involutive (String.list_ascii_of_string path)).
    rewrite Hstrip, Hbefore, !rev_app_distr.
    change (rev (d :: ds)) with (rev ds ++ [d])%list.
    rewrite !string_of_list_ascii_app, !append_assoc.
    by rewrite rev_involutive, String.string_of_list_ascii_of_string.
Qed.

Lemma find_by_name (qs : list VideoQuality) q :
  NoDup (map name qs) → q ∈ qs →
  List.find (fun q' => bool_decide (name q' = name q)) qs = Some q.
Proof.
  induction qs as [|q' qs IH]; intros Hnodup Hin.
  - by apply elem_of_nil in Hin.
  - cbn [map] in Hnodup. apply NoDup_cons in Hnodup as [Hnotin Hnodup].
    cbn [List.find]. apply elem_of_cons in Hin as [->|Hin].
    + by rewrite bool_decide_eq_true_2.
    + rewrite bool_decide_eq_false_2; [by apply IH|].
      intros Heq. apply Hnotin. rewrite Heq.
      apply list_elem_of_fmap. eauto.
Qed.

(** X9. The path of an output that ends in the label of a rung of the
    ladder followed by [.m3u8] is read back as that very rung, provided
    the labels of the ladder are pairwise different, the label is digits
    followed by [p], and what precedes it does not end in a digit. *)
Theorem extractQualityFromPath_reads_label_back
    (cfg : Config) (q : VideoQuality) (pre : string) :
  q ∈ Processing.qualities cfg →
  NoDup (map name (Processing.qualities cfg)) →
  is_rung_label (name q) = true →
  ends_with_digit pre = false →
  Processing.extractQualityFromPath cfg (pre +:+ name q +:+ ".m3u8")
    = Some q.
Proof.
  intros Hin Hnodup Hlabel Hpre. unfold Processing.extractQualityFromPath.
  rewrite match_quality_label by done. by apply find_by_name.
Qed.

Lemma extractQualityFromPath_reads_label_back_witness :
  Processing.extractQualityFromPath Scenario.cfg_cloud
    ("s3://media/videos/v1/outputs/source_" +:+ "720p" +:+ ".m3u8")
    = Some (mkQuality "720p" 2500 21 1280 720).
Proof.
  apply (extractQualityFromPath_reads_label_back Scenario.cfg_cloud
           (mkQuality "720p" 2500 21 1280 720)
           "s3://media/videos/v1/outputs/source_").
  - vm_compute. set_solver.
  - apply (bool_decide_unpack _). by vm_compute.
  - reflexivity.
  - reflexivity.
Defined.

(** X10. Whenever a rung is read from a path, it is a rung of the ladder,
    its label is digits followed by [p], and the path ends in that label
    followed by [.m3u8]. *)
Theorem extractQualityFromPath_sound
    (cfg : Config) (path : string) (q : VideoQuality) :
  Processing.extractQualityFromPath cfg path = Some q →
  q ∈ Processing.qualities cfg ∧
  is_rung_label (name q) = true ∧
  ∃ pre, path = pre +:+ name q +:+ ".m3u8".
Proof.
  unfold Processing.extractQualityFromPath. intros H.
  destruct (Processing.match_quality path) as [label|] eqn:Hmatch; [|done].
  apply find_some in H as [Hin Hname].
  apply bool_decide_eq_true_1 in Hname. rewrite Hname.
  split; [by apply list_elem_of_In|].
  by apply match_quality_Some.
Qed.

Lemma extractQualityFromPath_sound_witness :
  mkQuality "480p" 1200 23 854 480 ∈ Processing.qualities Scenario.cfg_cloud.
Proof.
  apply (extractQualityFromPath_sound Scenario.cfg_cloud
           "s3://media/videos/v1/outputs/source_480p.m3u8"
           (mkQuality "480p" 1200 23 854 480)).
  reflexivity.
Defined.

(** ** The selection of a rendition *)

Lemma last_below_all (variants : list VariantRow) low :
  StronglySorted Db.bitrate_desc variants → last variants = Some low →
  Forall (fun r => v_bitrate low <= v_bitrate r) variants.
Proof.
  induction 1 as [|v variants Hsorted IH Hbelow]; intros Hlast; [done|].
  destruct variants as [|u variants].
  - cbn in Hlast. injection Hlast as ->. constructor; [lia|done].
  - rewrite last_cons_cons in Hlast. specialize (IH Hlast).
    constructor; [|done].
    assert (low ∈ u :: variants) as Hin.
    { apply last_Some in Hlast as [l' ->]. apply elem_of_app. right.
      apply list_elem_of_here. }
    eapply Forall_forall in Hbelow; [|exact Hin]. exact Hbelow.
Qed.

(** X11. For a video with renditions, [getOptimalQuality] answers with
    one of the two ends of the ladder, whatever the bandwidth: with the
    label of a rendition of the lowest bitrate when the highest bitrate
    fits into 80% of the bandwidth, and with the label of a rendition of
    the highest bitrate (or "360p", should that label be empty) when it
    does not.  The store is left as it was. *)
Theorem getOptimalQuality_picks_an_end
    (videoId : string) (userBandwidth : Z) (s : Store) :
  renditions videoId s ≠ [] →
  ∃ top low,
    top ∈ renditions videoId s ∧ low ∈ renditions videoId s ∧
    Forall (fun r => v_bitrate low <= v_bitrate r <= v_bitrate top)
      (renditions videoId s) ∧
    Streaming.getOptimalQuality videoId userBandwidth s =
    (inr (if Streaming.fits (v_bitrate top) userBandwidth
          then quality low
          else if truthy (quality top) then quality top else "360p"), s).
Proof.
  intros Hsome. rewrite getOptimalQuality_run.
  pose proof (order_by_bitrate_desc_sorted (renditions videoId s)) as Hsorted.
  pose proof (order_by_bitrate_desc_perm (renditions videoId s)) as Hperm.
  destruct (Db.order_by_bitrate_desc (renditions videoId s))
    as [|top rest] eqn:Hordered.
  { symmetry in Hperm. by apply Permutation_nil_r in Hperm. }
  destruct (last (top :: rest)) as [low|] eqn:Hlast.
  2: { by apply last_None in Hlast. }
  exists top, low.
  assert (low ∈ top :: rest) as Hlow.
  { apply last_Some in Hlast as [l' ->]. apply elem_of_app. right.
    apply list_elem_of_here. }
  split; [rewrite <- Hperm; apply list_elem_of_here|].
  split; [by rewrite <- Hperm|].
  split.
  - rewrite <- Hperm.
    pose proof Hsorted as Hstrong.
    apply Sorted_StronglySorted in Hstrong; [|apply _].
    pose proof (last_below_all _ _ Hstrong Hlast) as Hmin.
    apply StronglySorted_inv in Hstrong as [_ Hmax].
    apply Forall_forall. intros r Hr.
    eapply Forall_forall in Hmin; [|exact Hr]. split; [done|].
    apply elem_of_cons in Hr as [->|Hr]; [lia|].
    eapply Forall_forall in Hmax; [|exact Hr]. exact Hmax.
  - rewrite (scan_descending _ _ _ _ Hsorted), Hlast. cbn [fmap default].
    by destruct (Streaming.fits _ _).
Qed.

Lemma getOptimalQuality_picks_an_end_witness :
  ∃ top low,
    top ∈ renditions "v1" Scenario.two_renditions ∧
    low ∈ renditions "v1" Scenario.two_renditions ∧
    Forall (fun r => v_bitrate low <= v_bitrate r <= v_bitrate top)
      (renditions "v1" Scenario.two_renditions) ∧
    Streaming.getOptimalQuality "v1" 4000 Scenario.two_renditions =
    (inr (if Streaming.fits (v_bitrate top) 4000
          then quality low
          else if truthy (quality top) then quality top else "360p"),
     Scenario.two_renditions).
Proof.
  apply (getOptimalQuality_picks_an_end "v1" 4000 Scenario.two_renditions).
  by vm_compute.
Defined.

(** ** The cached manifest across calls *)

Lemma manifest_truthy variants :
  truthy (fold_left Streaming.add_variant variants Streaming.manifest_header)
  = true.
Proof. by rewrite manifest_renders_reference. Qed.

Lemma generateHLSManifest_served videoId s text s' :
  Streaming.generateHLSManifest videoId s = (inr text, s') →
  if_truthy (Redis.get (Streaming.manifest_key videoId) s') = Some text.
Proof.
  intros Hrun.
  destruct (if_truthy (Redis.get (Streaming.manifest_key videoId) s))
    as [cached|] eqn:Hget.
  { rewrite (generateHLSManifest_hit _ _ _ Hget) in Hrun. by simplify_eq. }
  destruct (decide (renditions videoId s = [])) as [Hnone|Hsome].
  { by rewrite (generateHLSManifest_empty _ _ Hget Hnone) in Hrun. }
  rewrite (generateHLSManifest_miss _ _ Hget Hsome) in Hrun.
  cbn zeta in Hrun. injection Hrun as <- <-.
  unfold Redis.get. cbn [redis with_redis]. rewrite lookup_insert_eq.
  unfold if_truthy. by rewrite manifest_truthy.
Qed.

Lemma after_keeps_manifest_served c videoId text s :
  if_truthy (Redis.get (Streaming.manifest_key videoId) s) = Some text →
  if_truthy (Redis.get (Streaming.manifest_key videoId) (after c s))
    = Some text.
Proof.
  intros Hserved.
  destruct c as [cfg w v inputPath|cfg w v|v|v q|v b]; cbn [after].
  - destruct (steady_processVideo cfg w v inputPath s) as [-> _]. done.
  - destruct (steady_checkAWSJobStatus cfg w v s) as [-> _]. done.
  - destruct (decide (v = videoId)) as [->|Hv].
    { by rewrite (generateHLSManifest_hit _ _ _ Hserved). }
    destruct (if_truthy (Redis.get (Streaming.manifest_key v) s))
      as [cached|] eqn:Hget.
    { by rewrite (generateHLSManifest_hit _ _ _ Hget). }
    destruct (decide (renditions v s = [])) as [Hnone|Hsome].
    { by rewrite (generateHLSManifest_empty _ _ Hget Hnone). }
    rewrite (generateHLSManifest_miss _ _ Hget Hsome). cbn [snd].
    rewrite <- Hserved. f_equal. unfold Redis.get. cbn [redis with_redis].
    rewrite lookup_insert_ne; [done|].
    unfold Streaming.manifest_key. intros Heq.
    by apply (inj (String.app "manifest:")) in Heq.
  - destruct (steady_generateQualityPlaylist v q s) as [-> _]. done.
  - done.
Qed.

(** X12. Once [generateHLSManifest] has returned a manifest for a video,
    it goes on returning that very text whatever calls of the services
    come in between, reruns of the processing and polls that add
    renditions included: no call drops or rewrites the entry under the
    manifest key (expiry of the entry is outside the model). *)
Theorem manifest_served_is_kept
    (videoId text : string) (calls : list Call) (s s' : Store) :
  Streaming.generateHLSManifest videoId s = (inr text, s') →
  fst (Streaming.generateHLSManifest videoId (after_all calls s'))
    = inr text.
Proof.
  intros Hrun. apply generateHLSManifest_served in Hrun.
  revert s' Hrun. clear s.
  induction calls as [|c calls IH]; intros s Hserved; cbn [after_all].
  - by rewrite (generateHLSManifest_hit _ _ _ Hserved).
  - by apply IH, after_keeps_manifest_served.
Qed.

Lemma manifest_served_is_kept_witness :
  let s := Scenario.two_renditions in
  let text := Reference.master_manifest [Scenario.row_1080p; Scenario.row_480p] in
  let calls :=
    [ ProcessVideo Scenario.cfg_local Scenario.every_rung_succeeds
        "v1" "in.mp4";
      GenerateQualityPlaylist "v1" "720p";
      GetOptimalQuality "v1" 3000 ] in
  length (renditions "v1"
    (after_all calls (snd (Streaming.generateHLSManifest "v1" s)))) = 5%nat ∧
  fst (Streaming.generateHLSManifest "v1"
         (after_all calls (snd (Streaming.generateHLSManifest "v1" s))))
    = inr text.
Proof.
  intros s text calls. split; [by vm_compute|].
  apply (manifest_served_is_kept "v1" text calls s). by vm_compute.
Defined.

(** ** Playlists of renditions *)

(** X13. [generateQualityPlaylist] rejects exactly when nothing usable is
    cached under the key of the playlist and the video has no rendition of
    that label; it then names the label and the video and writes
    nothing. *)
Theorem generateQualityPlaylist_rejects_iff
    (videoId q : string) (s : Store) :
  match Streaming.generateQualityPlaylist videoId q s with
  | (inl error, s') =>
      if_truthy (Redis.get (Streaming.playlist_key videoId q) s) = None ∧
      Db.find_variant videoId q (video_variants s) = None ∧
      error = "Quality " +:+ q +:+ " not found for video " +:+ videoId ∧
      s' = s
  | (inr _, _) =>
      is_Some (if_truthy (Redis.get (Streaming.playlist_key videoId q) s)) ∨
      is_Some (Db.find_variant videoId q (video_variants s))
  end.
Proof.
  unfold Streaming.generateQualityPlaylist.
  rewrite (bind_inr _ _ s
             (Redis.get (Streaming.playlist_key videoId q) s) s); [|done].
  destruct (if_truthy _) as [text|] eqn:Hget.
  - cbn. left. by eexists.
  - rewrite (bind_inr _ _ s
               (Db.find_variant videoId q (video_variants s)) s); [|done].
    destruct (Db.find_variant _ _ _) as [row|] eqn:Hrow.
    + cbn. right. by eexists.
    + done.
Qed.

(** ** [cache.service.ts] *)

(** X14. [invalidateVideoCache] returns, leaves both tables alone and
    drops the cached status of its video; the cached status of every
    other video and the cached manifests and playlists of all videos,
    its own video included, stay as they are. *)
Theorem invalidateVideoCache_exact (videoId : string) (s : Store) :
  let s' := snd (Cache.invalidateVideoCache videoId s) in
  fst (Cache.invalidateVideoCache videoId s) = inr tt ∧
  videos s' = videos s ∧ video_variants s' = video_variants s ∧
  (∀ key, redis s' !! key =
          if decide (key ∈ Cache.video_keys videoId) then None
          else redis s !! key) ∧
  Cache.getCachedProcessingStatus videoId s' = None ∧
  (∀ v, Redis.get (Streaming.manifest_key v) s'
        = Redis.get (Streaming.manifest_key v) s) ∧
  (∀ v q, Redis.get (Streaming.playlist_key v q) s'
          = Redis.get (Streaming.playlist_key v q) s).
Proof.
  intros s'. subst s'. rewrite invalidateVideoCache_run.
  cbn [fst snd videos video_variants with_redis].
  assert (∀ key,
    redis (with_redis (fun r => foldl (fun r key => delete key r) r
                                  (Cache.video_keys videoId)) s) !! key =
    if decide (key ∈ Cache.video_keys videoId) then None
    else redis s !! key) as Hkeys.
  { intros key. cbn [redis with_redis]. apply lookup_foldl_delete. }
  repeat split; try done.
  - unfold Cache.getCachedProcessingStatus. rewrite Hkeys.
    by rewrite decide_True by apply processing_key_in_video_keys.
  - intros v. unfold Redis.get. rewrite Hkeys.
    by rewrite decide_False by apply manifest_key_not_video_key.
  - intros v q. unfold Redis.get. rewrite Hkeys.
    by rewrite decide_False by apply playlist_key_not_video_key.
Qed.

(** X15. A status cached for one video is what is read back for that
    video, and it never answers for another video. *)
Theorem cacheProcessingStatus_read_back
    (videoId other : string) (st : StatusInfo) (s : Store) :
  other ≠ videoId →
  let s' := snd (Cache.cacheProcessingStatus videoId st s) in
  Cache.getCachedProcessingStatus videoId s' = Some st ∧
  Cache.getCachedProcessingStatus other s'
    = Cache.getCachedProcessingStatus other s.
Proof.
  intros Hother s'. unfold Cache.getCachedProcessingStatus. subst s'.
  cbn [snd Cache.cacheProcessingStatus Redis.setex modify redis with_redis].
  rewrite lookup_insert_eq. split; [done|].
  rewrite lookup_insert_ne; [done|].
  unfold Cache.processing_key. intros Heq.
  by apply (inj (String.app "video:processing:")) in Heq.
Qed.

Lemma cacheProcessingStatus_read_back_witness :
  let st := mkStatusInfo "processing" 10 None None None in
  let s' := snd (Cache.cacheProcessingStatus "v1" st Catalogue.two_videos) in
  Cache.getCachedProcessingStatus "v1" s' = Some st ∧
  Cache.getCachedProcessingStatus "v2" s'
    = Some (mkStatusInfo "ready" 100 None None None).
Proof.
  intros st s'.
  destruct (cacheProcessingStatus_read_back "v1" "v2" st Catalogue.two_videos)
    as [Hown Hother]; [done|].
  split; [exact Hown|]. etrans; [exact Hother|]. by vm_compute.
Defined.

(** ** [utils/storage.ts] *)

Lemma strip_trailing_slash_slash (base : string) :
  Storage.strip_trailing_slash (base +:+ "/") = base.
Proof.
  unfold Storage.strip_trailing_slash.
  rewrite list_ascii_of_append, rev_app_distr. cbn [String.list_ascii_of_string rev app].
  rewrite Ascii.eqb_refl, rev_involutive.
  apply String.string_of_list_ascii_of_string.
Qed.

(** X16. With a custom endpoint configured, the public URL of an object is
    the endpoint, the bucket and the key joined by single slashes, and one
    trailing slash of the endpoint makes no difference. *)
Theorem getS3PublicUrl_trailing_slash
    (cfg : Config) (base bucket key : string) :
  storage_s3Endpoint cfg = Some (base +:+ "/") →
  Storage.getS3PublicUrl cfg bucket key
    = base +:+ "/" +:+ bucket +:+ "/" +:+ key.
Proof.
  intros Hendpoint. unfold Storage.getS3PublicUrl.
  rewrite Hendpoint. cbn [defined_truthy interp default].
  assert (truthy (base +:+ "/") = true) as ->.
  { by destruct base. }
  unfold id. by rewrite strip_trailing_slash_slash.
Qed.

Lemma getS3PublicUrl_trailing_slash_witness :
  Storage.getS3PublicUrl
    (mkConfig None None "us-east-1" None None minio "uploads"
       (Some "media") "us-east-1" (Some ("http://minio:9000" +:+ "/"))
       default_qualities)
    "media" "videos/v1/720p.m3u8"
  = "http://minio:9000/media/videos/v1/720p.m3u8".
Proof.
  apply (getS3PublicUrl_trailing_slash _ "http://minio:9000").
  reflexivity.
Defined.

(** ** A rerun of the local strategy *)

Section rerun.
Variables (cfg : Config) (w : World) (videoId inputPath : string).

Lemma transcodeToQuality_present s q :
  is_Some (videos s !! videoId) →
  is_Some (Db.find_variant videoId (name q) (video_variants s)) →
  ∃ e, Processing.transcodeToQuality w inputPath
         (output_dir cfg w videoId) videoId q s = (inl e, s).
Proof.
  intros [v Hv] [r Hr]. unfold Processing.transcodeToQuality.
  destruct (encode w inputPath _ q) as [e|fileSize]; [by exists e|].
  eexists. erewrite bind_inl; [reflexivity|].
  unfold Db.insert_variant. cbn [video_id quality]. by rewrite Hv, Hr.
Qed.

Lemma transcode_loop_all_present todo acc s :
  is_Some (videos s !! videoId) →
  Forall (fun q =>
    is_Some (Db.find_variant videoId (name q) (video_variants s))) todo →
  Processing.transcode_loop w inputPath (output_dir cfg w videoId) videoId
    todo acc s = (inr acc, s).
Proof.
  intros Hvideo. induction 1 as [|q todo Hq _ IH]; [done|].
  cbn [Processing.transcode_loop].
  destruct (transcodeToQuality_present s q Hvideo Hq) as [e He].
  erewrite bind_inr; [exact IH|].
  unfold try_catch. erewrite bind_inl; [reflexivity|exact He].
Qed.

End rerun.

(** X17. When every rung of the ladder already has a rendition of the
    video, a further run of the local strategy whose other steps succeed
    returns with the video [ready] and the table of renditions exactly as
    it was: the rungs are encoded again, but no row is added, replaced or
    updated. *)
Theorem processVideo_local_rerun_keeps_rows
    (cfg : Config) (w : World) (videoId inputPath : string) (s : Store) :
  local_strategy cfg →
  is_Some (videos s !! videoId) →
  other_steps_succeed cfg w videoId inputPath →
  Forall (fun q =>
    is_Some (Db.find_variant videoId (name q) (video_variants s)))
    (Processing.qualities cfg) →
  ∃ s',
    Processing.processVideo cfg w videoId inputPath s = (inr tt, s') ∧
    status_of videoId s' = Some ready ∧
    video_variants s' = video_variants s.
Proof.
  intros Hlocal Hvideo Hother Hrows.
  destruct (processVideo_local_run cfg w videoId inputPath s [])
    as (s' & Hrun & Hstatus & _ & Hsame); try done.
  - intros s4 Hvideo4 Hrows4.
    unfold Processing.transcodeToMultipleQualities.
    rewrite transcode_loop_all_present; [by rewrite with_variants_nil|done|].
    by rewrite Hrows4.
  - exists s'. auto.
Qed.

Lemma processVideo_local_rerun_keeps_rows_witness :
  ∃ s',
    Processing.processVideo Scenario.cfg_local Scenario.every_rung_succeeds
      "v1" "again.mp4" Studio.processed = (inr tt, s') ∧
    status_of "v1" s' = Some ready ∧
    video_variants s' = video_variants Studio.processed.
Proof.
  apply (processVideo_local_rerun_keeps_rows Scenario.cfg_local
           Scenario.every_rung_succeeds "v1" "again.mp4" Studio.processed).
  - reflexivity.
  - vm_compute. eauto.
  - repeat split; try done. by eexists.
  - vm_compute. repeat constructor; eauto.
Defined.

(** ** [video.service.ts] *)

Lemma calculateProcessingProgress_range st (n : nat) :
  0 <= VideoService.calculateProcessingProgress st (Z.of_nat n) <= 100 ∧
  (VideoService.calculateProcessingProgress st (Z.of_nat n) = 100
   ↔ st = ready).
Proof.
  destruct st; cbn; split; try lia; split; try done; lia.
Qed.

Lemma getVideoProcessingStatus_run videoId s v :
  videos s !! videoId = Some v →
  VideoService.getVideoProcessingStatus videoId s =
  (inr (VideoService.mkProcessingStatus videoId (status v)
          (VideoService.calculateProcessingProgress (status v)
             (Z.of_nat (length (Db.order_by_bitrate_desc
                                  (renditions videoId s)))))
          (if decide (status v = failed)
           then Some "Processing failed" else None)
          (Db.order_by_bitrate_desc (renditions videoId s))), s).
Proof.
  intros Hv. unfold VideoService.getVideoProcessingStatus.
  rewrite (bind_inr _ _ s (videos s !! videoId) s); [|done].
  by rewrite Hv.
Qed.

(** X18. [getVideoProcessingStatus] rejects with "Video not found" for a
    video that does not exist; for one that does it returns its status
    and all its renditions, a progress between 0 and 100 that is 100
    exactly when the video is [ready], and the error "Processing failed"
    exactly when it is [failed].  It writes nothing. *)
Theorem getVideoProcessingStatus_reports (videoId : string) (s : Store) :
  match videos s !! videoId with
  | None =>
      VideoService.getVideoProcessingStatus videoId s
        = (inl "Video not found", s)
  | Some v =>
      ∃ st,
        VideoService.getVideoProcessingStatus videoId s = (inr st, s) ∧
        VideoService.ps_status st = status v ∧
        VideoService.ps_variants st ≡ₚ renditions videoId s ∧
        0 <= VideoService.ps_progress st <= 100 ∧
        (VideoService.ps_progress st = 100 ↔ status v = ready) ∧
        (VideoService.ps_error st = Some "Processing failed"
         ↔ status v = failed) ∧
        (VideoService.ps_error st = None ↔ status v ≠ failed)
  end.
Proof.
  destruct (videos s !! videoId) as [v|] eqn:Hv.
  - eexists. split; [by apply getVideoProcessingStatus_run|].
    cbn [VideoService.ps_status VideoService.ps_variants
         VideoService.ps_progress VideoService.ps_error].
    split; [done|]. split; [apply order_by_bitrate_desc_perm|].
    destruct (calculateProcessingProgress_range (status v)
                (length (Db.order_by_bitrate_desc (renditions videoId s))))
      as [Hrange Hdone].
    split; [done|]. split; [done|].
    destruct (decide (status v = failed)); split; split; done.
  - unfold VideoService.getVideoProcessingStatus.
    rewrite (bind_inr _ _ s (videos s !! videoId) s); [|done].
    by rewrite Hv.
Qed.

(** X19. After [uploadVideoFile] for a video that exists, the status
    report is final either way: progress 100 and no error when the upload
    call returned, progress 0 and the error "Processing failed" when it
    rejected. *)
Theorem uploadVideoFile_then_status
    (cfg : Config) (w : World) (videoId filePath : string) (s : Store) :
  is_Some (videos s !! videoId) →
  match VideoService.uploadVideoFile cfg w videoId filePath s with
  | (inr _, s') =>
      ∃ st,
        VideoService.getVideoProcessingStatus videoId s' = (inr st, s') ∧
        VideoService.ps_status st = ready ∧
        VideoService.ps_progress st = 100 ∧
        VideoService.ps_error st = None
  | (inl _, s') =>
      ∃ st,
        VideoService.getVideoProcessingStatus videoId s' = (inr st, s') ∧
        VideoService.ps_status st = failed ∧
        VideoService.ps_progress st = 0 ∧
        VideoService.ps_error st = Some "Processing failed"
  end.
Proof.
  intros Hvideo. unfold VideoService.uploadVideoFile.
  erewrite bind_inr; [|reflexivity].
  match goal with
  | |- context [Processing.processVideo cfg w videoId filePath ?s1] =>
      pose proof (processVideo_settles cfg w videoId filePath s1) as Hsettles;
      destruct (Processing.processVideo cfg w videoId filePath s1)
        as [[error|[]] s'] eqn:Hrun
  end.
  - destruct Hsettles as [Hstatus _].
    { eapply appends_video; [apply appends_update_video|done]. }
    unfold status_of in Hstatus.
    destruct (videos s' !! videoId) as [v|] eqn:Hv; [|done].
    injection Hstatus as Hstatus.
    eexists. split; [by apply getVideoProcessingStatus_run|].
    cbn [VideoService.ps_status VideoService.ps_progress VideoService.ps_error].
    by rewrite Hstatus.
  - destruct Hsettles as [Hstatus _].
    { eapply appends_video; [apply appends_update_video|done]. }
    unfold status_of in Hstatus.
    destruct (videos s' !! videoId) as [v|] eqn:Hv; [|done].
    injection Hstatus as Hstatus.
    eexists. split; [by apply getVideoProcessingStatus_run|].
    cbn [VideoService.ps_status VideoService.ps_progress VideoService.ps_error].
    by rewrite Hstatus.
Qed.

Lemma uploadVideoFile_then_status_witness :
  ∃ st s',
    VideoService.uploadVideoFile Scenario.cfg_local Studio.probe_fails
      "v1" "in.mp4" Scenario.uploaded
      = (inl "ffprobe exited with code 1", s') ∧
    VideoService.getVideoProcessingStatus "v1" s' = (inr st, s') ∧
    VideoService.ps_progress st = 0.
Proof.
  pose proof (uploadVideoFile_then_status Scenario.cfg_local
                Studio.probe_fails "v1" "in.mp4" Scenario.uploaded) as H.
  destruct (VideoService.uploadVideoFile _ _ _ _ _) as [[error|[]] s']
    eqn:Hrun.
  - destruct H as (st & Hst & _ & Hprogress & _); [vm_compute; eauto|].
    exists st, s'. split; [|done].
    vm_compute in Hrun. by injection Hrun as <- <-.
  - by vm_compute in Hrun.
Defined.

(** ** The manifest of the video service and the manifest route *)

Lemma VideoService_generateHLSManifest_run videoId s :
  VideoService.generateHLSManifest videoId s =
  if decide (renditions videoId s = [])
  then (inl "No video variants found", s)
  else
    (inr (VideoService.mkHLSManifest 3
       (map (fun variant =>
          VideoService.mkManifestVariant (v_bitrate variant * 1000)
            (num (resolution_width variant) +:+ "x"
             +:+ num (resolution_height variant))
            (VideoService.playlist_url videoId variant))
          (Db.order_by_bitrate_desc (renditions videoId s)))), s).
Proof.
  unfold VideoService.generateHLSManifest.
  rewrite (bind_inr _ _ s (Db.order_by_bitrate_desc (renditions videoId s)) s);
    [|done].
  destruct (decide (renditions videoId s = [])) as [Hnone|Hsome].
  - rewrite Hnone. reflexivity.
  - destruct (decide (length _ = 0%nat)) as [Hlen|Hlen]; [|done].
    apply length_zero_iff_nil in Hlen.
    by apply (proj1 (order_by_bitrate_desc_nil _)) in Hlen.
Qed.

(** X20. For a video with renditions, [generateHLSManifest] of the video
    service returns, without reading or writing the cache, a manifest
    object of version 3 with one entry for every rendition now in the
    table, highest bandwidth first: the entry carries the bitrate times
    1000, the resolution as [WIDTHxHEIGHT] and, as playlist URL, the URL
    of the row, or the API route of the playlist when the row has none. *)
Theorem generateHLSManifest_object_lists_all_renditions
    (videoId : string) (s : Store) :
  renditions videoId s ≠ [] →
  ∃ manifest listed,
    VideoService.generateHLSManifest videoId s = (inr manifest, s) ∧
    VideoService.version manifest = 3 ∧
    Sorted Reference.bandwidth_desc listed ∧
    listed ≡ₚ renditions videoId s ∧
    Forall2 (describes videoId) (VideoService.variants manifest) listed.
Proof.
  intros Hsome. eexists.
  exists (Db.order_by_bitrate_desc (renditions videoId s)). split.
  { rewrite VideoService_generateHLSManifest_run.
    by rewrite decide_False by done. }
  split; [done|]. split; [|split].
  - apply bitrate_desc_bandwidth_desc, order_by_bitrate_desc_sorted.
  - apply order_by_bitrate_desc_perm.
  - cbn [VideoService.variants]. apply Forall2_fmap_l.
    apply Forall_Forall2_diag, Forall_forall. intros v _.
    by repeat split.
Qed.

Lemma generateHLSManifest_object_lists_all_renditions_witness :
  ∃ manifest,
    VideoService.generateHLSManifest "v1" Studio.polled
      = (inr manifest, Studio.polled) ∧
    map VideoService.playlistUrl (VideoService.variants manifest) =
    [ "https://media.s3.us-east-1.amazonaws.com/videos/v1/outputs/720p.m3u8";
      "https://media.s3.us-east-1.amazonaws.com/videos/v1/outputs/480p.m3u8" ].
Proof.
  destruct (generateHLSManifest_object_lists_all_renditions "v1"
              Studio.polled) as (manifest & listed & Hrun & _);
    [by vm_compute|].
  exists manifest. split; [done|].
  vm_compute in Hrun. by injection Hrun as <-.
Defined.

Lemma manifest_route_run visibility_private type_error videoId s v :
  videos s !! videoId = Some v → visibility_private videoId = false →
  StreamingController.manifest_route visibility_private type_error videoId s =
  (StreamingController.Json 400
     (if decide (status v = ready) then
        if decide (renditions videoId s = [])
        then "No video variants found"
        else type_error
      else "Video is not ready for streaming"), s).
Proof.
  intros Hv Hpublic.
  unfold StreamingController.manifest_route,
    StreamingController.getHLSManifest, StreamingController.respond,
    VideoService.getVideoById.
  rewrite Hpublic.
  unfold mbind at 1, M_bind at 1, bind at 1.
  unfold mbind at 1, M_bind at 1, bind at 1. cbn [gets]. rewrite Hv.
  unfold mbind at 1, M_bind at 1, bind at 1.
  cbn [VideoService.getVideoVariants gets mret M_ret ret].
  destruct (decide (status v = ready)) as [Hready|Hnot]; [|done].
  unfold mbind at 1, M_bind at 1, bind at 1.
  rewrite VideoService_generateHLSManifest_run.
  by destruct (decide (renditions videoId s = [])) as [Hnone|Hsome].
Qed.

(** X21. The manifest route of the video routes after [processVideo], for
    a video that exists and is not private, never sends a manifest.  When
    the processing rejected, it answers 400 "Video is not ready for
    streaming"; when it returned, it answers 400 "No video variants found"
    if the video has no rendition, as after a cloud submission, and
    otherwise 400 with the message of the [TypeError] that the handler,
    registered without its controller, meets at
    [this.generateM3U8Content].  The route writes nothing. *)
Theorem manifest_route_after_processVideo
    (cfg : Config) (w : World) (visibility_private : string → bool)
    (type_error videoId inputPath : string) (s : Store) :
  is_Some (videos s !! videoId) →
  visibility_private videoId = false →
  match Processing.processVideo cfg w videoId inputPath s with
  | (inl _, s') =>
      StreamingController.manifest_route visibility_private type_error
        videoId s' =
      (StreamingController.Json 400 "Video is not ready for streaming", s')
  | (inr _, s') =>
      StreamingController.manifest_route visibility_private type_error
        videoId s' =
      (StreamingController.Json 400
         (if decide (renditions videoId s' = [])
          then "No video variants found" else type_error), s')
  end.
Proof.
  intros Hvideo Hpublic.
  pose proof (processVideo_settles cfg w videoId inputPath s Hvideo) as H.
  destruct (Processing.processVideo cfg w videoId inputPath s)
    as [[error|[]] s'].
  - destruct H as [Hstatus _]. unfold status_of in Hstatus.
    destruct (videos s' !! videoId) as [v|] eqn:Hv; [|done].
    injection Hstatus as Hstatus.
    rewrite (manifest_route_run _ _ _ _ v Hv Hpublic), Hstatus.
    by rewrite decide_False.
  - destruct H as [Hstatus _]. unfold status_of in Hstatus.
    destruct (videos s' !! videoId) as [v|] eqn:Hv; [|done].
    injection Hstatus as Hstatus.
    rewrite (manifest_route_run _ _ _ _ v Hv Hpublic), Hstatus.
    by rewrite decide_True.
Qed.

Lemma manifest_route_after_processVideo_witness :
  StreamingController.manifest_route Studio.nobody_private
    "Cannot read properties of undefined (reading 'generateM3U8Content')"
    "v1" Studio.processed =
  (StreamingController.Json 400
     "Cannot read properties of undefined (reading 'generateM3U8Content')",
   Studio.processed).
Proof.
  pose proof (manifest_route_after_processVideo Scenario.cfg_local
                Scenario.every_rung_succeeds Studio.nobody_private
                "Cannot read properties of undefined (reading 'generateM3U8Content')"
                "v1" "in.mp4" Scenario.uploaded) as H.
  unfold Studio.processed.
  destruct (Processing.processVideo _ _ _ _ _) as [[error|[]] s'] eqn:Hrun.
  - by vm_compute in Hrun.
  - cbn [snd]. rewrite H; [|vm_compute; eauto|done].
    rewrite decide_False; [done|].
    vm_compute in Hrun. injection Hrun as <-. by vm_compute.
Defined.

(** ** Renditions recorded from a cloud job and the playlist route *)

Lemma getCloudFrontUrl_direct cfg key :
  String.prefix "http" (MediaConvert.getCloudFrontUrl cfg key) = true ∧
  truthy (MediaConvert.getCloudFrontUrl cfg key) = true.
Proof.
  unfold MediaConvert.getCloudFrontUrl.
  by destruct (defined_truthy (aws_cloudFrontDomain cfg)).
Qed.

Lemma planned_rows_url cfg videoId job r :
  r ∈ planned_rows cfg videoId job →
  video_id r = videoId ∧
  hls_playlist_url r =
    Some (MediaConvert.getCloudFrontUrl cfg
            ("videos/" +:+ videoId +:+ "/outputs/" +:+ quality r
             +:+ ".m3u8")).
Proof.
  unfold planned_rows. intros Hr.
  destruct (outputGroupDetails job) as [groups|];
    [|by apply elem_of_nil in Hr].
  apply list_elem_of_In, in_flat_map in Hr as (g & _ & Hr).
  apply list_elem_of_In in Hr.
  destruct (OutputDetails g) as [outputs|]; [|by apply elem_of_nil in Hr].
  apply list_elem_of_omap in Hr as (output & _ & Hrow).
  unfold planned_row in Hrow.
  destruct (OutputFilePaths output) as [[|p ?]|]; try done.
  destruct (Processing.extractQualityFromPath cfg p); [|done].
  by injection Hrow as <-.
Qed.

Lemma find_quality_Some (rows : list VariantRow) q r :
  List.find (fun v => bool_decide (quality v = q)) rows = Some r →
  r ∈ rows ∧ quality r = q.
Proof.
  intros H. apply find_some in H as [Hin Hq].
  split; [by apply list_elem_of_In|by apply bool_decide_eq_true_1 in Hq].
Qed.

Lemma find_quality_is_Some (rows : list VariantRow) r :
  r ∈ rows →
  is_Some (List.find (fun v => bool_decide (quality v = quality r)) rows).
Proof.
  intros Hin. destruct (List.find _ rows) as [r'|] eqn:Hfind; [by eexists|].
  apply list_elem_of_In in Hin.
  eapply find_none in Hfind; [|exact Hin].
  by rewrite bool_decide_eq_true_2 in Hfind.
Qed.

(** X22. Once a poll has recorded the renditions of a finished cloud job,
    the playlist route answers, for the label of each of them, with a
    redirect to the URL of that label's playlist under the distribution
    domain (or the bucket), never with a local file. *)
Theorem playlist_route_redirects_recorded_rendition
    (cfg : Config) (w : World) (videoId j : string) (job : MediaConvertJob)
    (s : Store) (r : VariantRow)
    (cwd : string) (join : list string → string)
    (existsSync : string → bool) (readFileSync : string → string + string) :
  job_of videoId s = Some j → get_job w j = Some job →
  job_status job = COMPLETE →
  insertable videoId (planned_rows cfg videoId job) s →
  r ∈ planned_rows cfg videoId job →
  let s' := snd (Processing.checkAWSJobStatus cfg w videoId s) in
  StreamingController.getHLSPlaylist cwd join existsSync readFileSync
    videoId (quality r) s' =
  (StreamingController.Redirect
     (MediaConvert.getCloudFrontUrl cfg
        ("videos/" +:+ videoId +:+ "/outputs/" +:+ quality r +:+ ".m3u8")),
   s').
Proof.
  intros Hjob Hanswer Hdone Hrows Hr s'. subst s'.
  rewrite checkAWSJobStatus_unfold.
  rewrite Hjob, Hanswer. cbn zeta. rewrite decide_True by done.
  unfold job_of in Hjob.
  destruct (videos s !! videoId) as [v|] eqn:Hv; [|done].
  rewrite (inserts_run videoId); [| |apply planned_rows_video|done].
  2: { cbn. by rewrite Hv. }
  cbn [snd].
  unfold StreamingController.getHLSPlaylist, StreamingController.respond.
  unfold mbind at 1, M_bind at 1, bind at 1.
  cbn [VideoService.getVideoVariants gets video_variants with_redis
       with_videos with_variants].
  destruct (planned_rows_url _ _ _ _ Hr) as [Hid Hurl].
  match goal with
  | |- context [List.find ?f ?l] =>
      destruct (List.find f l) as [found|] eqn:Hfind
  end.
  - apply find_quality_Some in Hfind as [Hin Hq].
    rewrite order_by_bitrate_desc_perm in Hin.
    unfold Db.variants_of in Hin.
    apply list_elem_of_filter in Hin as [Hfid Hin].
    apply elem_of_app in Hin as [Hold|Hnew].
    + destruct Hrows as [_ Hfresh].
      eapply Forall_forall in Hfresh; [|exact Hr].
      apply find_variant_None in Hfresh.
      eapply Forall_forall in Hfresh; [|exact Hold]. by destruct Hfresh.
    + destruct (planned_rows_url _ _ _ _ Hnew) as [_ Hfound].
      unfold StreamingController.direct_url. rewrite Hfound, Hq.
      destruct (getCloudFrontUrl_direct cfg
                  ("videos/" +:+ videoId +:+ "/outputs/" +:+ quality r
                   +:+ ".m3u8")) as [Hprefix Htruthy].
      unfold if_truthy. by rewrite Htruthy, Hprefix.
  - exfalso.
    match type of Hfind with
    | List.find _ ?l = None =>
        destruct (find_quality_is_Some l r) as [found Hfound];
        [|congruence]
    end.
    rewrite order_by_bitrate_desc_perm. unfold Db.variants_of.
    apply list_elem_of_filter. split; [done|].
    apply elem_of_app. by right.
Qed.

Lemma playlist_route_redirects_recorded_rendition_witness :
  StreamingController.getHLSPlaylist "/srv/app" Scenario.join
    Studio.no_file Studio.unreadable "v1" "720p" Studio.polled =
  (StreamingController.Redirect
     "https://media.s3.us-east-1.amazonaws.com/videos/v1/outputs/720p.m3u8",
   Studio.polled).
Proof.
  apply (playlist_route_redirects_recorded_rendition Scenario.cfg_cloud
           Scenario.job_finished "v1" "job-1" Scenario.finished_job
           Scenario.submitted
           (mkVariant "v1" "720p" 2500 1280 720
              "s3://media/videos/v1/outputs/source_720p.m3u8" None
              (Some "https://media.s3.us-east-1.amazonaws.com/videos/v1/outputs/720p.m3u8"))
           "/srv/app" Scenario.join Studio.no_file Studio.unreadable);
    try reflexivity.
  - split.
    + apply (bool_decide_unpack _). by vm_compute.
    + vm_compute. repeat constructor.
  - vm_compute. apply list_elem_of_here.
Defined.

(** ** The progress of a cloud job *)

Lemma tally_inner outputs : ∀ acc : Z * Z,
  fold_left (fun acc output =>
    (fst acc + JobProgress.output_progress output, snd acc + 1)) outputs acc
  = (fst acc + foldr Z.add 0 (map JobProgress.output_progress outputs),
     snd acc + Z.of_nat (length outputs)).
Proof.
  induction outputs as [|o outputs IH]; intros [t c].
  - cbn. f_equal; lia.
  - cbn [fold_left map foldr length]. rewrite IH. cbn [fst snd].
    f_equal; lia.
Qed.

Lemma sum_app (a b : list Z) :
  foldr Z.add 0 (a ++ b) = foldr Z.add 0 a + foldr Z.add 0 b.
Proof.
  induction a as [|x a IH]; cbn [foldr app]; [done|]. rewrite IH. lia.
Qed.

Lemma tally_groups groups : ∀ t c : Z,
  fold_left (fun acc outputGroup =>
    match JobProgress.raw_OutputDetails outputGroup with
    | Some outputs =>
        fold_left (fun acc output =>
          (fst acc + JobProgress.output_progress output, snd acc + 1))
          outputs acc
    | None => acc
    end) groups (t, c) =
  (t + foldr Z.add 0 (map JobProgress.output_progress
                        (JobProgress.outputs_of groups)),
   c + Z.of_nat (length (JobProgress.outputs_of groups))).
Proof.
  induction groups as [|g groups IH]; intros t c.
  - cbn. f_equal; lia.
  - cbn [fold_left].
    change (JobProgress.outputs_of (g :: groups)) with
      (default [] (JobProgress.raw_OutputDetails g)
       ++ JobProgress.outputs_of groups)%list.
    destruct (JobProgress.raw_OutputDetails g) as [outputs|].
    + rewrite tally_inner. cbn [fst snd default from_option id]. rewrite IH.
      rewrite map_app, length_app, Nat2Z.inj_add, sum_app.
      f_equal; lia.
    + cbn [default from_option app]. apply IH.
Qed.

Lemma tally_outputs groups :
  JobProgress.tally groups =
  (foldr Z.add 0 (map JobProgress.output_progress
                    (JobProgress.outputs_of groups)),
   Z.of_nat (length (JobProgress.outputs_of groups))).
Proof. unfold JobProgress.tally. by rewrite tally_groups. Qed.

Lemma sum_between (lo hi : Z) (values : list Z) :
  Forall (fun p => lo <= p <= hi) values →
  lo * Z.of_nat (length values) <= foldr Z.add 0 values
    <= hi * Z.of_nat (length values).
Proof.
  induction 1 as [|p values Hp _ IH]; cbn [foldr length]; [lia|].
  rewrite Nat2Z.inj_succ. lia.
Qed.

Lemma round_div_between (lo hi total count : Z) :
  0 < count → lo * count <= total <= hi * count →
  lo <= JobProgress.round_div total count <= hi.
Proof.
  intros Hcount [Hlo Hhi]. unfold JobProgress.round_div. split.
  - apply Z.div_le_lower_bound; lia.
  - apply Z.lt_succ_r. apply Z.div_lt_upper_bound; lia.
Qed.

(** X23. The progress computed for a job with at least one output lies
    between the least and the greatest contribution of its outputs, an
    output with files counting 100 and any other its elapsed seconds; in
    particular it is 100 when every output has files.  Without outputs
    it is 0. *)
Theorem calculateJobProgress_between
    (groups : list JobProgress.RawOutputGroup) (lo hi : Z) :
  JobProgress.outputs_of groups ≠ [] →
  Forall (fun output => lo <= JobProgress.output_progress output <= hi)
    (JobProgress.outputs_of groups) →
  lo <= JobProgress.calculateJobProgress (Some groups) <= hi.
Proof.
  intros Hsome Hall. unfold JobProgress.calculateJobProgress.
  rewrite tally_outputs.
  destruct (JobProgress.outputs_of groups) as [|o outputs] eqn:Houtputs;
    [done|].
  assert (0 < Z.of_nat (length (o :: outputs))) as Hcount.
  { cbn [length]. lia. }
  rewrite (proj2 (Z.ltb_lt _ _) Hcount).
  apply round_div_between; [done|].
  rewrite <- (length_map JobProgress.output_progress).
  apply sum_between. by apply Forall_fmap.
Qed.

Lemma calculateJobProgress_between_witness :
  JobProgress.calculateJobProgress
    (Some [ JobProgress.mkRawOutputGroup (Some
              [ JobProgress.mkRawOutput (Some ["a_720p.m3u8"]) None;
                JobProgress.mkRawOutput (Some ["a_480p.m3u8"]) (Some 12) ]) ])
  = 100.
Proof.
  pose proof (calculateJobProgress_between
    [ JobProgress.mkRawOutputGroup (Some
        [ JobProgress.mkRawOutput (Some ["a_720p.m3u8"]) None;
          JobProgress.mkRawOutput (Some ["a_480p.m3u8"]) (Some 12) ]) ]
    100 100) as H.
  apply Z.le_antisymm; apply H; try done;
    repeat constructor; cbn; lia.
Defined.

(** ** Submitting a cloud job and polling it *)

(** X24. The whole cloud path: when the upload of the source, the
    creation of the job and the thumbnail succeed and the job has a
    non-empty id, [processVideo] returns; if the job service then reports
    that job complete and the rows of its outputs are new to the video, the
    next poll returns its answer and the table holds the old rows followed
    by exactly those rows, the video being [ready]. *)
Theorem cloud_submission_then_complete_poll
    (cfg : Config) (w : World) (videoId inputPath : string) (s : Store)
    (metadata : Z) (j : string) (job : MediaConvertJob) :
  defined_truthy (aws_accessKeyId cfg)
  && defined_truthy (aws_secretAccessKey cfg) = true →
  is_Some (videos s !! videoId) →
  ffprobe w inputPath = inr metadata →
  put_object w inputPath
    ("videos/" +:+ videoId +:+ "/source/" +:+ path_basename w inputPath)
    = put_ok →
  create_job w videoId
    ("s3://" +:+ interp (aws_s3Bucket cfg) +:+ "/videos/" +:+ videoId
     +:+ "/source/" +:+ path_basename w inputPath)
    ("s3://" +:+ interp (aws_s3Bucket cfg) +:+ "/videos/" +:+ videoId
     +:+ "/outputs")
    (Processing.qualities cfg) = Some j →
  mkdir w (output_dir cfg w videoId) = None →
  screenshots w inputPath (output_dir cfg w videoId) = None →
  truthy j = true → get_job w j = Some job → job_status job = COMPLETE →
  insertable videoId (planned_rows cfg videoId job) s →
  ∃ s1 s2,
    Processing.processVideo cfg w videoId inputPath s = (inr tt, s1) ∧
    Processing.checkAWSJobStatus cfg w videoId s1 = (inr job, s2) ∧
    video_variants s2
      = (video_variants s ++ planned_rows cfg videoId job)%list ∧
    status_of videoId s2 = Some ready.
Proof.
  intros Hcloud Hvideo Hprobe Hput Hcreate Hmkdir Hshot Hj Hanswer Hdone
    Hrows.
  destruct (processVideo_cloud_run cfg w videoId inputPath s metadata j)
    as (s1 & Hrun & Hjob & _ & Hsame); try done.
  exists s1. rewrite checkAWSJobStatus_unfold.
  assert (job_of videoId s1 = Some j) as Hjob_of.
  { unfold job_of. destruct (videos s1 !! videoId) as [v|]; [|done].
    cbn in Hjob. cbn. rewrite Hjob. cbn. by rewrite Hj. }
  rewrite Hjob_of, Hanswer. cbn zeta. rewrite decide_True by done.
  assert (is_Some (videos s1 !! videoId)) as [v Hv].
  { unfold job_of in Hjob_of. by destruct (videos s1 !! videoId). }
  rewrite (inserts_run videoId); [| |apply planned_rows_video|].
  2: { cbn. by rewrite Hv. }
  2: { destruct Hrows as [Hnodup Hfresh]. split; [done|]. cbn.
       by rewrite Hsame. }
  eexists. split; [done|]. split; [done|].
  unfold status_of.
  cbn [videos video_variants with_redis with_videos with_variants].
  rewrite Hsame. split; [done|].
  by rewrite lookup_alter_eq, Hv.
Qed.

Lemma cloud_submission_then_complete_poll_witness :
  ∃ s1 s2,
    Processing.processVideo Scenario.cfg_cloud Scenario.job_finished
      "v1" "in.mp4" Scenario.uploaded = (inr tt, s1) ∧
    Processing.checkAWSJobStatus Scenario.cfg_cloud Scenario.job_finished
      "v1" s1 = (inr Scenario.finished_job, s2) ∧
    map quality (video_variants s2) = ["720p"; "480p"] ∧
    status_of "v1" s2 = Some ready.
Proof.
  destruct (cloud_submission_then_complete_poll Scenario.cfg_cloud
              Scenario.job_finished "v1" "in.mp4" Scenario.uploaded
              60 "job-1" Scenario.finished_job)
    as (s1 & s2 & Hrun & Hpoll & Hrows & Hstatus); try reflexivity.
  - vm_compute. eauto.
  - split.
    + apply (bool_decide_unpack _). by vm_compute.
    + vm_compute. repeat constructor.
  - exists s1, s2. split; [done|]. split; [done|]. split; [|done].
    by rewrite Hrows.
Defined.

(** ** The manifest key holds renditions of its video *)

Lemma manifest_cache_tracks_appends videoId s s' :
  Redis.get (Streaming.manifest_key videoId) s'
    = Redis.get (Streaming.manifest_key videoId) s →
  appends s s' →
  manifest_cache_tracks videoId s → manifest_cache_tracks videoId s'.
Proof.
  intros Hkey [_ Hrows] Htracks text Htext. rewrite Hkey in Htext.
  destruct (Htracks text Htext) as (listed & rest & Hsome & Hlisted & ->).
  destruct (Hrows videoId) as [new Hnew].
  apply Forall2_app_inv_l in Hnew as (rows & rows' & Hold & Hnew & Heq).
  exists listed, (rest ++ new)%list. split; [done|]. split; [|done].
  rewrite Heq, app_assoc. apply Forall2_app; [|exact Hnew].
  by eapply same_rendition_trans.
Qed.

Lemma generateHLSManifest_keeps_tracks videoId other s :
  manifest_cache_tracks videoId s →
  manifest_cache_tracks videoId
    (snd (Streaming.generateHLSManifest other s)).
Proof.
  intros Htracks.
  destruct (if_truthy (Redis.get (Streaming.manifest_key other) s))
    as [cached|] eqn:Hget.
  { by rewrite (generateHLSManifest_hit _ _ _ Hget). }
  destruct (decide (renditions other s = [])) as [Hnone|Hsome].
  { by rewrite (generateHLSManifest_empty _ _ Hget Hnone). }
  rewrite (generateHLSManifest_miss _ _ Hget Hsome). cbn [snd].
  intros text Htext. destruct (decide (other = videoId)) as [->|Hother].
  - apply if_truthy_some in Htext. unfold Redis.get in Htext.
    cbn [redis with_redis] in Htext. rewrite lookup_insert_eq in Htext.
    injection Htext as <-.
    exists (renditions videoId s), []. split; [done|]. split; [|done].
    rewrite app_nil_r. apply same_rendition_refl.
  - apply Htracks. rewrite <- Htext. f_equal. unfold Redis.get.
    cbn [redis with_redis]. rewrite lookup_insert_ne; [done|].
    unfold Streaming.manifest_key. intros Heq.
    by apply (inj (String.app "manifest:")) in Heq.
Qed.

Lemma after_keeps_manifest_cache_tracks c videoId s :
  manifest_cache_tracks videoId s → manifest_cache_tracks videoId (after c s).
Proof.
  destruct c as [cfg w v inputPath|cfg w v|v|v q|v b]; cbn [after].
  - apply manifest_cache_tracks_appends; [|apply appends_processVideo].
    by destruct (steady_processVideo cfg w v inputPath s) as [-> _].
  - apply manifest_cache_tracks_appends; [|apply appends_checkAWSJobStatus].
    by destruct (steady_checkAWSJobStatus cfg w v s) as [-> _].
  - apply generateHLSManifest_keeps_tracks.
  - apply manifest_cache_tracks_appends; [|apply (appends_after (GenerateQualityPlaylist v q))].
    by destruct (steady_generateQualityPlaylist v q s) as [-> _].
  - done.
Qed.

Lemma expiry_keeps_manifest_cache_tracks key videoId s :
  manifest_cache_tracks videoId s →
  manifest_cache_tracks videoId (with_redis (delete key) s).
Proof.
  intros Htracks text Htext. apply Htracks. rewrite <- Htext.
  unfold Redis.get in *. cbn [redis with_redis] in *.
  destruct (decide (key = Streaming.manifest_key videoId)) as [->|Hkey].
  - by rewrite lookup_delete_eq in Htext.
  - by rewrite lookup_delete_ne.
Qed.

Lemma manifest_cache_tracks_reachable events videoId s :
  redis s = ∅ → manifest_cache_tracks videoId (happen_all events s).
Proof.
  intros Hempty.
  assert (manifest_cache_tracks videoId s) as Htracks.
  { intros text Htext. unfold Redis.get in Htext.
    by rewrite Hempty, lookup_empty in Htext. }
  clear Hempty. revert s Htracks.
  induction events as [|e events IH]; intros s Htracks; [done|].
  cbn [happen_all]. apply IH. destruct e as [c|key]; cbn [happen].
  - by apply after_keeps_manifest_cache_tracks.
  - by apply expiry_keeps_manifest_cache_tracks.
Qed.

(** C6. From a cold cache and whatever calls of the services and expiries
    of cache entries came before, for a video with at least one persisted rendition and whatever the
    order of insertion of its rows, the master manifest that
    [generateHLSManifest] returns is the header followed, for each listed
    rendition, by a stream-info line with bandwidth [bitrate * 1000] and
    [WIDTHxHEIGHT] and then the relative playlist reference, the listed
    renditions being in non-increasing bandwidth order.  The listed
    renditions are renditions of this very video, the persisted ones: all
    of them when the manifest is computed (cache miss), and the ones that
    were persisted when it was computed, at least one, when a cached copy
    is served. *)
Theorem master_manifest_descending_bandwidth
    (videoId : string) (events : list Event) (s0 : Store) :
  redis s0 = ∅ →
  renditions videoId (happen_all events s0) ≠ [] →
  ∃ variants,
    fst (Streaming.generateHLSManifest videoId (happen_all events s0)) =
      inr (Reference.master_manifest variants) ∧
    Sorted Reference.bandwidth_desc variants ∧
    lists_renditions_of videoId (happen_all events s0) variants ∧
    (if_truthy (Redis.get (Streaming.manifest_key videoId)
                  (happen_all events s0)) = None →
     variants ≡ₚ renditions videoId (happen_all events s0)).
Proof.
  intros Hcold Hsome.
  pose proof (manifest_cache_tracks_reachable events videoId s0 Hcold)
    as Htracks.
  destruct (if_truthy (Redis.get (Streaming.manifest_key videoId)
                         (happen_all events s0))) as [text|] eqn:Hget.
  - destruct (Htracks text Hget) as (listed & rest & Hlisted & Hrows & ->).
    exists (Db.order_by_bitrate_desc listed).
    rewrite (generateHLSManifest_hit _ _ _ Hget).
    split; [|split; [|split]].
    + cbn [fst]. by rewrite manifest_renders_reference.
    + apply bitrate_desc_bandwidth_desc, order_by_bitrate_desc_sorted.
    + exists listed, rest. split; [apply order_by_bitrate_desc_perm|done].
    + done.
  - exists (Db.order_by_bitrate_desc (renditions videoId (happen_all events s0))).
    rewrite (generateHLSManifest_miss _ _ Hget Hsome).
    split; [|split; [|split]].
    + cbn [fst]. by rewrite manifest_renders_reference.
    + apply bitrate_desc_bandwidth_desc, order_by_bitrate_desc_sorted.
    + exists (renditions videoId (happen_all events s0)), [].
      split; [apply order_by_bitrate_desc_perm|]. split; [done|].
      rewrite app_nil_r. apply same_rendition_refl.
    + intros _. apply order_by_bitrate_desc_perm.
Qed.

(** The hypotheses hold after a first local run that persists 480p alone,
    a request of the manifest, the expiry of the cached status and a
    second run that persists the other four rungs: the manifest then
    served lists 480p. *)
Lemma master_manifest_descending_bandwidth_witness :
  let events :=
    [ Called (ProcessVideo Scenario.cfg_local Scenario.only_480p_succeeds
                "v1" "in.mp4");
      Called (GenerateHLSManifest "v1");
      Expired (Cache.processing_key "v1");
      Called (ProcessVideo Scenario.cfg_local Scenario.every_rung_succeeds
                "v1" "in.mp4") ] in
  ∃ variants,
    fst (Streaming.generateHLSManifest "v1"
           (happen_all events Scenario.uploaded)) =
      inr (Reference.master_manifest variants) ∧
    Sorted Reference.bandwidth_desc variants ∧
    lists_renditions_of "v1" (happen_all events Scenario.uploaded) variants.
Proof.
  intros events.
  destruct (master_manifest_descending_bandwidth "v1" events
              Scenario.uploaded)
    as (variants & Hrun & Hsorted & Hlists & _).
  - reflexivity.
  - by vm_compute.
  - by exists variants.
Defined.
